(** * CL-MOT: ground-truth preparation and multi-task loss

    A shallow embedding of [src/lib/datasets/dataset/jde.py] (dataset
    bookkeeping, letterbox, random affine box filter, ground-truth encoding)
    and of [src/lib/trains/mot.py] (the [MotLoss] module).

    Conventions of the embedding:
    - Python exceptions are values of [exn] ([Cv2Error] stands for
      [cv2.error]); a computation that may raise has type [result A].
    - An [OrderedDict] is an association list in insertion order ([odict]).
    - Integer quantities are [Z]; [//] is [Z.div] (both round towards minus
      infinity).  Pixel and grid coordinates held in numpy float arrays are
      exact rationals ([Q]); quantities that go through [math.sin],
      [math.cos], [math.tan] or [torch.exp] are real numbers ([R]).
      Rounding of the machine floats is not part of the model, except
      where it decides a result: a float32 label array holds an integer
      identity exactly only up to [2^24] ([f32_round]), and the [1e-16]
      that [random_affine] adds to its denominators is absorbed by a
      float64 from 1 on and by a float32 from [2^-29] on ([add_eps64],
      [add_eps32]).
    - The loaders ([LoadImages], [LoadVideo], [DetDataset], [collate_fn])
      also raise [StopIteration], [AssertionError], [UnboundLocalError] and
      [RuntimeError]; a call of theirs has type [outcome A]. *)

From Stdlib Require Import String ZArith QArith Qround List Bool Lia.
From Stdlib Require Import Reals Psatz.
Import ListNotations.

Set Implicit Arguments.

(** ** Python values: exceptions, list indexing, ordered dictionaries *)

Module Py.

Inductive exn : Set :=
| IndexError
| KeyError
| AttributeError
| TypeError
| ValueError
| ZeroDivisionError
| RuntimeError
| Cv2Error.

Inductive result (A : Type) : Type :=
| Ok (a : A)
| Raise (e : exn).

Arguments Ok {A} a.
Arguments Raise {A} e.

Definition bind {A B : Type} (m : result A) (k : A -> result B) : result B :=
  match m with
  | Ok a => k a
  | Raise e => Raise e
  end.

Definition is_ok {A : Type} (m : result A) : bool :=
  match m with Ok _ => true | Raise _ => false end.

(** The position a Python index denotes in a sequence of length [n]:
    a negative index counts from the end, anything outside raises. *)
Definition py_pos (n : nat) (i : Z) : result nat :=
  let j := (if i <? 0 then i + Z.of_nat n else i)%Z in
  if ((j <? 0) || (Z.of_nat n <=? j))%Z then Raise IndexError
  else Ok (Z.to_nat j).

(** [xs[i]] on a Python list or along the first axis of a numpy array. *)
Definition py_index {A : Type} (xs : list A) (i : Z) : result A :=
  match py_pos (length xs) i with
  | Ok j => match nth_error xs j with
            | Some x => Ok x
            | None => Raise IndexError
            end
  | Raise e => Raise e
  end.

Fixpoint list_set {A : Type} (xs : list A) (n : nat) (v : A) : list A :=
  match xs, n with
  | [], _ => []
  | _ :: tl, O => v :: tl
  | x :: tl, S m => x :: list_set tl m v
  end.

(** [xs[i] = v] on a numpy array (same index rule as reading). *)
Definition py_assign {A : Type} (xs : list A) (i : Z) (v : A) : result (list A) :=
  match py_pos (length xs) i with
  | Ok j => Ok (list_set xs j v)
  | Raise e => Raise e
  end.

(** Ordered dictionaries. *)
Definition odict (V : Type) : Type := list (string * V).

Definition od_keys {V : Type} (d : odict V) : list string := map fst d.

Fixpoint od_find {V : Type} (k : string) (d : odict V) : option V :=
  match d with
  | [] => None
  | (k', v) :: tl => if String.eqb k k' then Some v else od_find k tl
  end.

(** [d[k]] *)
Definition od_get {V : Type} (k : string) (d : odict V) : result V :=
  match od_find k d with
  | Some v => Ok v
  | None => Raise KeyError
  end.

(** [d[k]] where the key may be [None], which no dictionary here holds. *)
Definition od_get_opt {V : Type} (k : option string) (d : odict V) : result V :=
  match k with
  | Some k => od_get k d
  | None => Raise KeyError
  end.

(** [d[k] = v]: an existing key keeps its position, a new key goes last. *)
Fixpoint od_set {V : Type} (k : string) (v : V) (d : odict V) : odict V :=
  match d with
  | [] => [(k, v)]
  | (k', v') :: tl =>
      if String.eqb k k' then (k, v) :: tl else (k', v') :: od_set k v tl
  end.

(** The keys of a Python dictionary are pairwise distinct. *)
Definition od_wf {V : Type} (d : odict V) : Prop := NoDup (od_keys d).

End Py.

Import Py.

Declare Scope py_scope.
Notation "x <- m ;; k" := (bind m (fun x => k))
  (at level 61, m at next level, right associativity) : py_scope.
Notation "' p <- m ;; k" := (bind m (fun p => k))
  (at level 61, p pattern, m at next level, right associativity) : py_scope.
Open Scope py_scope.

(** [for k in range(n): s = body(k, s)], an exception ending the loop. *)
Definition for_range {S : Type} (n : nat) (body : Z -> S -> result S) (s : S)
  : result S :=
  fold_left (fun acc k => st <- acc ;; body (Z.of_nat k) st) (seq 0 n) (Ok s).

(** [for x in xs: ...] building a list, an exception ending the loop. *)
Fixpoint mapM {A B : Type} (f : A -> result B) (xs : list A) : result (list B) :=
  match xs with
  | [] => Ok []
  | x :: tl => y <- f x ;; ys <- mapM f tl ;; Ok (y :: ys)
  end.

(** Calling an attribute that may hold [None], and reading a dictionary key
    that may be absent. *)
Definition callable {A : Type} (f : option A) : result A :=
  match f with Some c => Ok c | None => Raise TypeError end.

Definition need_key {A : Type} (v : option A) : result A :=
  match v with Some a => Ok a | None => Raise KeyError end.

(** [x < y] on floats. *)
Definition Rltb (x y : R) : bool := if Rlt_dec x y then true else false.

(** ** JointDataset.__init__: identity space and sample index *)

Module JointDataset.

(** One row of a label array: [class identity cx cy w h]. *)
Record LabelRow : Type := mkRow {
  cls : Z;
  ident : Z;
  cx : Q;
  cy : Q;
  bw : Q;
  bh : Q
}.

(** The options [__init__] and [__getitem__] read. *)
Record Opt : Type := mkOpt {
  opt_unsup : bool;
  opt_K : Z;
  opt_down_ratio : Z;
  opt_mse_loss : bool;
  opt_hm_gauss : Z
}.

Record t : Type := mk {
  opt : Opt;
  img_files : odict (list string);
  label_files : odict (list string);
  img_num : odict Z;
  tid_num : odict Z;
  tid_start_index : odict Z;
  nID : Z;
  cds : list Z;
  nF : Z;
  max_objs : Z;
  unsup : bool;
  num_classes : Z
}.

Section Init.

(** The label file that belongs to an image path
    ([replace('images', 'labels_with_ids')] and the extension), and what
    [np.loadtxt] reads from a label path. *)
Variable label_path_of : string -> string.
Variable loadtxt : string -> list LabelRow.

(** [img_max] of one loaded file: [None] for an empty file (skipped by
    [continue]), [lb[1]] for a single row, [np.max(lb[:, 1])] otherwise. *)
Definition img_max (lb : list LabelRow) : option Z :=
  match lb with
  | [] => None
  | [r] => Some (ident r)
  | r :: rs => Some (fold_left Z.max (map ident rs) (ident r))
  end.

Definition scan_file (max_index : Z) (lp : string) : Z :=
  match img_max (loadtxt lp) with
  | None => max_index
  | Some m => if (m >? max_index)%Z then m else max_index
  end.

(** [self.tid_num[ds]] for the label paths of one dataset. *)
Definition count_ids (label_paths : list string) : Z :=
  (fold_left scan_file label_paths (-1) + 1)%Z.

Definition make_img_files (paths : odict (list string)) : odict (list string) :=
  fold_left (fun d '(ds, files) => od_set ds files d) paths [].

Definition make_label_files (img_files : odict (list string))
  : odict (list string) :=
  fold_left (fun d '(ds, files) => od_set ds (map label_path_of files) d)
            img_files [].

Definition make_tid_num (label_files : odict (list string)) : odict Z :=
  fold_left (fun d '(ds, lps) => od_set ds (count_ids lps) d) label_files [].

(** The loop assigning [tid_start_index]; returns the dictionary and the
    final [last_index]. *)
Definition make_tid_start (tid_num : odict Z) : odict Z * Z :=
  fold_left (fun '(d, last_index) '(k, v) =>
               (od_set k last_index d, (last_index + v)%Z))
            tid_num ([], 0%Z).

(** The loop filling [img_num], [nF] and [cds]. *)
Definition make_cds (img_files : odict (list string))
  : odict Z * Z * list Z :=
  fold_left (fun '(img_num, nF, cds) '(ds, files) =>
               let img_cnt := Z.of_nat (length files) in
               let nF' := (nF + img_cnt)%Z in
               (od_set ds img_cnt img_num, nF', cds ++ [(nF' - img_cnt)%Z]))
            img_files ([], 0%Z, []).

(** [JointDataset.__init__], given for each dataset name the image paths
    read from its manifest. *)
Definition init (o : Opt) (paths : odict (list string)) : t :=
  let img_files := make_img_files paths in
  let label_files := make_label_files img_files in
  let tid_num := make_tid_num label_files in
  let '(tid_start_index, last_index) := make_tid_start tid_num in
  let '(img_num, nF, cds) := make_cds img_files in
  {| opt := o;
     img_files := img_files;
     label_files := label_files;
     img_num := img_num;
     tid_num := tid_num;
     tid_start_index := tid_start_index;
     nID := (last_index + 1)%Z;
     cds := cds;
     nF := nF;
     max_objs := opt_K o;
     unsup := opt_unsup o;
     num_classes := 1%Z |}.

End Init.

(** The first loop of [__getitem__]: the dataset and start index a flat
    index falls in. *)
Definition resolve_step (files_index : Z) (keys : list string)
    (acc : result (option string * Z)) (ic : nat * Z)
  : result (option string * Z) :=
  st <- acc ;;
  let '(i, c) := ic in
  if (files_index >=? c)%Z then
    ds <- py_index keys (Z.of_nat i) ;;
    Ok (Some ds, c)
  else Ok st.

Definition resolve (self : t) (files_index : Z) : result (option string * Z) :=
  let keys := od_keys (label_files self) in
  fold_left (resolve_step files_index keys)
            (combine (seq 0 (length (cds self))) (cds self))
            (Ok (None, 0%Z)).

(** The image and label path [__getitem__] passes to [get_data]. *)
Definition sample_paths (self : t) (files_index : Z)
  : result (option string * string * string) :=
  '(ds, start_index) <- resolve self files_index ;;
  imgs <- od_get_opt ds (img_files self) ;;
  img_path <- py_index imgs (files_index - start_index) ;;
  lbls <- od_get_opt ds (label_files self) ;;
  label_path <- py_index lbls (files_index - start_index) ;;
  Ok (ds, img_path, label_path).

End JointDataset.

(** ** LoadImagesAndLabels.get_data and JointDataset.__getitem__ *)

Module Encoder.

Import JointDataset.

(** [float -> int] conversion ([int(x)], [astype(np.int32)]): towards zero. *)
Definition Qtrunc (q : Q) : Z :=
  if Qle_bool 0 q then Qfloor q else Qceiling q.

(** [np.clip(x, lo, hi)] = [minimum(maximum(x, lo), hi)]. *)
Definition np_clip (x lo hi : Q) : Q :=
  let y := if Qle_bool lo x then x else lo in
  if Qle_bool y hi then y else hi.

(** [0 < x] on floats. *)
Definition Qpos_b (x : Q) : bool := negb (Qle_bool x 0).

(** [np.zeros((n, ...))]: a negative dimension is refused. *)
Definition np_zeros {A : Type} (zero : A) (n : Z) : result (list A) :=
  if (n <? 0)%Z then Raise ValueError else Ok (repeat zero (Z.to_nat n)).

(** The float32 nearest to an integer: exact up to [2^24] in magnitude,
    beyond that the nearest multiple of the spacing [2^(e-23)] of the
    floats with exponent [e], a tie going to the even significand.
    (Overflow to infinity, from [2^128] on, is not modelled.) *)
Definition f32_round (n : Z) : Z :=
  let a := Z.abs n in
  let e := Z.log2 a in
  if (e <? 24)%Z then n
  else
    let u := (2 ^ (e - 23))%Z in
    let q := (a / u)%Z in
    let r := (a mod u)%Z in
    let q := if (2 * r <? u)%Z then q
             else if (u <? 2 * r)%Z then (q + 1)%Z
             else if Z.even q then q else (q + 1)%Z in
    (Z.sgn n * (q * u))%Z.

(** [a // b] on Python integers. *)
Definition floordiv (a b : Z) : result Z :=
  if (b =? 0)%Z then Raise ZeroDivisionError else Ok (a / b)%Z.

Section Fetch.

(** Decoded images, the per-view array left in [images[key]] (after the
    optional [transforms]) with its [shape], and heatmap channels. *)
Variable Image : Type.
Variable Tensor : Type.
Variable Heat : Type.

(** [cv2.imread] ([None] for an unreadable file) and [cv2.flip(img, 1)]. *)
Variable imread : string -> option Image.
Variable flip : Image -> Image.
Variable image_hw : Image -> Z * Z.

(** The body of the per-view loop of [get_data] (colour jitter, letterbox,
    label loading and remapping, [random_affine], normalisation,
    [transforms]) for the view [key] ([true] for ['flipped']): the array
    stored in [images[key]] and the label rows stored in [labels[key]]. *)
Variable view : bool -> Image -> string -> result (Tensor * list LabelRow).
Variable shape : Tensor -> Z * Z * Z.

(** [utils.image]: a zero channel of the given height and width,
    [gaussian_radius((h, w))], and the two in-place stamps. *)
Variable zeros_heat : Z -> Z -> Heat.
Variable gaussian_radius : Z -> Z -> Q.
Variable draw_umich_gaussian : Heat -> Z * Z -> Z -> Heat.
Variable draw_msra_gaussian : Heat -> Z * Z -> Z -> Heat.

(** What [get_data] returns: [images['orig']], [labels['orig']],
    [images['flipped']], [labels['flipped']] (the last two [None] unless
    [unsup]) and the decoded image's [(h, w)]. *)
Record Data : Type := mkData {
  d_img : Tensor;
  d_labels : list LabelRow;
  d_flipped_img : option Tensor;
  d_flipped_labels : option (list LabelRow);
  d_hw : Z * Z
}.

Definition get_data (img_path label_path : string) (unsup : bool) : result Data :=
  match imread img_path with
  | None => Raise ValueError
  | Some orig =>
      let flipped := if unsup then Some (flip orig) else None in
      '(t, l) <- view false orig label_path ;;
      match flipped with
      | Some fimg =>
          '(ft, fl) <- view true fimg label_path ;;
          Ok (mkData t l (Some ft) (Some fl) (image_hw orig))
      | None => Ok (mkData t l None None (image_hw orig))
      end
  end.

(** The ground-truth arrays under construction. *)
Record GT : Type := mkGT {
  hm : list Heat;
  wh : list (Q * Q);
  reg : list (Q * Q);
  ind : list Z;
  reg_mask : list Z;
  ids : list Z
}.

(** The rescaling and clipping of one row's box to the output grid:
    [(bbox[0], bbox[1], bbox[2], bbox[3])] after the four assignments. *)
Definition grid_box (output_w output_h : Z) (r : LabelRow) : Q * Q * Q * Q :=
  let b0 := cx r * inject_Z output_w in
  let b2 := bw r * inject_Z output_w in
  let b1 := cy r * inject_Z output_h in
  let b3 := bh r * inject_Z output_h in
  (np_clip b0 0 (inject_Z (output_w - 1)),
   np_clip b1 0 (inject_Z (output_h - 1)), b2, b3).

(** [h > 0 and w > 0] for the row. *)
Definition encodable (output_w output_h : Z) (r : LabelRow) : bool :=
  let '(_, _, w, h) := grid_box output_w output_h r in
  Qpos_b h && Qpos_b w.

(** One iteration of the loop building the original view's targets. *)
Definition encode_one (o : Opt) (output_w output_h : Z)
    (labels : list LabelRow) (k : Z) (g : GT) : result GT :=
  label <- py_index labels k ;;
  let cls_id := cls label in
  let '(b0, b1, w, h) := grid_box output_w output_h label in
  if Qpos_b h && Qpos_b w then
    let radius := Z.max 0 (Qtrunc (gaussian_radius (Qceiling h) (Qceiling w))) in
    let radius := if opt_mse_loss o then opt_hm_gauss o else radius in
    let ct_int := (Qtrunc b0, Qtrunc b1) in
    let draw_gaussian :=
      if opt_mse_loss o then draw_msra_gaussian else draw_umich_gaussian in
    chan <- py_index (hm g) cls_id ;;
    hm' <- py_assign (hm g) cls_id (draw_gaussian chan ct_int radius) ;;
    wh' <- py_assign (wh g) k (w, h) ;;
    ind' <- py_assign (ind g) k (snd ct_int * output_w + fst ct_int)%Z ;;
    reg' <- py_assign (reg g) k
              (b0 - inject_Z (fst ct_int), b1 - inject_Z (snd ct_int)) ;;
    reg_mask' <- py_assign (reg_mask g) k 1%Z ;;
    ids' <- py_assign (ids g) k (ident label) ;;
    Ok (mkGT hm' wh' reg' ind' reg_mask' ids')
  else Ok g.

(** One iteration of the loop building [flipped_ind]. *)
Definition flipped_one (output_w output_h : Z)
    (flipped_labels : list LabelRow) (k : Z) (flipped_ind : list Z)
  : result (list Z) :=
  flipped_label <- py_index flipped_labels k ;;
  let '(b0, b1, w, h) := grid_box output_w output_h flipped_label in
  if Qpos_b h && Qpos_b w then
    let ct_int := (Qtrunc b0, Qtrunc b1) in
    py_assign flipped_ind k (snd ct_int * output_w + fst ct_int)%Z
  else Ok flipped_ind.

(** The dictionary [__getitem__] returns (without the debug-only [meta]). *)
Record Ret : Type := mkRet {
  r_img : Tensor;
  r_gt : GT;
  r_flipped_img : option Tensor;
  r_flipped_ind : option (list Z);
  r_num_objs : Z
}.

Definition init_gt (self : t) (output_h output_w : Z) : result GT :=
  hm0 <- (if ((output_h <? 0) || (output_w <? 0))%Z then Raise ValueError
          else np_zeros (zeros_heat output_h output_w) (num_classes self)) ;;
  wh0 <- np_zeros (0, 0) (max_objs self) ;;
  reg0 <- np_zeros (0, 0) (max_objs self) ;;
  ind0 <- np_zeros 0%Z (max_objs self) ;;
  reg_mask0 <- np_zeros 0%Z (max_objs self) ;;
  ids0 <- np_zeros 0%Z (max_objs self) ;;
  Ok (mkGT hm0 wh0 reg0 ind0 reg_mask0 ids0).

(** [__getitem__] from the mismatch test onwards, for known output grid
    and a present [flipped_labels]. *)
Definition build (self : t) (output_h output_w : Z) (img : Tensor)
    (labels : list LabelRow) (flipped_img : option Tensor)
    (flipped_labels : list LabelRow) : result Ret :=
  let num_objs := length labels in
  g0 <- init_gt self output_h output_w ;;
  g <- for_range num_objs (encode_one (opt self) output_w output_h labels) g0 ;;
  match flipped_img with
  | Some fimg =>
      f0 <- np_zeros 0%Z (max_objs self) ;;
      f <- for_range num_objs (flipped_one output_w output_h flipped_labels) f0 ;;
      Ok (mkRet img g (Some fimg) (Some f) (Z.of_nat num_objs))
  | None => Ok (mkRet img g None None (Z.of_nat num_objs))
  end.

(** The part of [__getitem__] that follows the identity remapping.  The
    first component is what the call prints: the pair of row counts when
    they differ. *)
Definition encode (self : t) (img : Tensor) (labels : list LabelRow)
    (flipped_img : option Tensor) (flipped_labels : option (list LabelRow))
  : list (Z * Z) * result Ret :=
  let '(_, s1, s2) := shape img in
  match (output_h <- floordiv s1 (opt_down_ratio (opt self)) ;;
         output_w <- floordiv s2 (opt_down_ratio (opt self)) ;;
         Ok (output_h, output_w)) with
  | Raise e => ([], Raise e)
  | Ok (output_h, output_w) =>
      match flipped_labels with
      | None => ([], Raise AttributeError)
      | Some fl =>
          let n := Z.of_nat (length labels) in
          let nf := Z.of_nat (length fl) in
          ((if (n =? nf)%Z then [] else [(n, nf)]),
           build self output_h output_w img labels flipped_img fl)
      end
  end.

(** The identity remapping loop of [__getitem__]: the label array is a
    float32 array, so the sum is stored as the nearest float32.  (Up to
    [2^24] every integer is a float32 and the sum is stored as it is.) *)
Definition offset_row (self : t) (ds : option string) (r : LabelRow)
  : result LabelRow :=
  if (ident r >? -1)%Z then
    start <- od_get_opt ds (tid_start_index self) ;;
    Ok (mkRow (cls r) (f32_round (ident r + start))
              (cx r) (cy r) (bw r) (bh r))
  else Ok r.

(** [__getitem__] up to and including the identity remapping. *)
Definition fetch (self : t) (files_index : Z) : result (Data * list LabelRow) :=
  '(ds, img_path, label_path) <- sample_paths self files_index ;;
  d <- get_data img_path label_path (unsup self) ;;
  labels <- mapM (offset_row self ds) (d_labels d) ;;
  Ok (d, labels).

(** [JointDataset.__getitem__]: what it prints and what it returns. *)
Definition getitem (self : t) (files_index : Z) : list (Z * Z) * result Ret :=
  match fetch self files_index with
  | Raise e => ([], Raise e)
  | Ok (d, labels) =>
      encode self (d_img d) labels (d_flipped_img d) (d_flipped_labels d)
  end.

End Fetch.

End Encoder.

(** ** letterbox *)

Module Letterbox.

(** Python's [round(x)] on a float: to the nearest integer, a tie going to
    the even neighbour. *)
Definition py_round (q : Q) : Z :=
  let f := Qfloor q in
  match Qcompare (q - inject_Z f) (1 # 2) with
  | Lt => f
  | Gt => (f + 1)%Z
  | Eq => if Z.even f then f else (f + 1)%Z
  end.

Definition min_float (a b : Q) : Q := if Qle_bool a b then a else b.

(** [ratio] for an image of shape [(h, w)]; float division by a zero
    extent raises. *)
Definition ratio_of (h w height width : Z) : result Q :=
  if ((h =? 0) || (w =? 0))%Z then Raise ZeroDivisionError
  else Ok (min_float (inject_Z height / inject_Z h) (inject_Z width / inject_Z w)).

(** [new_shape = (width, height)] of the resized image. *)
Definition new_shape (h w : Z) (ratio : Q) : Z * Z :=
  (py_round (inject_Z w * ratio), py_round (inject_Z h * ratio)).

Record Pads : Type := mkPads {
  top : Z;
  bottom : Z;
  left : Z;
  right : Z
}.

Definition pads_of (dw dh : Q) : Pads :=
  {| top := py_round (dh - (1 # 10));
     bottom := py_round (dh + (1 # 10));
     left := py_round (dw - (1 # 10));
     right := py_round (dw + (1 # 10)) |}.

(** Images are followed by their shape [(rows, cols)] only.
    [cv2.resize(img, (w, h))] yields [h] rows and [w] columns; it refuses,
    with [cv2.error], an empty image and a size with a component that is
    not positive.  [cv2.copyMakeBorder] adds the four borders and refuses a
    negative one. *)
Definition cv2_resize (shape : Z * Z) (dsize : Z * Z) : result (Z * Z) :=
  if ((fst shape <=? 0) || (snd shape <=? 0)
      || (fst dsize <=? 0) || (snd dsize <=? 0))%Z
  then Raise Cv2Error
  else Ok (snd dsize, fst dsize).

Definition cv2_copyMakeBorder (shape : Z * Z) (p : Pads) : result (Z * Z) :=
  if ((top p <? 0) || (bottom p <? 0) || (left p <? 0) || (right p <? 0))%Z
  then Raise Cv2Error
  else Ok (fst shape + top p + bottom p, snd shape + left p + right p)%Z.

(** [letterbox(img, height, width)]: shape of the returned image, [ratio],
    [dw], [dh]. *)
Definition letterbox (shape : Z * Z) (height width : Z)
  : result (Z * Z * Q * Q * Q) :=
  ratio <- ratio_of (fst shape) (snd shape) height width ;;
  let ns := new_shape (fst shape) (snd shape) ratio in
  let dw := (inject_Z width - inject_Z (fst ns)) / 2 in
  let dh := (inject_Z height - inject_Z (snd ns)) / 2 in
  let pads := pads_of dw dh in
  img <- cv2_resize shape ns ;;
  img <- cv2_copyMakeBorder img pads ;;
  Ok (img, ratio, dw, dh).

End Letterbox.

(** ** random_affine: the warp of the label boxes *)

Module RandomAffine.

Local Open Scope R_scope.

(** A 3x3 matrix, by row and column. *)
Definition Mat : Type := nat -> nat -> R.

Definition eye : Mat := fun i j => if Nat.eqb i j then 1 else 0.

(** [A @ B] *)
Definition matmul (A B : Mat) : Mat :=
  fun i j => A i 0%nat * B 0%nat j + A i 1%nat * B 1%nat j + A i 2%nat * B 2%nat j.

Definition radians_of (deg : R) : R := deg * PI / 180.

(** [cv2.getRotationMatrix2D(angle, center, scale)], a 2x3 matrix (OpenCV's
    documented formula, the angle in degrees). *)
Definition getRotationMatrix2D (angle cx cy scale : R) : nat -> nat -> R :=
  let alpha := scale * cos (radians_of angle) in
  let beta := scale * sin (radians_of angle) in
  fun i j =>
    match i, j with
    | O, O => alpha
    | O, S O => beta
    | O, _ => (1 - alpha) * cx - beta * cy
    | _, O => - beta
    | _, S O => alpha
    | _, _ => beta * cx + (1 - alpha) * cy
    end.

(** The six calls of [random.random()], in the order they are made. *)
Record Draws : Type := mkDraws {
  u_rot : R;
  u_scale : R;
  u_tx : R;
  u_ty : R;
  u_shx : R;
  u_shy : R
}.

(** One row of [targets]: class, identity and the box as pixel [xyxy]. *)
Record Target : Type := mkTarget {
  t_cls : Z;
  t_id : Z;
  x1 : R;
  y1 : R;
  x2 : R;
  y2 : R
}.

Section Warp.

Variables (height width : Z).
Variables (degrees translate scale shear : R * R).
Variable u : Draws.

(** The rotation angle [a] (degrees) and the scale [s]. *)
Definition angle : R := u_rot u * (snd degrees - fst degrees) + fst degrees.
Definition zoom : R := u_scale u * (snd scale - fst scale) + fst scale.

Definition Rot : Mat :=
  fun i j =>
    match i with
    | O | S O => getRotationMatrix2D angle (IZR width / 2) (IZR height / 2) zoom i j
    | _ => eye i j
    end.

Definition border : R := 0.

Definition Trans : Mat :=
  fun i j =>
    match i, j with
    | O, S (S O) => (u_tx u * 2 - 1) * fst translate * IZR height + border
    | S O, S (S O) => (u_ty u * 2 - 1) * snd translate * IZR width + border
    | _, _ => eye i j
    end.

Definition shear_x : R := u_shx u * (snd shear - fst shear) + fst shear.
Definition shear_y : R := u_shy u * (snd shear - fst shear) + fst shear.

Definition Shear : Mat :=
  fun i j =>
    match i, j with
    | O, S O => tan (shear_x * PI / 180)
    | S O, O => tan (shear_y * PI / 180)
    | _, _ => eye i j
    end.

(** [M = S @ T @ R] *)
Definition M : Mat := matmul (matmul Shear Trans) Rot.

(** A row [[x, y, 1]] of [xy] times [M.T], first two columns. *)
Definition warp_point (p : R * R) : R * R :=
  (fst p * M 0%nat 0%nat + snd p * M 0%nat 1%nat + 1 * M 0%nat 2%nat,
   fst p * M 1%nat 0%nat + snd p * M 1%nat 1%nat + 1 * M 1%nat 2%nat).

Definition min4 (a b c d : R) : R := Rmin (Rmin a b) (Rmin c d).
Definition max4 (a b c d : R) : R := Rmax (Rmax a b) (Rmax c d).

(** The envelope of the four warped corners
    [x1y1, x2y2, x1y2, x2y1]: [(xmin, ymin, xmax, ymax)]. *)
Definition envelope (t : Target) : R * R * R * R :=
  let c1 := warp_point (x1 t, y1 t) in
  let c2 := warp_point (x2 t, y2 t) in
  let c3 := warp_point (x1 t, y2 t) in
  let c4 := warp_point (x2 t, y1 t) in
  (min4 (fst c1) (fst c2) (fst c3) (fst c4),
   min4 (snd c1) (snd c2) (snd c3) (snd c4),
   max4 (fst c1) (fst c2) (fst c3) (fst c4),
   max4 (snd c1) (snd c2) (snd c3) (snd c4)).

Definition reduction : R :=
  sqrt (Rmax (Rabs (sin (radians_of angle))) (Rabs (cos (radians_of angle)))).

Definition reduce (e : R * R * R * R) : R * R * R * R :=
  let '(xmin, ymin, xmax, ymax) := e in
  let x := (xmax + xmin) / 2 in
  let y := (ymax + ymin) / 2 in
  let w := (xmax - xmin) * reduction in
  let h := (ymax - ymin) * reduction in
  (x - w / 2, y - h / 2, x + w / 2, y + h / 2).

Definition np_clip (x lo hi : R) : R := Rmin (Rmax x lo) hi.

Definition clip_box (b : R * R * R * R) : R * R * R * R :=
  let '(a1, b1, a2, b2) := b in
  (np_clip a1 0 (IZR width), np_clip b1 0 (IZR height),
   np_clip a2 0 (IZR width), np_clip b2 0 (IZR height)).

(** The row of [xy] for a target once clipped. *)
Definition warped (t : Target) : R * R * R * R :=
  clip_box (reduce (envelope t)).

Definition eps : R := / 10 ^ 16.

(** [x + 1e-16] on a float64 and on a float32.  From 1 on (float64) and
    from [2^-29] on (float32) the addend is less than half the spacing of
    the floats and the sum is [x] itself; below, the sum is taken exactly. *)
Definition add_eps64 (x : R) : R := if Rltb x 1 then x + eps else x.
Definition add_eps32 (x : R) : R := if Rltb x (/ 2 ^ 29) then x + eps else x.

Definition area0 (t : Target) : R := (x2 t - x1 t) * (y2 t - y1 t).

(** The mask [i] for one target.  [w] and [h] are float64 values; [area0]
    comes from the float32 array [targets]. *)
Definition keep (t : Target) : bool :=
  let '(a1, b1, a2, b2) := warped t in
  let w := a2 - a1 in
  let h := b2 - b1 in
  let area := w * h in
  let ar := Rmax (w / add_eps64 h) (h / add_eps64 w) in
  Rltb 4 w && Rltb 4 h && Rltb (1 / 10) (area / add_eps32 (area0 t))
  && Rltb ar 10.

Definition moved (t : Target) : Target :=
  let '(a1, b1, a2, b2) := warped t in
  mkTarget (t_cls t) (t_id t) a1 b1 a2 b2.

(** [random_affine(img, targets, degrees, translate, scale, shear)]: the
    returned [targets] and [M]. *)
Definition random_affine (targets : list Target) : list Target * Mat :=
  match targets with
  | [] => (targets, M)
  | _ => (map moved (filter keep targets), M)
  end.

End Warp.

End RandomAffine.

(** ** MotLoss *)

Module MotLoss.

Local Open Scope R_scope.

Inductive HmCrit : Set := MSELoss | FocalLoss.
Inductive RegCrit : Set := RegL1Loss | RegLoss.
Inductive WhCrit : Set :=
| L1LossSum
| NormRegL1Loss
| RegWeightedL1Loss
| SameAsReg (c : RegCrit).
Inductive SelfSup : Set := NTXentLoss | TripletBatchAll | TripletBatchHard.

(** The options the loss reads. *)
Record Opt : Type := mkOpt {
  reid_dim : Z;
  nID : Z;
  mse_loss : bool;
  reg_loss : string;
  dense_wh : bool;
  norm_wh : bool;
  cat_spec_wh : bool;
  unsup : bool;
  unsup_loss : string;
  num_stacks : Z;
  hm_weight : R;
  wh_weight : R;
  off_weight : R;
  id_weight : R;
  reg_offset : bool
}.

(** The module's attributes; [s_det] and [s_id] are trainable. *)
Record t : Type := mk {
  opt : Opt;
  loss_states : list string;
  crit : HmCrit;
  crit_reg : option RegCrit;
  crit_wh : option WhCrit;
  SelfSupLoss : option SelfSup;
  emb_scale : R;
  s_det : R;
  s_id : R
}.

Definition make_crit_reg (o : Opt) : option RegCrit :=
  if String.eqb (reg_loss o) "l1" then Some RegL1Loss
  else if String.eqb (reg_loss o) "sl1" then Some RegLoss
  else None.

Definition make_crit_wh (o : Opt) (crit_reg : option RegCrit) : option WhCrit :=
  if dense_wh o then Some L1LossSum
  else if norm_wh o then Some NormRegL1Loss
  else if cat_spec_wh o then Some RegWeightedL1Loss
  else option_map SameAsReg crit_reg.

Definition make_self_sup (o : Opt) : option SelfSup :=
  if String.eqb (unsup_loss o) "nt_xent" then Some NTXentLoss
  else if String.eqb (unsup_loss o) "triplet_all" then Some TripletBatchAll
  else if String.eqb (unsup_loss o) "triplet_hard" then Some TripletBatchHard
  else None.

(** [nn.Linear(in_features, out_features)] allocates a weight of shape
    [(out_features, in_features)]: torch refuses a negative dimension with
    [RuntimeError].  (What it does with [in_features = 0] depends on the
    version of torch; no property below is stated there.) *)
Definition nn_Linear (in_features out_features : Z) : result unit :=
  if ((in_features <? 0) || (out_features <? 0))%Z then Raise RuntimeError
  else Ok tt.

(** [MotLoss.__init__]; [math.log] refuses a non-positive argument. *)
Definition init (o : Opt) (states : list string) : result t :=
  let crit := if mse_loss o then MSELoss else FocalLoss in
  let crit_reg := make_crit_reg o in
  let crit_wh := make_crit_wh o crit_reg in
  _ <- nn_Linear (reid_dim o) (nID o) ;;
  let self_sup := make_self_sup o in
  if unsup o && match self_sup with None => true | Some _ => false end
  then Raise ValueError
  else if (nID o - 1 <=? 0)%Z then Raise ValueError
  else Ok {| opt := o;
             loss_states := states;
             crit := crit;
             crit_reg := crit_reg;
             crit_wh := crit_wh;
             SelfSupLoss := self_sup;
             emb_scale := sqrt 2 * ln (IZR (nID o - 1));
             s_det := - (185 / 100);
             s_id := - (105 / 100) |}.

(** [loss_results[k] += rhs]: the old value is read before [rhs] is
    evaluated. *)
Definition iadd (k : string) (rhs : result R) (lr : odict R) : result (odict R) :=
  old <- od_get k lr ;;
  v <- rhs ;;
  Ok (od_set k (old + v) lr).

Section Forward.

(** Tensors and the operations of [models.losses], [models.utils] and
    torch that [forward] calls, each by the scalar or tensor it yields. *)
Variable Tensor : Type.
(** [_sigmoid] *)
Variable sigmoid : Tensor -> Tensor.
(** [self.crit(pred, target)] *)
Variable apply_crit : HmCrit -> Tensor -> Tensor -> R.
(** [self.crit_wh(out * mask, dense_wh * mask) / (mask.sum() + 1e-4)] *)
Variable apply_dense_wh : WhCrit -> Tensor -> Tensor -> Tensor -> R.
(** [self.crit_reg(out, reg_mask, ind, target)] *)
Variable apply_reg : RegCrit -> Tensor -> Tensor -> Tensor -> Tensor -> R.
(** [emb_scale * F.normalize(gather(out['id'], ind)[reg_mask > 0])] *)
Variable scaled_id_head : R -> Tensor -> Tensor -> Tensor -> Tensor.
(** [F.normalize(gather(out['id'], flipped_ind)[reg_mask > 0])] *)
Variable flipped_id_head : Tensor -> Tensor -> Tensor -> Tensor.
(** [self.IDLoss(self.classifier(id_head), ids[reg_mask > 0])] *)
Variable apply_id_loss : Tensor -> Tensor -> Tensor -> R.
(** [self.SelfSupLoss(id_head, flipped_id_head, num_objs)] *)
Variable apply_self_sup : SelfSup -> Tensor -> Tensor -> Tensor -> R.

(** One refinement stage's prediction dictionary. *)
Record Stage : Type := mkStage {
  o_hm : Tensor;
  o_wh : Tensor;
  o_reg : option Tensor;
  o_id : Tensor
}.

(** The encoded batch; the [option] fields are keys that may be absent. *)
Record Batch : Type := mkBatch {
  b_hm : Tensor;
  b_reg_mask : Tensor;
  b_ind : Tensor;
  b_wh : Tensor;
  b_reg : Tensor;
  b_ids : Tensor;
  b_num_objs : Tensor;
  b_dense_wh : option Tensor;
  b_dense_wh_mask : option Tensor;
  b_flipped_ind : option Tensor
}.

(** The body of the loop over refinement stages. *)
Definition stage (m : t) (batch : Batch) (outputs : list Stage)
    (flipped_outputs : option (list Stage)) (s : Z) (lr : odict R)
  : result (odict R) :=
  let o := opt m in
  let n := IZR (num_stacks o) in
  output <- py_index outputs s ;;
  let hm := if mse_loss o then o_hm output else sigmoid (o_hm output) in
  lr <- iadd "hm" (Ok (apply_crit (crit m) hm (b_hm batch) / n)) lr ;;
  lr <- (if Rltb 0 (wh_weight o) then
           if dense_wh o then
             mask <- need_key (b_dense_wh_mask batch) ;;
             iadd "wh" (dw <- need_key (b_dense_wh batch) ;;
                        c <- callable (crit_wh m) ;;
                        Ok (apply_dense_wh c (o_wh output) dw mask / n)) lr
           else
             iadd "wh" (c <- callable (crit_reg m) ;;
                        Ok (apply_reg c (o_wh output) (b_reg_mask batch)
                                      (b_ind batch) (b_wh batch) / n)) lr
         else Ok lr) ;;
  lr <- (if reg_offset o && Rltb 0 (off_weight o) then
           iadd "off" (r <- need_key (o_reg output) ;;
                       c <- callable (crit_reg m) ;;
                       Ok (apply_reg c r (b_reg_mask batch)
                                     (b_ind batch) (b_reg batch) / n)) lr
         else Ok lr) ;;
  let id_head :=
    scaled_id_head (emb_scale m) (o_id output) (b_ind batch) (b_reg_mask batch) in
  lr <- (if Rltb 0 (id_weight o) && negb (unsup o) then
           iadd "id" (Ok (apply_id_loss id_head (b_ids batch) (b_reg_mask batch))) lr
         else Ok lr) ;;
  match unsup o, flipped_outputs with
  | true, Some fo =>
      flipped_output <- py_index fo s ;;
      find <- need_key (b_flipped_ind batch) ;;
      let fhead := flipped_id_head (o_id flipped_output) find (b_reg_mask batch) in
      c <- callable (SelfSupLoss m) ;;
      Ok (od_set (unsup_loss o)
                 (apply_self_sup c id_head fhead (b_num_objs batch)) lr)
  | _, _ => Ok lr
  end.

(** [{loss: 0 for loss in self.loss_states}] *)
Definition zero_results (states : list string) : odict R :=
  fold_left (fun d k => od_set k 0 d) states [].

(** [MotLoss.forward(output_dict, batch)] with
    [output_dict = {'orig': outputs, 'flipped': flipped_outputs}]. *)
Definition forward (m : t) (outputs : list Stage)
    (flipped_outputs : option (list Stage)) (batch : Batch)
  : result (R * odict R) :=
  let o := opt m in
  lr <- for_range (Z.to_nat (num_stacks o))
                  (stage m batch outputs flipped_outputs)
                  (zero_results (loss_states m)) ;;
  hm <- od_get "hm" lr ;;
  wh <- od_get "wh" lr ;;
  off <- od_get "off" lr ;;
  let det_loss := hm_weight o * hm + wh_weight o * wh + off_weight o * off in
  id_loss <- (if negb (unsup o)
              then v <- od_get "id" lr ;; Ok (exp (- s_id m) * v)
              else v <- od_get (unsup_loss o) lr ;; Ok (exp (- s_id m) * v)) ;;
  let total_loss :=
    exp (- s_det m) * det_loss + exp (- s_id m) * id_loss + s_det m + s_id m in
  let total_loss := total_loss * (5 / 10) in
  Ok (total_loss, od_set "loss" total_loss lr).

(** [MotTrainer._get_losses]: the loss names handed to [MotLoss]. *)
Definition get_losses (o : Opt) : list string :=
  (["loss"%string; "hm"%string; "wh"%string] ++
   (if reg_offset o then ["off"%string] else []) ++
   (if unsup o then [unsup_loss o] else ["id"%string]))%list.

End Forward.

End MotLoss.

(** ** Vocabulary of the statements *)

(** The sum of a list of integers, and the running totals before each
    element (exclusive prefix sums, starting from [s]). *)
Definition zsum (l : list Z) : Z := fold_right Z.add 0%Z l.

Fixpoint prefix_sums (s : Z) (l : list Z) : list Z :=
  match l with
  | [] => []
  | v :: tl => s :: prefix_sums (s + v) tl
  end.

(** Every identity value written in the given label files. *)
Definition observed_ids (loadtxt : string -> list JointDataset.LabelRow)
    (label_paths : list string) : list Z :=
  flat_map (fun lp => map JointDataset.ident (loadtxt lp)) label_paths.

(** The number of samples of each dataset, in registration order. *)
Definition lens_of (paths : odict (list string)) : list Z :=
  map (fun kf => Z.of_nat (length (snd kf))) paths.

(** ** A small concrete world: two datasets with 3 and 5 samples *)

Module Sample.

Import JointDataset.

Definition label_path_of (p : string) : string := (p ++ ".txt")%string.

Definition row (c i : Z) (x y w h : Q) : LabelRow := mkRow c i x y w h.

(** Label files: [a0] holds identities 0 and 3, [a1] is empty, [a2] holds
    an unknown identity; [b0] holds identity 1; the rest are empty. *)
Definition loadtxt (lp : string) : list LabelRow :=
  if String.eqb lp "a0.txt" then
    [row 0 0 (1 # 2) (1 # 2) (1 # 4) (1 # 4);
     row 0 3 (1 # 4) (1 # 4) (1 # 8) (1 # 8)]
  else if String.eqb lp "a2.txt" then [row 0 (-1) (1 # 2) (1 # 2) (1 # 4) (1 # 4)]
  else if String.eqb lp "b0.txt" then [row 0 1 (1 # 2) (1 # 2) (1 # 4) (1 # 4)]
  else [].

Definition paths : odict (list string) :=
  [("d1"%string, ["a0"; "a1"; "a2"]%string);
   ("d2"%string, ["b0"; "b1"; "b2"; "b3"; "b4"]%string)].

(** Self-supervised training, capacity 2, stride 4. *)
Definition opt_unsup : Opt := mkOpt true 2 4 false 2.
(** Supervised training, capacity 2, stride 4. *)
Definition opt_sup : Opt := mkOpt false 2 4 false 2.

Definition dataset : t := init label_path_of loadtxt opt_unsup paths.
Definition dataset_sup : t := init label_path_of loadtxt opt_sup paths.

End Sample.

(** The object arrays all have the configured capacity. *)
Definition gt_len {Heat : Type} (m : nat) (g : Encoder.GT Heat) : Prop :=
  length (Encoder.wh g) = m /\ length (Encoder.reg g) = m /\
  length (Encoder.ind g) = m /\ length (Encoder.reg_mask g) = m /\
  length (Encoder.ids g) = m.

(** Slot [k] of the object arrays holds what the encoding loop writes for
    the row [r]: its grid size, flat index, offset, mask 1 and identity. *)
Definition slot_holds {Heat : Type} (output_w output_h : Z)
    (r : JointDataset.LabelRow) (k : nat) (g : Encoder.GT Heat) : Prop :=
  let '(b0, b1, w, h) := Encoder.grid_box output_w output_h r in
  nth_error (Encoder.wh g) k = Some (w, h) /\
  nth_error (Encoder.ind g) k
  = Some (Encoder.Qtrunc b1 * output_w + Encoder.Qtrunc b0)%Z /\
  nth_error (Encoder.reg g) k
  = Some (b0 - inject_Z (Encoder.Qtrunc b0), b1 - inject_Z (Encoder.Qtrunc b1)) /\
  nth_error (Encoder.reg_mask g) k = Some 1%Z /\
  nth_error (Encoder.ids g) k = Some (JointDataset.ident r).

(** The state after [n] iterations: slot [k < n] holds row [k] when the
    row has positive width and height, and every other mask entry is 0. *)
Definition encoded_upto {Heat : Type} (ow oh : Z)
    (labels : list JointDataset.LabelRow) (m n : nat) (g : Encoder.GT Heat)
  : Prop :=
  gt_len m g /\
  (forall k r, (k < n)%nat -> nth_error labels k = Some r ->
               if Encoder.encodable ow oh r
               then (k < m)%nat /\ slot_holds ow oh r k g
               else (k < m)%nat -> nth_error (Encoder.reg_mask g) k = Some 0%Z) /\
  (forall k, (n <= k < m)%nat -> nth_error (Encoder.reg_mask g) k = Some 0%Z).

(** ** A small concrete world for [get_data] and [__getitem__] *)

Module SampleWorld.

Import JointDataset.

(** A decoded image is followed by its [(height, width)], a network input
    by its shape, a heatmap channel by the stamps drawn on it. *)
Definition Image : Type := (Z * Z)%type.
Definition Tensor : Type := (Z * Z * Z)%type.
Definition Heat : Type := list (Z * Z * Z).

(** Every listed image decodes to 608 rows by 1088 columns. *)
Definition imread (p : string) : option Image := Some (608, 1088)%Z.
Definition flip (img : Image) : Image := img.
Definition image_hw (img : Image) : Z * Z := img.
Definition shape (t : Tensor) : Z * Z * Z := t.

Definition mirror (r : LabelRow) : LabelRow :=
  mkRow (cls r) (ident r) (1 - cx r) (cy r) (bw r) (bh r).

(** Without augmentation an image of the network's input size is left as
    it is by [letterbox] (ratio 1, no padding) and its labels come back
    unchanged, mirrored for the flipped view. *)
Definition view (key : bool) (img : Image) (label_path : string)
  : result (Tensor * list LabelRow) :=
  let rows := Sample.loadtxt label_path in
  Ok ((3, fst img, snd img)%Z, if key then map mirror rows else rows).

Definition zeros_heat (h w : Z) : Heat := [].
Definition gaussian_radius (h w : Z) : Q := inject_Z (Z.min h w) / 3.
Definition draw (chan : Heat) (ct : Z * Z) (radius : Z) : Heat :=
  (chan ++ [(fst ct, snd ct, radius)])%list.

Definition input : Tensor := (3, 608, 1088)%Z.

(** Two objects, both with positive width and height. *)
Definition two_rows : list LabelRow :=
  [Sample.row 0 0 (1 # 2) (1 # 2) (1 # 4) (1 # 4);
   Sample.row 0 3 (1 # 4) (1 # 4) (1 # 8) (1 # 8)].

(** Three objects for a capacity of two. *)
Definition three_rows : list LabelRow :=
  (two_rows ++ [Sample.row 0 4 (3 # 4) (3 # 4) (1 # 8) (1 # 8)])%list.

(** The flipped view after its own [random_affine] rejected the second
    object. *)
Definition one_flipped_row : list LabelRow :=
  [Sample.row 0 0 (1 # 2) (1 # 2) (1 # 4) (1 # 4)].

Definition encode := Encoder.encode shape zeros_heat gaussian_radius draw draw.

Definition getitem :=
  Encoder.getitem imread flip image_hw view shape zeros_heat gaussian_radius
                  draw draw.

End SampleWorld.

(** ** Vocabulary for random_affine *)

Module AffineSpec.

Import RandomAffine.

Local Open Scope R_scope.

(** A box that lies within an image of the given size. *)
Definition in_bounds (height width : Z) (t : Target) : Prop :=
  0 <= x1 t /\ x1 t <= x2 t /\ x2 t <= IZR width /\
  0 <= y1 t /\ y1 t <= y2 t /\ y2 t <= IZR height.

(** The size and aspect tests on a box as it stands. *)
Definition well_shaped (t : Target) : bool :=
  let w := x2 t - x1 t in
  let h := y2 t - y1 t in
  Rltb 4 w && Rltb 4 h && Rltb (Rmax (w / h) (h / w)) 10.

(** Draws in the middle of every range and ranges that make the warp the
    identity: no rotation, unit scale, no translation, no shear. *)
Definition centre : Draws := mkDraws (1 / 2) (1 / 2) (1 / 2) (1 / 2) (1 / 2) (1 / 2).
Definition no_turn : R * R := (0, 0).
Definition no_shift : R * R := (0, 0).
Definition unit_scale : R * R := (1, 1).
Definition no_shear : R * R := (0, 0).

(** A 40 by 50 box, a 3 by 40 box and a 5 by 50 box (aspect exactly 10)
    inside a 100 by 100 image. *)
Definition big_box : Target := mkTarget 0 7 10 10 50 60.
Definition thin_box : Target := mkTarget 0 8 10 10 13 50.
Definition slim_box : Target := mkTarget 0 9 10 10 15 60.

Definition identity_affine (targets : list Target) : list Target :=
  fst (random_affine 100 100 no_turn no_shift unit_scale no_shear centre targets).

End AffineSpec.

(** ** Vocabulary and a small concrete world for MotLoss *)

Module LossSpec.

Import MotLoss.

Local Open Scope R_scope.

(** The combination as the specification words it: one factor
    [exp(-s_id)] on the identity loss. *)
Definition spec_total (s_det s_id det_loss id_loss : R) : R :=
  5 / 10 * (exp (- s_det) * det_loss + exp (- s_id) * id_loss + s_det + s_id).

(** Tensors are single numbers.  A stage's prediction for a head is the
    loss that head incurs, so every criterion returns its prediction. *)
Definition Tensor : Type := R.
Definition sigmoid (x : R) : R := x.
Definition apply_crit (c : HmCrit) (pred target : R) : R := pred.
Definition apply_dense_wh (c : WhCrit) (pred dense mask : R) : R := pred.
Definition apply_reg (c : RegCrit) (pred mask ind target : R) : R := pred.
Definition scaled_id_head (scale pred ind mask : R) : R := pred.
Definition flipped_id_head (pred ind mask : R) : R := pred.
Definition apply_id_loss (head ids mask : R) : R := head.
Definition apply_self_sup (c : SelfSup) (head fhead num_objs : R) : R := head.

Definition forward :=
  MotLoss.forward sigmoid apply_crit apply_dense_wh apply_reg scaled_id_head
                  flipped_id_head apply_id_loss apply_self_sup.

(** The default weights, six identities, offsets enabled. *)
Definition base (unsup : bool) (reg_loss : string) (num_stacks : Z) : Opt :=
  {| reid_dim := 128; nID := 7; mse_loss := false; reg_loss := reg_loss;
     dense_wh := false; norm_wh := false; cat_spec_wh := false;
     unsup := unsup; unsup_loss := "nt_xent"; num_stacks := num_stacks;
     hm_weight := 1; wh_weight := 1 / 10; off_weight := 1; id_weight := 1;
     reg_offset := true |}.

(** A stage with the given heatmap, size, offset and identity losses. *)
Definition stage_of (hm wh off id : R) : Stage Tensor :=
  mkStage hm wh (Some off) id.

Definition batch : Batch Tensor :=
  mkBatch 0 0 0 0 0 0 0 None None (Some 0).

(** A freshly constructed module for the options [o]. *)
Definition fresh (o : Opt) : result t := init o (get_losses o).

End LossSpec.

(** ** Vocabulary for the encoded targets *)

(** A flat index of a cell of the output grid, and an offset within a
    cell. *)
Definition cell_ok (ow oh : Z) (i : Z) : Prop := (0 <= i < oh * ow)%Z.

Definition offset_ok (p : Q * Q) : Prop :=
  (0 <= fst p /\ fst p < 1) /\ (0 <= snd p /\ snd p < 1).

(** ** Vocabulary and samples for the loss accumulation *)

(** [0 + a0 + a1 + ...], added from the left as a loop does. *)
Definition running_sum (l : list R) : R := fold_left Rplus l 0%R.

Module LossSamples.

Import MotLoss.

Local Open Scope R_scope.

(** The default weights with the offset head switched off
    ([reg_offset = False]). *)
Definition no_offset (unsup : bool) (num_stacks : Z) : Opt :=
  {| reid_dim := 128; nID := 7; mse_loss := false; reg_loss := "l1";
     dense_wh := false; norm_wh := false; cat_spec_wh := false;
     unsup := unsup; unsup_loss := "nt_xent"; num_stacks := num_stacks;
     hm_weight := 1; wh_weight := 1 / 10; off_weight := 1; id_weight := 1;
     reg_offset := false |}.

(** A stage that predicts no offsets. *)
Definition plain_stage (hm wh id : R) : Stage LossSpec.Tensor :=
  mkStage hm wh None id.

End LossSamples.

(** ** The loaders: LoadImages, LoadVideo, LoadImagesAndLabels, DetDataset,
       collate_fn *)

(** What a call of a loader ends with: a value, one of the exceptions of
    [Py.exn], or one of the further exceptions raised there.  (The
    [RuntimeError] of a loader and [Py.RuntimeError], raised by
    [MotLoss.__init__], both stand for Python's [RuntimeError].) *)
Inductive signal : Set :=
| Builtin (e : exn)
| StopIteration
| AssertionError
| UnboundLocalError
| RuntimeError.

Inductive outcome (A : Type) : Type :=
| Yield (a : A)
| Throw (s : signal).

Arguments Yield {A} a.
Arguments Throw {A} s.

Definition lift {A : Type} (r : result A) : outcome A :=
  match r with
  | Ok a => Yield a
  | Raise e => Throw (Builtin e)
  end.

Definition obind {A B : Type} (m : outcome A) (k : A -> outcome B) : outcome B :=
  match m with
  | Yield a => k a
  | Throw s => Throw s
  end.

Definition yields {A : Type} (m : outcome A) : bool :=
  match m with Yield _ => true | Throw _ => false end.

Notation "x <~ m ;; k" := (obind m (fun x => k))
  (at level 61, m at next level, right associativity) : py_scope.
Notation "' p <~ m ;; k" := (obind m (fun p => k))
  (at level 61, p pattern, m at next level, right associativity) : py_scope.

(** [for k in range(n)] over a state, an exception ending the loop. *)
Definition ofor_range {S : Type} (n : nat) (body : Z -> S -> outcome S) (s : S)
  : outcome S :=
  fold_left (fun acc k => st <~ acc ;; body (Z.of_nat k) st) (seq 0 n) (Yield s).

Module LoadImages.

Record t : Type := mk {
  files : list string;
  nF : Z;
  width : Z;
  height : Z;
  count : Z
}.

(** What the file system answers for [path]: a directory, with the sorted
    result of [glob('path/*.*')], a regular file, or neither. *)
Inductive PathKind : Type :=
| Directory (listing : list string)
| RegularFile
| Neither.

Definition image_format : list string :=
  [".jpg"; ".jpeg"; ".png"; ".tif"]%string.

Section Loader.

Variable Image : Type.
(** [os.path.splitext(x)[1].lower()] *)
Variable ext_lower : string -> string.
Variable imread : string -> option Image.
(** [img0.shape[:2]] *)
Variable image_hw : Image -> Z * Z.

(** [LoadImages.__init__]; when [path] is neither a directory nor a file,
    [self.files] is never set and [len(self.files)] fails. *)
Definition init (path : string) (kind : PathKind) (img_size : Z * Z)
  : outcome t :=
  files <~ (match kind with
            | Directory listing =>
                Yield (filter (fun x => existsb (String.eqb (ext_lower x))
                                                image_format) listing)
            | RegularFile => Yield [path]
            | Neither => Throw (Builtin AttributeError)
            end) ;;
  let nF := Z.of_nat (length files) in
  if (nF >? 0)%Z
  then Yield (mk files nF (fst img_size) (snd img_size) 0)
  else Throw AssertionError.

(** The part [__next__] and [__getitem__] share: read the image, letterbox
    it, reorder it to channels first.  The returned array is followed by
    its shape [(3, rows, cols)]. *)
Definition load (self : t) (img_path : string)
  : outcome (string * (Z * Z * Z) * Image) :=
  match imread img_path with
  | None => Throw AssertionError
  | Some img0 =>
      '(shape, _, _, _) <~
        lift (Letterbox.letterbox (image_hw img0) (height self) (width self)) ;;
      Yield (img_path, (3, fst shape, snd shape)%Z, img0)
  end.

Definition iter (self : t) : t :=
  mk (files self) (nF self) (width self) (height self) (-1).

(** [__next__]: the object after the call, and what the call ends with. *)
Definition next (self : t) : t * outcome (string * (Z * Z * Z) * Image) :=
  let self := mk (files self) (nF self) (width self) (height self)
                 (count self + 1) in
  if (count self =? nF self)%Z then (self, Throw StopIteration)
  else (self,
        img_path <~ lift (py_index (files self) (count self)) ;;
        load self img_path).

Definition getitem (self : t) (idx : Z)
  : outcome (string * (Z * Z * Z) * Image) :=
  idx <~ lift (if (nF self =? 0)%Z then Raise ZeroDivisionError
               else Ok (idx mod nF self)%Z) ;;
  img_path <~ lift (py_index (files self) idx) ;;
  load self img_path.

(** The object after [k] calls of [__next__]. *)
Fixpoint advance (k : nat) (self : t) : t :=
  match k with
  | O => self
  | S k' => fst (next (advance k' self))
  end.

End Loader.

End LoadImages.

Module LoadVideo.

(** What [cv2.VideoCapture] holds: the properties [cap.get] answers, as
    floats, and the frames still to be read. *)
Record Capture (Image : Type) : Type := mkCapture {
  fps : Q;
  frame_width : Q;
  frame_height : Q;
  frame_count : Q;
  stream : list Image
}.

(** [cap.read()]: the capture after the call and the frame, [None] once
    the stream is exhausted. *)
Definition read {Image : Type} (c : Capture Image)
  : Capture Image * option Image :=
  match stream c with
  | [] => (c, None)
  | f :: rest =>
      (mkCapture (fps c) (frame_width c) (frame_height c) (frame_count c) rest,
       Some f)
  end.

Record t (Image : Type) : Type := mk {
  cap : Capture Image;
  frame_rate : Z;
  vw : Z;
  vh : Z;
  vn : Z;
  width : Z;
  height : Z;
  count : Z;
  w : Z;
  h : Z
}.

(** [get_size(vw, vh, dw, dh)]: the largest size of the video's aspect
    that fits the target, by float division and [int()]. *)
Definition get_size (vw vh dw dh : Z) : result (Z * Z) :=
  if (vw =? 0)%Z then Raise ZeroDivisionError
  else if (vh =? 0)%Z then Raise ZeroDivisionError
  else
    let wa := inject_Z dw / inject_Z vw in
    let ha := inject_Z dh / inject_Z vh in
    let a := Letterbox.min_float wa ha in
    Ok (Encoder.Qtrunc (inject_Z vw * a), Encoder.Qtrunc (inject_Z vh * a)).

Section Loader.

Variable Image : Type.
(** [img.shape[:2]] and [cv2.resize(img, (w, h))], which [__next__] only
    calls on a frame that was read, with the size 1920 by 1080 that
    [__init__] fixes. *)
Variable image_hw : Image -> Z * Z.
Variable resize : Image -> Z * Z -> Image.

(** [LoadVideo.__init__] on an opened capture. *)
Definition init (c : Capture Image) (img_size : Z * Z) : t Image :=
  mk c (Letterbox.py_round (fps c))
     (Encoder.Qtrunc (frame_width c)) (Encoder.Qtrunc (frame_height c))
     (Encoder.Qtrunc (frame_count c))
     (fst img_size) (snd img_size) 0 1920 1080.

Definition len (self : t Image) : Z := vn self.

Definition iter (self : t Image) : t Image :=
  mk (cap self) (frame_rate self) (vw self) (vh self) (vn self)
     (width self) (height self) (-1) (w self) (h self).

(** [__next__]: the object after the call, and what the call ends with. *)
Definition next (self : t Image) : t Image * outcome (Z * (Z * Z * Z) * Image) :=
  let self := mk (cap self) (frame_rate self) (vw self) (vh self) (vn self)
                 (width self) (height self) (count self + 1)
                 (w self) (h self) in
  if (count self =? len self)%Z then (self, Throw StopIteration)
  else
    let '(cap', img0) := read (cap self) in
    let self := mk cap' (frame_rate self) (vw self) (vh self) (vn self)
                   (width self) (height self) (count self)
                   (w self) (h self) in
    (self,
     match img0 with
     | None => Throw AssertionError
     | Some img0 =>
         let img0 := resize img0 (w self, h self) in
         '(shape, _, _, _) <~
           lift (Letterbox.letterbox (image_hw img0) (height self)
                                     (width self)) ;;
         Yield (count self, (3, fst shape, snd shape)%Z, img0)
     end).

(** The object after [k] calls of [__next__]. *)
Fixpoint advance (k : nat) (self : t Image) : t Image :=
  match k with
  | O => self
  | S k' => fst (next (advance k' self))
  end.

End Loader.

End LoadVideo.

Module LoadImagesAndLabels.

Record t : Type := mk {
  img_files : list string;
  label_files : list string;
  nF : Z
}.

(** The line feed character, and [x.replace('\n', '')]. *)
Definition newline : Ascii.ascii := Ascii.ascii_of_nat 10.

Fixpoint drop_newlines (s : string) : string :=
  match s with
  | EmptyString => EmptyString
  | String c s' =>
      if Ascii.eqb c newline then drop_newlines s'
      else String c (drop_newlines s')
  end.

Section Loader.

Variable label_path_of : string -> string.

(** [LoadImagesAndLabels.__init__], given the lines of the manifest. *)
Definition init (lines : list string) : t :=
  let img_files := map drop_newlines lines in
  let img_files := filter (fun x => (0 <? String.length x)%nat) img_files in
  let label_files := map label_path_of img_files in
  mk img_files label_files (Z.of_nat (length img_files)).

Variables (Image Tensor : Type).
Variable imread : string -> option Image.
Variable flip : Image -> Image.
Variable image_hw : Image -> Z * Z.
Variable view :
  bool -> Image -> string -> result (Tensor * list JointDataset.LabelRow).

(** [__getitem__]: [get_data] is called without [unsup]. *)
Definition getitem (self : t) (files_index : Z) : result (Encoder.Data Tensor) :=
  img_path <- py_index (img_files self) files_index ;;
  label_path <- py_index (label_files self) files_index ;;
  Encoder.get_data imread flip image_hw view img_path label_path false.

End Loader.

End LoadImagesAndLabels.

Module DetDataset.

Import JointDataset.

Record t : Type := mk {
  img_files : odict (list string);
  label_files : odict (list string);
  tid_num : odict Z;
  tid_start_index : odict Z;
  nID : Z;
  nds : list Z;
  cds : list Z;
  nF : Z
}.

Section Init.

Variable label_path_of : string -> string.
Variable loadtxt : string -> list LabelRow.

(** [DetDataset.__init__]: the loops of [JointDataset.__init__] up to
    [nID], then the start offsets by slicing the list of sizes. *)
Definition init (paths : odict (list string)) : t :=
  let img_files := make_img_files paths in
  let label_files := make_label_files label_path_of img_files in
  let tid_num := make_tid_num loadtxt label_files in
  let '(tid_start_index, last_index) := make_tid_start tid_num in
  let nds := map (fun kv => Z.of_nat (length (snd kv))) img_files in
  let cds := map (fun i => zsum (firstn i nds)) (seq 0 (length nds)) in
  {| img_files := img_files;
     label_files := label_files;
     tid_num := tid_num;
     tid_start_index := tid_start_index;
     nID := (last_index + 1)%Z;
     nds := nds;
     cds := cds;
     nF := zsum nds |}.

End Init.

(** The keys of the dictionaries [get_data] returns are strings; the
    subscript [labels[i, 1]] looks up a pair. *)
Inductive Key : Set :=
| KStr (s : string)
| KPair (i j : Z).

Definition key_eqb (a b : Key) : bool :=
  match a, b with
  | KStr s, KStr s' => String.eqb s s'
  | KPair i j, KPair i' j' => ((i =? i') && (j =? j'))%Z
  | _, _ => false
  end.

Fixpoint dict_find {V : Type} (k : Key) (d : list (Key * V)) : option V :=
  match d with
  | [] => None
  | (k', v) :: tl => if key_eqb k k' then Some v else dict_find k tl
  end.

Section Fetch.

Variables (Image Tensor : Type).
Variable imread : string -> option Image.
Variable flip : Image -> Image.
Variable image_hw : Image -> Z * Z.
Variable view : bool -> Image -> string -> result (Tensor * list LabelRow).
(** [os.path.isfile] and [np.loadtxt(...).reshape(-1, 6)]. *)
Variable isfile : string -> bool.
Variable loadtxt6 : string -> list LabelRow.

(** The dictionary [labels] that [get_data] returns. *)
Definition Labels : Type := list (Key * option (list LabelRow)).

Definition labels_of (d : Encoder.Data Tensor) : Labels :=
  [(KStr "orig", Some (Encoder.d_labels d));
   (KStr "flipped", Encoder.d_flipped_labels d)].

(** What the body of the offset loop does with the entry [labels[i, 1]]
    once it has read one: the comparison with [-1] and the update. *)
Variable offset_entry :
  option (list LabelRow) -> Z -> Z -> Labels -> result Labels.

(** One iteration of [for i, _ in enumerate(labels)]. *)
Definition offset_step (self : t) (ds : string) (i : Z) (labels : Labels)
  : result Labels :=
  entry <- need_key (dict_find (KPair i 1) labels) ;;
  start <- od_get ds (tid_start_index self) ;;
  offset_entry entry i start labels.

(** [DetDataset.__getitem__]; [ds], [start_index] and [labels0] are bound
    only on some paths. *)
Definition getitem (self : t) (files_index : Z)
  : outcome (Tensor * list LabelRow * string * (Z * Z)) :=
  '(ds, start_index) <~
    lift (fold_left (resolve_step files_index (od_keys (label_files self)))
                    (combine (seq 0 (length (cds self))) (cds self))
                    (Ok (None, 0%Z))) ;;
  match ds with
  | None => Throw UnboundLocalError
  | Some ds =>
      imgs <~ lift (od_get ds (img_files self)) ;;
      img_path <~ lift (py_index imgs (files_index - start_index)) ;;
      lbls <~ lift (od_get ds (label_files self)) ;;
      label_path <~ lift (py_index lbls (files_index - start_index)) ;;
      let labels0 :=
        if isfile label_path then Some (loadtxt6 label_path) else None in
      d <~ lift (Encoder.get_data imread flip image_hw view
                                  img_path label_path false) ;;
      let labels := labels_of d in
      _ <~ lift (for_range (length labels) (offset_step self ds) labels) ;;
      match labels0 with
      | None => Throw UnboundLocalError
      | Some l0 => Yield (Encoder.d_img d, l0, img_path, Encoder.d_hw d)
      end
  end.

End Fetch.

End DetDataset.

Module Collate.

Import JointDataset.

Definition zero_row : LabelRow := mkRow 0 0 0 0 0 0.

(** What [collate_fn] returns: the stacked images, the padded labels, the
    paths, the sizes and the column of label counts. *)
Record Collated (Batched : Type) : Type := mkCollated {
  c_imgs : Batched;
  c_labels : list (list LabelRow);
  c_paths : list string;
  c_sizes : list (Z * Z);
  c_labels_len : list (list Z)
}.

Section CollateFn.

Variables (Img Batched : Type).
(** [torch.stack(imgs, 0)], which refuses images of different shapes. *)
Variable stack : list Img -> option Batched.

Definition Item : Type := (Img * list LabelRow * string * (Z * Z))%type.

(** [filled_labels[i, :isize, :] = labels[i]]: the slice has
    [min(isize, max_box_len)] rows and must have as many as the value. *)
Definition assign_rows (row : list LabelRow) (l : list LabelRow)
  : outcome (list LabelRow) :=
  if (length l <=? length row)%nat
  then Yield (l ++ skipn (length l) row)%list
  else Throw RuntimeError.

(** One iteration of the filling loop. *)
Definition fill_step (labels : list (list LabelRow)) (i : Z)
    (st : list (list LabelRow) * list Z)
  : outcome (list (list LabelRow) * list Z) :=
  let '(filled_labels, labels_len) := st in
  l <~ lift (py_index labels i) ;;
  let isize := length l in
  filled_labels <~
    (if (0 <? length l)%nat then
       row <~ lift (py_index filled_labels i) ;;
       row <~ assign_rows row l ;;
       lift (py_assign filled_labels i row)
     else Yield filled_labels) ;;
  labels_len <~ lift (py_assign labels_len i (Z.of_nat isize)) ;;
  Yield (filled_labels, labels_len).

Definition collate_fn (batch : list Item) : outcome (Collated Batched) :=
  match batch with
  | [] => Throw (Builtin ValueError)
  | _ =>
      let imgs := map (fun it : Item => fst (fst (fst it))) batch in
      let labels := map (fun it : Item => snd (fst (fst it))) batch in
      let paths := map (fun it : Item => snd (fst it)) batch in
      let sizes := map (fun it : Item => snd it) batch in
      let batch_size := length labels in
      imgs <~ (match stack imgs with
               | Some b => Yield b
               | None => Throw RuntimeError
               end) ;;
      let max_box_len := list_max (map (fun l => length l) labels) in
      let filled_labels := repeat (repeat zero_row max_box_len) batch_size in
      let labels_len := repeat 0%Z batch_size in
      '(filled_labels, labels_len) <~
        ofor_range batch_size (fill_step labels) (filled_labels, labels_len) ;;
      Yield (mkCollated imgs filled_labels paths sizes
                        (map (fun n => [n]) labels_len))
  end.

End CollateFn.

End Collate.

(** ** A small concrete world for the loaders *)

Module LoaderSamples.

(** A decoded image is followed by its [(height, width)]; every file
    decodes to a 1080 by 1920 frame; the extension is the last four
    characters of the name. *)
Definition Image : Type := (Z * Z)%type.
Definition ext_lower (x : string) : string :=
  substring (String.length x - 4) 4 x.
Definition imread (p : string) : option Image := Some (1080, 1920)%Z.
Definition image_hw (img : Image) : Z * Z := img.

(** [cv2.resize] on images that are their shape. *)
Definition resize (img : Image) (dsize : Z * Z) : Image :=
  (snd dsize, fst dsize).

(** A capture that announces three frames of 720 by 1280 and holds two. *)
Definition short_video : LoadVideo.Capture Image :=
  LoadVideo.mkCapture 30 1280 720 3 [(720, 1280)%Z; (720, 1280)%Z].

(** A directory with two images and a text file. *)
Definition listing : list string := ["a.jpg"; "b.txt"; "c.png"]%string.

Definition frames : LoadImages.t :=
  LoadImages.mk ["a.jpg"; "c.png"]%string 2 1088 608 0.

End LoaderSamples.

(** * Properties *)

(** ** Loops, indexing and dictionaries *)

Lemma bind_ok_inv {A B : Type} (m : result A) (k : A -> result B) (b : B) :
  bind m k = Ok b -> exists a, m = Ok a /\ k a = Ok b.
Proof.
  destruct m as [a|e]; simpl; intros H; [eauto | discriminate].
Qed.

Lemma for_range_S {S : Type} (n : nat) (body : Z -> S -> result S) (s : S) :
  for_range (Datatypes.S n) body s
  = (st <- for_range n body s ;; body (Z.of_nat n) st).
Proof.
  unfold for_range. rewrite seq_S, fold_left_app. reflexivity.
Qed.

(** Once a loop has raised, more iterations change nothing. *)
Lemma for_range_raise_mono {S : Type} (body : Z -> S -> result S) (s : S)
    (e : exn) (k n : nat) :
  (k <= n)%nat -> for_range k body s = Raise e -> for_range n body s = Raise e.
Proof.
  induction 1 as [|n Hle IH]; intros Hk; [exact Hk|].
  rewrite for_range_S, (IH Hk). reflexivity.
Qed.

(** A loop whose body can only raise [e] can only raise [e]. *)
Lemma for_range_only {S : Type} (body : Z -> S -> result S) (e : exn) :
  (forall j st e', body j st = Raise e' -> e' = e) ->
  forall n s e', for_range n body s = Raise e' -> e' = e.
Proof.
  intros Hbody. induction n as [|n IH]; intros s e' H.
  - discriminate.
  - rewrite for_range_S in H.
    destruct (for_range n body s) as [st|e0] eqn:E; simpl in H.
    + eauto.
    + inversion H; subst. eauto.
Qed.

(** An invariant of the body is an invariant of the loop. *)
Lemma for_range_inv {S : Type} (body : Z -> S -> result S) (I : S -> Prop) :
  (forall j st st', I st -> body j st = Ok st' -> I st') ->
  forall n s s', I s -> for_range n body s = Ok s' -> I s'.
Proof.
  intros Hbody. induction n as [|n IH]; intros s s' Hs H.
  - inversion H; subst; exact Hs.
  - rewrite for_range_S in H. apply bind_ok_inv in H.
    destruct H as (st & H1 & H2). eauto.
Qed.

(** If iteration [k] raises [e] from every state satisfying an invariant,
    and nothing else can be raised, the loop raises [e]. *)
Lemma for_range_raises {S : Type} (body : Z -> S -> result S) (I : S -> Prop)
    (e : exn) (k n : nat) (s : S) :
  (forall j st e', body j st = Raise e' -> e' = e) ->
  (forall j st st', I st -> body j st = Ok st' -> I st') ->
  (forall st, I st -> body (Z.of_nat k) st = Raise e) ->
  I s -> (k < n)%nat -> for_range n body s = Raise e.
Proof.
  intros Honly Hinv Hk Hs Hlt.
  apply for_range_raise_mono with (k := Datatypes.S k); [lia|].
  rewrite for_range_S.
  destruct (for_range k body s) as [st|e0] eqn:E; simpl.
  - apply Hk. eapply for_range_inv; eauto.
  - f_equal. eapply for_range_only; eauto.
Qed.

Lemma py_pos_in (n : nat) (i : nat) :
  (i < n)%nat -> py_pos n (Z.of_nat i) = Ok i.
Proof.
  intros H. unfold py_pos. cbv zeta.
  assert (E1 : (Z.of_nat i <? 0)%Z = false) by (apply Z.ltb_ge; lia).
  assert (E2 : (Z.of_nat n <=? Z.of_nat i)%Z = false) by (apply Z.leb_gt; lia).
  rewrite E1. cbv iota. rewrite E1, E2. cbn [orb]. f_equal. apply Nat2Z.id.
Qed.

Lemma py_pos_out (n : nat) (i : Z) :
  (Z.of_nat n <= i)%Z -> py_pos n i = Raise IndexError.
Proof.
  intros H. unfold py_pos. cbv zeta.
  assert (E1 : (i <? 0)%Z = false) by (apply Z.ltb_ge; lia).
  assert (E2 : (Z.of_nat n <=? i)%Z = true) by (apply Z.leb_le; lia).
  rewrite E1. cbv iota. rewrite E1, E2. reflexivity.
Qed.

Lemma py_pos_only (n : nat) (i : Z) (e : exn) :
  py_pos n i = Raise e -> e = IndexError.
Proof.
  unfold py_pos.
  destruct (_ || _)%bool; intros H; inversion H; reflexivity.
Qed.

Lemma py_index_in {A : Type} (xs : list A) (i : nat) (x : A) :
  nth_error xs i = Some x -> py_index xs (Z.of_nat i) = Ok x.
Proof.
  intros H. unfold py_index.
  rewrite py_pos_in by (apply nth_error_Some; congruence).
  now rewrite H.
Qed.

Lemma py_index_out {A : Type} (xs : list A) (i : Z) :
  (Z.of_nat (length xs) <= i)%Z -> py_index xs i = Raise IndexError.
Proof.
  intros H. unfold py_index. now rewrite py_pos_out.
Qed.

Lemma py_index_only {A : Type} (xs : list A) (i : Z) (e : exn) :
  py_index xs i = Raise e -> e = IndexError.
Proof.
  unfold py_index. destruct (py_pos (length xs) i) as [j|e0] eqn:E.
  - destruct (nth_error xs j); intros H; inversion H; reflexivity.
  - intros H; inversion H; subst. eapply py_pos_only; eauto.
Qed.

Lemma py_assign_out {A : Type} (xs : list A) (i : Z) (v : A) :
  (Z.of_nat (length xs) <= i)%Z -> py_assign xs i v = Raise IndexError.
Proof.
  intros H. unfold py_assign. now rewrite py_pos_out.
Qed.

Lemma py_assign_only {A : Type} (xs : list A) (i : Z) (v : A) (e : exn) :
  py_assign xs i v = Raise e -> e = IndexError.
Proof.
  unfold py_assign. destruct (py_pos (length xs) i) as [j|e0] eqn:E.
  - discriminate.
  - intros H; inversion H; subst. eapply py_pos_only; eauto.
Qed.

Lemma py_assign_in {A : Type} (xs : list A) (i : nat) (v : A) :
  (i < length xs)%nat -> py_assign xs (Z.of_nat i) v = Ok (list_set xs i v).
Proof.
  intros H. unfold py_assign. now rewrite py_pos_in.
Qed.

Lemma list_set_length {A : Type} (xs : list A) (n : nat) (v : A) :
  length (list_set xs n v) = length xs.
Proof.
  revert n; induction xs as [|x xs IH]; intros [|n]; simpl; auto.
Qed.

Lemma py_assign_length {A : Type} (xs ys : list A) (i : Z) (v : A) :
  py_assign xs i v = Ok ys -> length ys = length xs.
Proof.
  unfold py_assign. destruct (py_pos (length xs) i); intros H; inversion H.
  apply list_set_length.
Qed.

Lemma nth_error_list_set_eq {A : Type} (xs : list A) (n : nat) (v : A) :
  (n < length xs)%nat -> nth_error (list_set xs n v) n = Some v.
Proof.
  revert n; induction xs as [|x xs IH]; intros [|n]; simpl; intros H;
    try lia; auto. apply IH. lia.
Qed.

Lemma nth_error_list_set_neq {A : Type} (xs : list A) (n k : nat) (v : A) :
  n <> k -> nth_error (list_set xs n v) k = nth_error xs k.
Proof.
  revert n k; induction xs as [|x xs IH]; intros [|n] [|k]; simpl; intros H;
    auto; try congruence.
Qed.

(** Filling an empty dictionary from entries with distinct keys keeps
    them in order. *)
Lemma od_set_fresh {V : Type} (k : string) (v : V) (d : odict V) :
  ~ In k (od_keys d) -> od_set k v d = (d ++ [(k, v)])%list.
Proof.
  induction d as [|[k' v'] d IH]; simpl; intros H; [reflexivity|].
  destruct (String.eqb_spec k k') as [->|Hne]; [tauto|].
  rewrite IH; tauto.
Qed.

Lemma od_fill {A V : Type} (f : A -> V) (l : odict A) :
  forall acc : odict V,
    NoDup (od_keys acc ++ od_keys l) ->
    fold_left (fun d '(k, a) => od_set k (f a) d) l acc
    = (acc ++ map (fun '(k, a) => (k, f a)) l)%list.
Proof.
  induction l as [|[k a] l IH]; intros acc Hnd; simpl.
  - now rewrite app_nil_r.
  - simpl in Hnd.
    assert (Hk : ~ In k (od_keys acc)).
    { apply NoDup_remove_2 in Hnd. rewrite in_app_iff in Hnd. tauto. }
    rewrite od_set_fresh by exact Hk.
    rewrite IH.
    + now rewrite <- app_assoc.
    + unfold od_keys in *. rewrite map_app, <- app_assoc. exact Hnd.
Qed.

Lemma od_keys_map {A V : Type} (f : A -> V) (l : odict A) :
  od_keys (map (fun '(k, a) => (k, f a)) l) = od_keys l.
Proof.
  unfold od_keys. rewrite map_map. apply map_ext. now intros [k a].
Qed.

Lemma od_find_nth {V : Type} (d : odict V) (i : nat) (k : string) (v : V) :
  od_wf d -> nth_error d i = Some (k, v) -> od_find k d = Some v.
Proof.
  unfold od_wf. revert i. induction d as [|[k' v'] d IH]; intros i Hnd H.
  - destruct i; discriminate.
  - simpl in Hnd. inversion Hnd as [|? ? Hnotin Hnd']; subst.
    destruct i as [|i]; simpl in *.
    + inversion H; subst. now rewrite String.eqb_refl.
    + destruct (String.eqb_spec k k') as [->|Hne]; [|eauto].
      exfalso. apply Hnotin. apply nth_error_In in H.
      change k' with (fst (k', v)). now apply in_map.
Qed.

(** ** JointDataset.__init__ *)

Section InitFacts.

Import JointDataset.

Variable label_path_of : string -> string.
Variable loadtxt : string -> list LabelRow.

Lemma nth_error_prefix_sums (l : list Z) :
  forall (s : Z) (i : nat) (v : Z),
    nth_error l i = Some v ->
    nth_error (prefix_sums s l) i = Some (s + zsum (firstn i l))%Z.
Proof.
  induction l as [|a l IH]; intros s [|i] v H; simpl in *; try discriminate.
  - f_equal. lia.
  - rewrite (IH _ _ _ H). f_equal. lia.
Qed.

Lemma prefix_sums_length (l : list Z) (s : Z) :
  length (prefix_sums s l) = length l.
Proof.
  revert s; induction l as [|a l IH]; intros s; simpl; auto.
Qed.

Lemma fold_max_spec (l : list Z) :
  forall a, (a <= fold_left Z.max l a)%Z /\
            (forall x, In x l -> (x <= fold_left Z.max l a)%Z) /\
            In (fold_left Z.max l a) (a :: l).
Proof.
  induction l as [|b l IH]; intros a; simpl.
  - repeat split; auto; try lia; try (now intros x []).
  - destruct (IH (Z.max a b)) as (H1 & H2 & H3). repeat split.
    + lia.
    + intros x [<-|Hx]; [lia | auto].
    + destruct H3 as [H3|H3]; [|auto].
      destruct (Z.max_spec a b) as [[_ E]|[_ E]]; rewrite E in *; auto.
Qed.

Lemma img_max_spec (lb : list LabelRow) :
  match img_max lb with
  | None => lb = []
  | Some m => In m (map ident lb) /\ forall x, In x (map ident lb) -> (x <= m)%Z
  end.
Proof.
  destruct lb as [|r [|r' rs]]; simpl; auto.
  - split; [auto|]. intros x [<-|[]]; lia.
  - pose proof (fold_max_spec (map ident rs) (Z.max (ident r) (ident r')))
      as (H1 & H2 & H3).
    split.
    + destruct H3 as [H3|H3]; [|auto].
      destruct (Z.max_spec (ident r) (ident r')) as [[_ E]|[_ E]];
        rewrite E in *; auto.
    + intros x [<-|[<-|Hx]]; [lia | lia | auto].
Qed.

(** The running maximum after scanning some label files. *)
Lemma scan_spec (lps : list string) :
  forall a, (a <= fold_left (scan_file loadtxt) lps a)%Z /\
            (forall x, In x (observed_ids loadtxt lps) ->
                       (x <= fold_left (scan_file loadtxt) lps a)%Z) /\
            (fold_left (scan_file loadtxt) lps a = a \/
             In (fold_left (scan_file loadtxt) lps a) (observed_ids loadtxt lps)).
Proof.
  induction lps as [|lp lps IH]; intros a; simpl.
  - repeat split; auto; try lia; try (now intros x []).
  - destruct (IH (scan_file loadtxt a lp)) as (H1 & H2 & H3).
    assert (Hs : (a <= scan_file loadtxt a lp)%Z /\
                 (forall x, In x (map ident (loadtxt lp)) ->
                            (x <= scan_file loadtxt a lp)%Z) /\
                 (scan_file loadtxt a lp = a \/
                  In (scan_file loadtxt a lp) (map ident (loadtxt lp)))).
    { unfold scan_file. pose proof (img_max_spec (loadtxt lp)) as Hm.
      destruct (img_max (loadtxt lp)) as [m|].
      - destruct Hm as [Hin Hle].
        destruct (Z.gtb_spec m a); repeat split; auto; try lia.
        intros x Hx. specialize (Hle x Hx). lia.
      - rewrite Hm. repeat split; auto; try lia; try (now intros x []). }
    destruct Hs as (S1 & S2 & S3). repeat split.
    + lia.
    + intros x Hx. apply in_app_or in Hx. destruct Hx as [Hx|Hx]; auto.
      specialize (S2 x Hx). lia.
    + destruct H3 as [H3|H3].
      * rewrite H3. destruct S3 as [S3|S3]; [auto|].
        right. apply in_or_app. auto.
      * right. apply in_or_app. auto.
Qed.

(** [tid_num[ds]] is one more than the largest identity observed, and 0
    when none is. *)
Lemma count_ids_spec (lps : list string) :
  let obs := observed_ids loadtxt lps in
  let n := count_ids loadtxt lps in
  (0 <= n)%Z /\
  (forall x, In x obs -> (x + 1 <= n)%Z) /\
  (obs = [] -> n = 0%Z) /\
  ((forall x, In x obs -> (-1 <= x)%Z) -> obs <> [] ->
   exists x, In x obs /\ (forall y, In y obs -> (y <= x)%Z) /\ n = (x + 1)%Z).
Proof.
  intros obs n. subst obs n. unfold count_ids.
  destruct (scan_spec lps (-1)) as (H1 & H2 & H3).
  set (m := fold_left (scan_file loadtxt) lps (-1)%Z) in *.
  repeat split.
  - lia.
  - intros x Hx. specialize (H2 x Hx). lia.
  - intros E. rewrite E in H3. destruct H3 as [H3|[]]. lia.
  - intros Hdom Hne. destruct H3 as [H3|H3].
    + destruct (observed_ids loadtxt lps) as [|x0 rest] eqn:E; [congruence|].
      exists x0. split; [left; reflexivity|]. split.
      * intros y Hy. specialize (H2 y Hy).
        specialize (Hdom x0 (or_introl eq_refl)). lia.
      * specialize (H2 x0 (or_introl eq_refl)).
        specialize (Hdom x0 (or_introl eq_refl)). lia.
    + exists m. repeat split; auto.
Qed.

Lemma map_pair_id {V : Type} (l : odict V) :
  map (fun '(k, a) => (k, a)) l = l.
Proof.
  induction l as [|[k a] l IH]; simpl; congruence.
Qed.

Lemma make_img_files_wf (paths : odict (list string)) :
  od_wf paths -> make_img_files paths = paths.
Proof.
  intros H. unfold make_img_files.
  rewrite (od_fill (fun a => a)); [apply map_pair_id | exact H].
Qed.

Lemma make_label_files_wf (files : odict (list string)) :
  od_wf files ->
  make_label_files label_path_of files
  = map (fun '(k, a) => (k, map label_path_of a)) files.
Proof.
  intros H. unfold make_label_files. now rewrite od_fill.
Qed.

Lemma make_tid_num_wf (lf : odict (list string)) :
  od_wf lf ->
  make_tid_num loadtxt lf = map (fun '(k, a) => (k, count_ids loadtxt a)) lf.
Proof.
  intros H. unfold make_tid_num. now rewrite od_fill.
Qed.

Lemma make_tid_start_gen (l : odict Z) :
  forall (acc : odict Z) (s : Z),
    NoDup (od_keys acc ++ od_keys l) ->
    fold_left (fun '(d, last_index) '(k, v) =>
                 (od_set k last_index d, (last_index + v)%Z)) l (acc, s)
    = ((acc ++ combine (od_keys l) (prefix_sums s (map snd l)))%list,
       (s + zsum (map snd l))%Z).
Proof.
  induction l as [|[k v] l IH]; intros acc s Hnd; simpl.
  - now rewrite app_nil_r, Z.add_0_r.
  - simpl in Hnd.
    assert (Hk : ~ In k (od_keys acc)).
    { apply NoDup_remove_2 in Hnd. rewrite in_app_iff in Hnd. tauto. }
    rewrite od_set_fresh by exact Hk. rewrite IH.
    + rewrite <- app_assoc. simpl. f_equal. lia.
    + unfold od_keys in *. rewrite map_app, <- app_assoc. exact Hnd.
Qed.

Lemma make_tid_start_wf (tn : odict Z) :
  od_wf tn ->
  make_tid_start tn
  = (combine (od_keys tn) (prefix_sums 0 (map snd tn)), zsum (map snd tn)).
Proof.
  intros H. unfold make_tid_start. now rewrite make_tid_start_gen.
Qed.

Lemma make_cds_gen (l : odict (list string)) :
  forall (acc : odict Z) (s : Z) (cs : list Z),
    NoDup (od_keys acc ++ od_keys l) ->
    let lens := map (fun kf => Z.of_nat (length (snd kf))) l in
    fold_left (fun '(img_num, nF, cds) '(ds, files) =>
                 let img_cnt := Z.of_nat (length files) in
                 let nF' := (nF + img_cnt)%Z in
                 (od_set ds img_cnt img_num, nF', cds ++ [(nF' - img_cnt)%Z])%list)
              l (acc, s, cs)
    = ((acc ++ combine (od_keys l) lens)%list,
       (s + zsum lens)%Z,
       (cs ++ prefix_sums s lens)%list).
Proof.
  induction l as [|[k f] l IH]; intros acc s cs Hnd; simpl.
  - now rewrite !app_nil_r, Z.add_0_r.
  - simpl in Hnd.
    assert (Hk : ~ In k (od_keys acc)).
    { apply NoDup_remove_2 in Hnd. rewrite in_app_iff in Hnd. tauto. }
    rewrite od_set_fresh by exact Hk. rewrite IH.
    + rewrite <- !app_assoc. simpl.
      replace (s + Z.of_nat (length f) - Z.of_nat (length f))%Z with s by lia.
      f_equal. f_equal. lia.
    + unfold od_keys in *. rewrite map_app, <- app_assoc. exact Hnd.
Qed.

(** What [__init__] computes, for a well-formed [paths]. *)
Lemma init_wf (o : Opt) (paths : odict (list string)) :
  od_wf paths ->
  let self := init label_path_of loadtxt o paths in
  let counts := map (fun '(k, a) =>
                       (k, count_ids loadtxt (map label_path_of a))) paths in
  img_files self = paths /\
  label_files self = map (fun '(k, a) => (k, map label_path_of a)) paths /\
  tid_num self = counts /\
  tid_start_index self
  = combine (od_keys paths) (prefix_sums 0 (map snd counts)) /\
  nID self = (zsum (map snd counts) + 1)%Z /\
  cds self = prefix_sums 0 (lens_of paths) /\
  nF self = zsum (lens_of paths) /\
  max_objs self = opt_K o /\ unsup self = opt_unsup o /\
  num_classes self = 1%Z /\ opt self = o.
Proof.
  intros Hwf self counts. subst self. unfold init.
  rewrite (make_img_files_wf Hwf).
  rewrite (make_label_files_wf Hwf).
  assert (Hwf2 : od_wf (map (fun '(k, a) => (k, map label_path_of a)) paths)).
  { unfold od_wf. now rewrite od_keys_map. }
  rewrite (make_tid_num_wf Hwf2).
  assert (Ecounts : map (fun '(k, a) => (k, count_ids loadtxt a))
                        (map (fun '(k, a) => (k, map label_path_of a)) paths)
                    = counts).
  { subst counts. rewrite map_map. apply map_ext. now intros [k a]. }
  rewrite Ecounts.
  assert (Hwf3 : od_wf counts).
  { unfold od_wf. subst counts. now rewrite od_keys_map. }
  rewrite (make_tid_start_wf Hwf3).
  unfold make_cds.
  rewrite make_cds_gen by exact Hwf.
  cbn. fold (lens_of paths).
  assert (Ek : od_keys counts = od_keys paths).
  { subst counts. apply od_keys_map. }
  rewrite Ek. repeat split; reflexivity.
Qed.

End InitFacts.

Section IndexFacts.

Import JointDataset.

Variable label_path_of : string -> string.
Variable loadtxt : string -> list LabelRow.

Lemma nth_error_combine {A B : Type} (l1 : list A) (l2 : list B) :
  forall i a b, nth_error l1 i = Some a -> nth_error l2 i = Some b ->
                nth_error (combine l1 l2) i = Some (a, b).
Proof.
  revert l2; induction l1 as [|x l1 IH]; intros [|y l2] [|i] a b H1 H2;
    simpl in *; try discriminate.
  - congruence.
  - eauto.
Qed.

Lemma od_keys_combine {V : Type} (ks : list string) (vs : list V) :
  length ks = length vs -> od_keys (combine ks vs) = ks.
Proof.
  revert vs; induction ks as [|k ks IH]; intros [|v vs] H; simpl in *;
    try discriminate; auto.
  f_equal. apply IH. congruence.
Qed.

Lemma combine_snoc {A B : Type} (l1 : list A) (l2 : list B) (a : A) (b : B) :
  length l1 = length l2 ->
  combine (l1 ++ [a]) (l2 ++ [b]) = (combine l1 l2 ++ [(a, b)])%list.
Proof.
  revert l2; induction l1 as [|x l1 IH]; intros [|y l2] H; simpl in *;
    try discriminate; auto.
  f_equal. apply IH. congruence.
Qed.

Lemma zsum_firstn_S (l : list Z) :
  forall i v, nth_error l i = Some v ->
              zsum (firstn (S i) l) = (zsum (firstn i l) + v)%Z.
Proof.
  induction l as [|a l IH]; intros [|i] v H; simpl in *; try discriminate.
  - inversion H; subst. lia.
  - rewrite (IH _ _ H). lia.
Qed.

(** The scan over [cds] ends on the last start index not above the flat
    index, or leaves [ds = None] when there is none. *)
Lemma resolve_fold (idx : Z) (keys : list string) (cs : list Z) :
  (length cs <= length keys)%nat ->
  (fold_left (resolve_step idx keys) (combine (seq 0 (length cs)) cs)
             (Ok (None, 0%Z)) = Ok (None, 0%Z) /\
   forall c, In c cs -> (idx < c)%Z) \/
  (exists i c k,
      nth_error cs i = Some c /\ nth_error keys i = Some k /\ (c <= idx)%Z /\
      (forall j c', (i < j)%nat -> nth_error cs j = Some c' -> (idx < c')%Z) /\
      fold_left (resolve_step idx keys) (combine (seq 0 (length cs)) cs)
                (Ok (None, 0%Z)) = Ok (Some k, c)).
Proof.
  induction cs as [|c' cs IH] using rev_ind; intros Hlen.
  - left. split; [reflexivity | intros c []].
  - rewrite length_app in *. simpl in Hlen.
    replace (length cs + length [c'])%nat with (S (length cs)) by (simpl; lia).
    rewrite seq_S, combine_snoc by (now rewrite length_seq).
    rewrite fold_left_app. simpl.
    assert (Hk : exists k, nth_error keys (length cs) = Some k).
    { destruct (nth_error keys (length cs)) eqn:E; [eauto|].
      apply nth_error_None in E. lia. }
    destruct Hk as [k Hk].
    assert (Hlen' : (length cs <= length keys)%nat) by lia.
    specialize (IH Hlen').
    destruct IH as [[E Hall]|(i & c & k0 & Hc & Hk0 & Hle & Hlast & E)];
      rewrite E; simpl.
    + destruct (Z.geb_spec idx c').
      * right. exists (length cs), c', k. rewrite (py_index_in _ _ Hk). simpl.
        repeat split; auto.
        -- rewrite nth_error_app2, Nat.sub_diag by lia. reflexivity.
        -- intros j c'' Hj Hn.
           assert (j < length (cs ++ [c']))%nat
             by (apply nth_error_Some; congruence).
           rewrite length_app in *; simpl in *; lia.
      * left. split; [reflexivity|].
        intros c Hin. apply in_app_or in Hin.
        destruct Hin as [Hin|[<-|[]]]; auto. 
    + assert (Hi : (i < length cs)%nat) by (apply nth_error_Some; congruence).
      destruct (Z.geb_spec idx c').
      * right. exists (length cs), c', k. rewrite (py_index_in _ _ Hk). simpl.
        repeat split; auto.
        -- rewrite nth_error_app2, Nat.sub_diag by lia. reflexivity.
        -- intros j c'' Hj Hn.
           assert (j < length (cs ++ [c']))%nat
             by (apply nth_error_Some; congruence).
           rewrite length_app in *; simpl in *; lia.
      * right. exists i, c, k0. repeat split; auto.
        -- rewrite nth_error_app1 by lia. exact Hc.
        -- intros j c'' Hj Hn.
           destruct (Nat.lt_ge_cases j (length cs)) as [Hjl|Hjl].
           ++ rewrite nth_error_app1 in Hn by lia. eauto.
           ++ rewrite nth_error_app2 in Hn by lia.
              destruct (j - length cs)%nat as [|d] eqn:Ed; simpl in Hn.
              ** inversion Hn; subst. lia.
              ** destruct d; discriminate.
Qed.

Lemma lens_of_length (paths : odict (list string)) :
  length (lens_of paths) = length paths.
Proof. unfold lens_of. apply length_map. Qed.

Lemma zsum_nonneg_lens (paths : odict (list string)) :
  (0 <= zsum (lens_of paths))%Z.
Proof.
  induction paths as [|[k f] l IH]; simpl; lia.
Qed.

(** The flat index falls in the dataset whose block of indices holds it. *)
Lemma resolve_spec (o : Opt) (paths : odict (list string)) (idx : Z) :
  od_wf paths ->
  let self := init label_path_of loadtxt o paths in
  (0 <= idx < nF self)%Z ->
  exists i ds files,
    nth_error paths i = Some (ds, files) /\
    nth_error (cds self) i = Some (zsum (firstn i (lens_of paths))) /\
    (zsum (firstn i (lens_of paths)) <= idx
     < zsum (firstn i (lens_of paths)) + Z.of_nat (length files))%Z /\
    (forall j c, (i < j)%nat -> nth_error (cds self) j = Some c -> (idx < c)%Z) /\
    resolve self idx = Ok (Some ds, zsum (firstn i (lens_of paths))).
Proof.
  intros Hwf self Hidx.
  destruct (init_wf label_path_of loadtxt o Hwf)
    as (Eimg & Elbl & _ & _ & _ & Ecds & EnF & _).
  fold self in Eimg, Elbl, Ecds, EnF.
  unfold resolve. rewrite Elbl, od_keys_map, Ecds.
  rewrite EnF in Hidx.
  set (lens := lens_of paths) in *.
  set (cs := prefix_sums 0 lens) in *.
  assert (Hlc : length cs = length paths).
  { subst cs. rewrite prefix_sums_length. apply lens_of_length. }
  assert (Hlk : length (od_keys paths) = length paths)
    by (unfold od_keys; apply length_map).
  assert (Hlen : (length cs <= length (od_keys paths))%nat) by lia.
  destruct (@resolve_fold idx (od_keys paths) cs Hlen) as
    [[_ Hall]|(i & c & k & Hc & Hk & Hle & Hlast & E)].
  - exfalso. destruct paths as [|[k f] rest].
    + simpl in Hidx. lia.
    + specialize (Hall 0%Z (or_introl eq_refl)). lia.
  - assert (Hi : (i < length paths)%nat).
    { rewrite <- Hlc. apply nth_error_Some. congruence. }
    destruct (nth_error paths i) as [[ds files]|] eqn:Ep;
      [|apply nth_error_None in Ep; lia].
    assert (Ek : k = ds).
    { unfold od_keys in Hk. rewrite (map_nth_error fst _ _ Ep) in Hk.
      simpl in Hk. congruence. }
    subst k.
    assert (El : nth_error lens i = Some (Z.of_nat (length files))).
    { subst lens. unfold lens_of.
      now rewrite (map_nth_error _ _ _ Ep). }
    assert (Ec : c = zsum (firstn i lens)).
    { subst cs. rewrite (nth_error_prefix_sums _ 0 _ El) in Hc.
      inversion Hc. lia. }
    subst c.
    exists i, ds, files. repeat split; auto.
    + rewrite <- (zsum_firstn_S _ _ El).
      destruct (Nat.lt_ge_cases (S i) (length lens)) as [Hs|Hs].
      * destruct (nth_error lens (S i)) as [v|] eqn:Ev;
          [|apply nth_error_None in Ev; lia].
        apply (Hlast (S i)); [lia|].
        subst cs. rewrite (nth_error_prefix_sums _ 0 _ Ev). reflexivity.
      * rewrite firstn_all2 by lia. lia.
Qed.

End IndexFacts.

(** ** Claims on the identity space and the sample index *)

(** C5.  For datasets with pairwise distinct names, in registration order:
    the identity count of a dataset is 0 when its label files hold no
    identity and, for identities not below -1, one more than the largest
    identity observed; its start index is the sum of the counts of the
    datasets before it (read by position and by name); [nID] is the sum of
    all counts plus one; a row whose identity is -1 is left as it is by the
    remapping of [__getitem__]. *)
Theorem identity_space_blocks
    (label_path_of : string -> string)
    (loadtxt : string -> list JointDataset.LabelRow)
    (o : JointDataset.Opt) (paths : odict (list string)) :
  od_wf paths ->
  let self := JointDataset.init label_path_of loadtxt o paths in
  (forall i ds files,
      nth_error paths i = Some (ds, files) ->
      let obs := observed_ids loadtxt (map label_path_of files) in
      exists n,
        nth_error (JointDataset.tid_num self) i = Some (ds, n) /\
        (obs = [] -> n = 0%Z) /\
        ((forall x, In x obs -> (-1 <= x)%Z) -> obs <> [] ->
         exists x, In x obs /\ (forall y, In y obs -> (y <= x)%Z) /\
                   n = (x + 1)%Z) /\
        nth_error (JointDataset.tid_start_index self) i
        = Some (ds, zsum (map snd (firstn i (JointDataset.tid_num self)))) /\
        od_get ds (JointDataset.tid_start_index self)
        = Ok (zsum (map snd (firstn i (JointDataset.tid_num self))))) /\
  JointDataset.nID self
  = (zsum (map snd (JointDataset.tid_num self)) + 1)%Z /\
  (forall ds r, JointDataset.ident r = (-1)%Z ->
                Encoder.offset_row self ds r = Ok r).
Proof.
  intros Hwf self.
  destruct (init_wf label_path_of loadtxt o Hwf)
    as (_ & _ & Etid & Estart & EnID & _).
  fold self in Etid, Estart, EnID.
  set (counts := map (fun '(k, a) =>
                        (k, JointDataset.count_ids loadtxt (map label_path_of a)))
                     paths) in *.
  split; [|split].
  - intros i ds files Hnth obs.
    destruct (count_ids_spec loadtxt (map label_path_of files))
      as (_ & _ & H0 & Hmax).
    exists (JointDataset.count_ids loadtxt (map label_path_of files)).
    assert (Hc : nth_error counts i
                 = Some (ds, JointDataset.count_ids loadtxt
                               (map label_path_of files))).
    { subst counts. now rewrite (map_nth_error _ _ _ Hnth). }
    assert (Hs : nth_error (JointDataset.tid_start_index self) i
                 = Some (ds, zsum (map snd (firstn i counts)))).
    { rewrite Estart. apply nth_error_combine.
      - unfold od_keys. now rewrite (map_nth_error _ _ _ Hnth).
      - rewrite (nth_error_prefix_sums _ 0 i
                   (map_nth_error snd _ _ Hc)).
        now rewrite firstn_map. }
    rewrite Etid. repeat split; auto.
    unfold od_get. erewrite od_find_nth; [reflexivity | | exact Hs].
    unfold od_wf. rewrite Estart, od_keys_combine; [exact Hwf|].
    rewrite prefix_sums_length. unfold od_keys. subst counts.
    now rewrite !length_map.
  - now rewrite Etid.
  - intros ds r Hr. unfold Encoder.offset_row. now rewrite Hr.
Qed.

Lemma sample_paths_wf : od_wf Sample.paths.
Proof.
  unfold od_wf; simpl. repeat constructor; simpl; intuition discriminate.
Defined.

(** The theorem at the two sample datasets: three identity slots for
    [d1], two for [d2], six identities in all. *)
Lemma identity_space_blocks_witness :
  JointDataset.nID Sample.dataset
  = (zsum (map snd (JointDataset.tid_num Sample.dataset)) + 1)%Z.
Proof.
  exact (proj1 (proj2 (identity_space_blocks Sample.label_path_of
                         Sample.loadtxt Sample.opt_unsup sample_paths_wf))).
Defined.

(** C8.  A flat index below the total sample count resolves to the last
    dataset whose start index (the sum of the sample counts before it) is
    not above the index, and to the position [index - start] in it, which
    exists; for two datasets of 3 and 5 samples, flat indices 0..2 give
    positions 0..2 of the first and 3..7 positions 0..4 of the second. *)
Theorem flat_index_resolution :
  (forall (label_path_of : string -> string)
          (loadtxt : string -> list JointDataset.LabelRow)
          (o : JointDataset.Opt) (paths : odict (list string)) (idx : Z),
      od_wf paths ->
      let self := JointDataset.init label_path_of loadtxt o paths in
      (0 <= idx < JointDataset.nF self)%Z ->
      exists i ds files start img,
        nth_error paths i = Some (ds, files) /\
        start = zsum (firstn i (lens_of paths)) /\
        nth_error (JointDataset.cds self) i = Some start /\
        (start <= idx)%Z /\
        (forall j c, (i < j)%nat ->
                     nth_error (JointDataset.cds self) j = Some c ->
                     (idx < c)%Z) /\
        nth_error files (Z.to_nat (idx - start)) = Some img /\
        JointDataset.sample_paths self idx
        = Ok (Some ds, img, label_path_of img)) /\
  (forall (label_path_of : string -> string)
          (loadtxt : string -> list JointDataset.LabelRow)
          (o : JointDataset.Opt) (d1 d2 a0 a1 a2 b0 b1 b2 b3 b4 : string),
      d1 <> d2 ->
      let self := JointDataset.init label_path_of loadtxt o
                    [(d1, [a0; a1; a2]); (d2, [b0; b1; b2; b3; b4])] in
      map (JointDataset.sample_paths self) [0; 1; 2; 3; 4; 5; 6; 7]%Z
      = [Ok (Some d1, a0, label_path_of a0);
         Ok (Some d1, a1, label_path_of a1);
         Ok (Some d1, a2, label_path_of a2);
         Ok (Some d2, b0, label_path_of b0);
         Ok (Some d2, b1, label_path_of b1);
         Ok (Some d2, b2, label_path_of b2);
         Ok (Some d2, b3, label_path_of b3);
         Ok (Some d2, b4, label_path_of b4)]).
Proof.
  split.
  - intros label_path_of loadtxt o paths idx Hwf self Hidx.
    destruct (@resolve_spec label_path_of loadtxt o paths idx Hwf Hidx)
      as (i & ds & files & Hnth & Hcds & [Hlo Hhi] & Hlast & Hres).
    fold self in Hcds, Hlast, Hres.
    destruct (init_wf label_path_of loadtxt o Hwf) as (Eimg & Elbl & _).
    fold self in Eimg, Elbl.
    set (start := zsum (firstn i (lens_of paths))) in *.
    assert (Hpos : (Z.to_nat (idx - start) < length files)%nat) by lia.
    destruct (nth_error files (Z.to_nat (idx - start))) as [img|] eqn:Ei;
      [|apply nth_error_None in Ei; lia].
    exists i, ds, files, start, img. repeat split; auto.
    unfold JointDataset.sample_paths. rewrite Hres. simpl.
    rewrite Eimg, Elbl. unfold od_get.
    rewrite (@od_find_nth _ paths i ds files Hwf Hnth). simpl.
    replace (idx - start)%Z with (Z.of_nat (Z.to_nat (idx - start))) by lia.
    rewrite (py_index_in _ _ Ei). simpl.
    erewrite od_find_nth;
      [ | unfold od_wf; rewrite od_keys_map; exact Hwf
        | exact (map_nth_error (fun '(k, a) => (k, map label_path_of a))
                               _ _ Hnth) ].
    simpl. rewrite (py_index_in _ _ (map_nth_error label_path_of _ _ Ei)).
    reflexivity.
  - intros label_path_of loadtxt o d1 d2 a0 a1 a2 b0 b1 b2 b3 b4 Hne self.
    assert (Hwf : od_wf [(d1, [a0; a1; a2]); (d2, [b0; b1; b2; b3; b4])]).
    { unfold od_wf; simpl. repeat constructor; simpl; intuition. }
    destruct (init_wf label_path_of loadtxt o Hwf)
      as (Eimg & Elbl & _ & _ & _ & Ecds & _).
    fold self in Eimg, Elbl, Ecds.
    assert (E21 : String.eqb d2 d1 = false)
      by (apply String.eqb_neq; congruence).
    unfold JointDataset.sample_paths, JointDataset.resolve.
    rewrite Eimg, Elbl, Ecds. simpl.
    unfold od_get_opt, od_get. simpl.
    rewrite !String.eqb_refl, !E21. reflexivity.
Qed.

(** The theorem at the sample datasets: flat index 4 is the second sample
    of [d2]. *)
Lemma flat_index_resolution_witness :
  exists i ds files start img,
    nth_error Sample.paths i = Some (ds, files) /\
    start = zsum (firstn i (lens_of Sample.paths)) /\
    nth_error (JointDataset.cds Sample.dataset) i = Some start /\
    (start <= 4)%Z /\
    (forall j c, (i < j)%nat ->
                 nth_error (JointDataset.cds Sample.dataset) j = Some c ->
                 (4 < c)%Z) /\
    nth_error files (Z.to_nat (4 - start)) = Some img /\
    JointDataset.sample_paths Sample.dataset 4
    = Ok (Some ds, img, Sample.label_path_of img).
Proof.
  apply (proj1 flat_index_resolution Sample.label_path_of Sample.loadtxt
               Sample.opt_unsup Sample.paths 4%Z sample_paths_wf).
  vm_compute. split; [discriminate | reflexivity].
Defined.

(** ** Ground-truth encoding *)

Section EncoderFacts.

Import JointDataset Encoder.

Variables (Image Tensor Heat : Type).
Variable imread : string -> option Image.
Variable flip : Image -> Image.
Variable image_hw : Image -> Z * Z.
Variable view : bool -> Image -> string -> result (Tensor * list LabelRow).
Variable shape : Tensor -> Z * Z * Z.
Variable zeros_heat : Z -> Z -> Heat.
Variable gaussian_radius : Z -> Z -> Q.
Variable draw_umich_gaussian : Heat -> Z * Z -> Z -> Heat.
Variable draw_msra_gaussian : Heat -> Z * Z -> Z -> Heat.

Local Abbreviation encode_one' :=
  (encode_one gaussian_radius draw_umich_gaussian draw_msra_gaussian).
Local Abbreviation build' :=
  (build zeros_heat gaussian_radius draw_umich_gaussian draw_msra_gaussian).
Local Abbreviation encode' :=
  (encode shape zeros_heat gaussian_radius draw_umich_gaussian
          draw_msra_gaussian).
Local Abbreviation getitem' :=
  (getitem imread flip image_hw view shape zeros_heat gaussian_radius
           draw_umich_gaussian draw_msra_gaussian).

Lemma py_assign_ok_inv {A : Type} (xs ys : list A) (n : nat) (v : A) :
  py_assign xs (Z.of_nat n) v = Ok ys ->
  (n < length xs)%nat /\ ys = list_set xs n v.
Proof.
  intros H. destruct (Nat.lt_ge_cases n (length xs)) as [Hlt|Hge].
  - rewrite py_assign_in in H by exact Hlt. inversion H. auto.
  - rewrite py_assign_out in H by lia. discriminate.
Qed.

Lemma np_zeros_ok {A : Type} (z : A) (n : Z) (l : list A) :
  np_zeros z n = Ok l -> (0 <= n)%Z /\ l = repeat z (Z.to_nat n).
Proof.
  unfold np_zeros. destruct (Z.ltb_spec n 0) as [Hn|Hn]; intros H; inversion H.
  split; [lia | reflexivity].
Qed.

Lemma np_zeros_only {A : Type} (z : A) (n : Z) (e : exn) :
  np_zeros z n = Raise e -> e = ValueError.
Proof.
  unfold np_zeros. destruct (n <? 0)%Z; intros H; inversion H; reflexivity.
Qed.

(** The fresh arrays have the capacity as their length and a zero mask. *)
Lemma init_gt_ok (self : t) (oh ow : Z) (g0 : GT Heat) :
  init_gt zeros_heat self oh ow = Ok g0 ->
  (0 <= max_objs self)%Z /\
  gt_len (Z.to_nat (max_objs self)) g0 /\
  reg_mask g0 = repeat 0%Z (Z.to_nat (max_objs self)).
Proof.
  unfold init_gt. intros H.
  apply bind_ok_inv in H. destruct H as (hm0 & _ & H).
  apply bind_ok_inv in H. destruct H as (wh0 & Hwh & H).
  apply bind_ok_inv in H. destruct H as (reg0 & Hreg & H).
  apply bind_ok_inv in H. destruct H as (ind0 & Hind & H).
  apply bind_ok_inv in H. destruct H as (rm0 & Hrm & H).
  apply bind_ok_inv in H. destruct H as (ids0 & Hids & H).
  inversion H; subst; clear H.
  apply np_zeros_ok in Hwh, Hreg, Hind, Hrm, Hids.
  destruct Hwh as [Hpos ->], Hreg as [_ ->], Hind as [_ ->], Hrm as [_ ->],
           Hids as [_ ->].
  unfold gt_len; simpl. rewrite !repeat_length. auto 10.
Qed.

(** An iteration of the encoding loop can only raise [IndexError]. *)
Lemma encode_one_only (o : Opt) (ow oh : Z) (labels : list LabelRow)
    (k : Z) (g : GT Heat) (e : exn) :
  encode_one' o ow oh labels k g = Raise e -> e = IndexError.
Proof.
  unfold encode_one.
  destruct (py_index labels k) as [label|e0] eqn:E0; cbn [bind];
    [|intros H; inversion H; subst; eapply py_index_only; eauto].
  destruct (grid_box ow oh label) as [[[b0 b1] w] h].
  destruct (Qpos_b h && Qpos_b w); [|discriminate].
  intros H.
  repeat match type of H with
         | bind ?m _ = Raise _ =>
             let E := fresh "E" in
             destruct m eqn:E; cbn [bind] in H;
             [| inversion H; subst;
                first [eapply py_index_only; eassumption
                      |eapply py_assign_only; eassumption]]
         end.
  discriminate.
Qed.

(** What a successful iteration does: nothing for a row without positive
    width and height, otherwise it writes slot [n] of every object array. *)
Lemma encode_one_ok (o : Opt) (ow oh : Z) (labels : list LabelRow)
    (n : nat) (r : LabelRow) (g g' : GT Heat) :
  nth_error labels n = Some r ->
  encode_one' o ow oh labels (Z.of_nat n) g = Ok g' ->
  (encodable ow oh r = false /\ g' = g) \/
  (encodable ow oh r = true /\ (n < length (wh g))%nat /\
   let '(b0, b1, w, h) := grid_box ow oh r in
   wh g' = list_set (wh g) n (w, h) /\
   ind g' = list_set (ind g) n (Qtrunc b1 * ow + Qtrunc b0)%Z /\
   reg g' = list_set (reg g) n
              (b0 - inject_Z (Qtrunc b0), b1 - inject_Z (Qtrunc b1)) /\
   reg_mask g' = list_set (reg_mask g) n 1%Z /\
   ids g' = list_set (ids g) n (ident r)).
Proof.
  intros Hr. unfold encode_one, encodable.
  rewrite (py_index_in _ _ Hr). cbn [bind].
  destruct (grid_box ow oh r) as [[[b0 b1] w] h].
  destruct (Qpos_b h && Qpos_b w); intros H.
  - right. split; [reflexivity|].
    apply bind_ok_inv in H. destruct H as (chan & _ & H).
    apply bind_ok_inv in H. destruct H as (hm' & _ & H).
    apply bind_ok_inv in H. destruct H as (wh' & Hwh & H).
    apply bind_ok_inv in H. destruct H as (ind' & Hind & H).
    apply bind_ok_inv in H. destruct H as (reg' & Hreg & H).
    apply bind_ok_inv in H. destruct H as (rm' & Hrm & H).
    apply bind_ok_inv in H. destruct H as (ids' & Hids & H).
    inversion H; subst; clear H. simpl.
    apply py_assign_ok_inv in Hwh, Hind, Hreg, Hrm, Hids.
    destruct Hwh as [Hlt ->], Hind as [_ ->], Hreg as [_ ->], Hrm as [_ ->],
             Hids as [_ ->].
    auto 10.
  - left. inversion H. auto.
Qed.

Lemma encode_one_len (o : Opt) (ow oh : Z) (labels : list LabelRow)
    (m : nat) (j : Z) (g g' : GT Heat) :
  gt_len m g -> encode_one' o ow oh labels j g = Ok g' -> gt_len m g'.
Proof.
  unfold encode_one. intros Hg H.
  apply bind_ok_inv in H. destruct H as (label & _ & H). revert H.
  destruct (grid_box ow oh label) as [[[b0 b1] w] h].
  destruct (Qpos_b h && Qpos_b w); intros H;
    [|inversion H; subst; exact Hg].
  apply bind_ok_inv in H. destruct H as (chan & _ & H).
  apply bind_ok_inv in H. destruct H as (hm' & _ & H).
  apply bind_ok_inv in H. destruct H as (wh' & Hwh & H).
  apply bind_ok_inv in H. destruct H as (ind' & Hind & H).
  apply bind_ok_inv in H. destruct H as (reg' & Hreg & H).
  apply bind_ok_inv in H. destruct H as (rm' & Hrm & H).
  apply bind_ok_inv in H. destruct H as (ids' & Hids & H).
  inversion H; subst; clear H.
  apply py_assign_length in Hwh, Hind, Hreg, Hrm, Hids.
  destruct Hg as (G1 & G2 & G3 & G4 & G5).
  unfold gt_len; simpl. repeat split; congruence.
Qed.

(** A row with positive width and height at a position beyond the
    capacity makes its iteration raise. *)
Lemma encode_one_overflow (o : Opt) (ow oh : Z) (labels : list LabelRow)
    (m k : nat) (r : LabelRow) (g : GT Heat) :
  nth_error labels k = Some r -> encodable ow oh r = true ->
  (m <= k)%nat -> gt_len m g ->
  encode_one' o ow oh labels (Z.of_nat k) g = Raise IndexError.
Proof.
  intros Hr He Hk Hg.
  destruct (encode_one' o ow oh labels (Z.of_nat k) g) as [g'|e] eqn:E.
  - exfalso. destruct (@encode_one_ok o ow oh labels k r g g' Hr E) as [[Hf _]|(_ & Hlt & _)].
    + congruence.
    + destruct Hg as (G1 & _). lia.
  - f_equal. eapply encode_one_only; eauto.
Qed.

Lemma slot_holds_frame (ow oh : Z) (r r' : LabelRow) (k n : nat)
    (g g' : GT Heat) :
  k <> n ->
  (let '(b0, b1, w, h) := grid_box ow oh r' in
   wh g' = list_set (wh g) n (w, h) /\
   ind g' = list_set (ind g) n (Qtrunc b1 * ow + Qtrunc b0)%Z /\
   reg g' = list_set (reg g) n
              (b0 - inject_Z (Qtrunc b0), b1 - inject_Z (Qtrunc b1)) /\
   reg_mask g' = list_set (reg_mask g) n 1%Z /\
   ids g' = list_set (ids g) n (ident r')) ->
  slot_holds ow oh r k g -> slot_holds ow oh r k g'.
Proof.
  intros Hkn. unfold slot_holds.
  destruct (grid_box ow oh r') as [[[c0 c1] w'] h'].
  destruct (grid_box ow oh r) as [[[b0 b1] w] h].
  intros (-> & -> & -> & -> & ->) (S1 & S2 & S3 & S4 & S5).
  rewrite !nth_error_list_set_neq by congruence. auto.
Qed.

Lemma encode_loop_spec (o : Opt) (ow oh : Z) (labels : list LabelRow)
    (m : nat) (g0 : GT Heat) :
  gt_len m g0 -> reg_mask g0 = repeat 0%Z m ->
  forall n g, (n <= length labels)%nat ->
              for_range n (encode_one' o ow oh labels) g0 = Ok g ->
              encoded_upto ow oh labels m n g.
Proof.
  intros Hlen Hmask. induction n as [|n IH]; intros g Hn H.
  - inversion H; subst. split; [exact Hlen|]. split; [intros; lia|].
    intros k Hk. rewrite Hmask. apply nth_error_repeat. lia.
  - rewrite for_range_S in H. apply bind_ok_inv in H.
    destruct H as (g1 & H1 & H2).
    destruct (IH g1 ltac:(lia) H1) as (L & Hslots & Hrest).
    destruct (nth_error labels n) as [r|] eqn:Er;
      [|apply nth_error_None in Er; lia].
    pose proof (@encode_one_len o ow oh labels m (Z.of_nat n) g1 g L H2) as L'.
    destruct (@encode_one_ok o ow oh labels n r g1 g Er H2) as [[Hf ->]|(Ht & Hlt & Hw)].
    + split; [exact L|]. split.
      * intros k r' Hk Hr'. destruct (Nat.eq_dec k n) as [->|Hne].
        -- rewrite Er in Hr'. inversion Hr'; subst. rewrite Hf.
           intros Hkm. apply Hrest. lia.
        -- apply Hslots; [lia | exact Hr'].
      * intros k Hk. apply Hrest. lia.
    + assert (Hnm : (n < m)%nat) by (destruct L as (L1 & _); lia).
      split; [exact L'|]. split.
      * intros k r' Hk Hr'. destruct (Nat.eq_dec k n) as [->|Hne].
        -- rewrite Er in Hr'. inversion Hr'; subst. rewrite Ht.
           split; [exact Hnm|]. unfold slot_holds.
           destruct L as (L1 & L2 & L3 & L4 & L5).
           destruct (grid_box ow oh r') as [[[b0 b1] w] h].
           destruct Hw as (-> & -> & -> & -> & ->).
           rewrite !nth_error_list_set_eq by lia. auto 10.
        -- specialize (Hslots k r' ltac:(lia) Hr').
           destruct (encodable ow oh r').
           ++ destruct Hslots as [Hkm Hs]. split; [exact Hkm|].
              eapply slot_holds_frame; eauto.
           ++ intros Hkm. 
              destruct (grid_box ow oh r) as [[[b0 b1] w] h].
              destruct Hw as (_ & _ & _ & -> & _).
              rewrite nth_error_list_set_neq by congruence. auto.
      * intros k Hk.
        destruct (grid_box ow oh r) as [[[b0 b1] w] h].
        destruct Hw as (_ & _ & _ & -> & _).
        rewrite nth_error_list_set_neq by lia. apply Hrest. lia.
Qed.

Lemma flipped_one_only (ow oh : Z) (fl : list LabelRow) (k : Z)
    (f : list Z) (e : exn) :
  flipped_one ow oh fl k f = Raise e -> e = IndexError.
Proof.
  unfold flipped_one.
  destruct (py_index fl k) as [label|e0] eqn:E0; cbn [bind];
    [|intros H; inversion H; subst; eapply py_index_only; eauto].
  destruct (grid_box ow oh label) as [[[b0 b1] w] h].
  destruct (Qpos_b h && Qpos_b w); [|discriminate].
  intros H. eapply py_assign_only; eauto.
Qed.

Lemma get_data_supervised (img_path label_path : string)
    (d : Data Tensor) :
  get_data imread flip image_hw view img_path label_path false = Ok d ->
  d_flipped_img d = None /\ d_flipped_labels d = None.
Proof.
  unfold get_data. destruct (imread img_path); [|discriminate].
  simpl. destruct (view false i label_path) as [[t l]|]; simpl;
    intros H; inversion H; auto.
Qed.

Lemma init_gt_total (self : t) (oh ow : Z) :
  (0 <= oh)%Z -> (0 <= ow)%Z -> (0 <= max_objs self)%Z ->
  (0 <= num_classes self)%Z ->
  exists g0, init_gt zeros_heat self oh ow = Ok g0.
Proof.
  intros H1 H2 H3 H4. unfold init_gt, np_zeros.
  assert (E1 : (oh <? 0)%Z = false) by (apply Z.ltb_ge; lia).
  assert (E2 : (ow <? 0)%Z = false) by (apply Z.ltb_ge; lia).
  assert (E3 : (max_objs self <? 0)%Z = false) by (apply Z.ltb_ge; lia).
  assert (E4 : (num_classes self <? 0)%Z = false) by (apply Z.ltb_ge; lia).
  rewrite E1, E2, E3, E4. simpl. eauto.
Qed.

(** The original view's loop raises as soon as a row with positive width
    and height sits at a position beyond the capacity. *)
Lemma encode_loop_overflow (self : t) (ow oh : Z) (labels : list LabelRow)
    (g0 : GT Heat) (k : nat) (r : LabelRow) :
  init_gt zeros_heat self oh ow = Ok g0 ->
  nth_error labels k = Some r ->
  (max_objs self <= Z.of_nat k)%Z ->
  encodable ow oh r = true ->
  for_range (length labels) (encode_one' (opt self) ow oh labels) g0
  = Raise IndexError.
Proof.
  intros Hg0 Hr Hk He.
  destruct (@init_gt_ok _ _ _ g0 Hg0) as (Hpos & Hlen & _).
  apply for_range_raises
    with (I := gt_len (Z.to_nat (max_objs self))) (k := k).
  - intros j st e'. apply encode_one_only.
  - intros j st st'. apply encode_one_len.
  - intros st Hst.
    apply encode_one_overflow with (m := Z.to_nat (max_objs self)) (r := r);
      auto; lia.
  - exact Hlen.
  - apply nth_error_Some. congruence.
Qed.

(** C1.  The arrays are sized by the capacity [max_objs] but the encoding
    loop runs over every row of the label list and does not truncate: a
    row with positive grid width and height at a position not below
    [max_objs] keeps the fetch from completing, and for a consistent
    configuration the exception is [IndexError]; when the fetch does
    complete, every row with positive width and height sits below the
    capacity and is held by the slot of its own position, in the order of
    the label list, and every other slot below the capacity has mask 0. *)
Theorem capacity_overflow_raises (self : t) (img : Tensor)
    (labels : list LabelRow) (flipped_img : option Tensor)
    (flipped_labels : option (list LabelRow)) (s0 s1 s2 : Z) :
  shape img = (s0, s1, s2) ->
  let output_h := (s1 / opt_down_ratio (opt self))%Z in
  let output_w := (s2 / opt_down_ratio (opt self))%Z in
  (forall k r,
      nth_error labels k = Some r ->
      (max_objs self <= Z.of_nat k)%Z ->
      encodable output_w output_h r = true ->
      is_ok (snd (encode' self img labels flipped_img flipped_labels)) = false /\
      (opt_down_ratio (opt self) <> 0%Z -> (0 <= output_h)%Z ->
       (0 <= output_w)%Z -> (0 <= max_objs self)%Z ->
       (0 <= num_classes self)%Z -> flipped_labels <> None ->
       snd (encode' self img labels flipped_img flipped_labels)
       = Raise IndexError)) /\
  (forall ret,
      snd (encode' self img labels flipped_img flipped_labels) = Ok ret ->
      forall k r,
        nth_error labels k = Some r ->
        if encodable output_w output_h r
        then (Z.of_nat k < max_objs self)%Z /\
             slot_holds output_w output_h r k (r_gt ret)
        else (Z.of_nat k < max_objs self)%Z ->
             nth_error (reg_mask (r_gt ret)) k = Some 0%Z).
Proof.
  intros Hshape output_h output_w. split.
  - intros k r Hr Hk He. unfold encode. rewrite Hshape.
    unfold floordiv.
    destruct (Z.eqb_spec (opt_down_ratio (opt self)) 0) as [Hz|Hnz];
      cbn [bind snd]; [split; [reflexivity | intros; contradiction]|].
    fold output_h output_w.
    destruct flipped_labels as [fl|]; cbn [snd];
      [|split; [reflexivity | intros; congruence]].
    unfold build.
    destruct (init_gt zeros_heat self output_h output_w) as [g0|e] eqn:Eg;
      cbn [bind].
    + rewrite (@encode_loop_overflow self output_w output_h labels g0 k r
                 Eg Hr Hk He). cbn [bind].
      split; [reflexivity | intros; reflexivity].
    + split; [reflexivity|].
      intros _ H1 H2 H3 H4 _.
      destruct (@init_gt_total self output_h output_w H1 H2 H3 H4)
        as [g0 Hg0]. congruence.
  - intros ret. unfold encode. rewrite Hshape. unfold floordiv.
    destruct (Z.eqb_spec (opt_down_ratio (opt self)) 0) as [Hz|Hnz];
      cbn [bind snd]; [discriminate|].
    fold output_h output_w.
    destruct flipped_labels as [fl|]; cbn [snd]; [|discriminate].
    unfold build. intros H.
    apply bind_ok_inv in H. destruct H as (g0 & Hg0 & H).
    apply bind_ok_inv in H. destruct H as (g & Hg & H).
    assert (Eret : r_gt ret = g).
    { destruct flipped_img as [fimg|].
      - apply bind_ok_inv in H. destruct H as (f0 & _ & H).
        apply bind_ok_inv in H. destruct H as (f & _ & H).
        inversion H; reflexivity.
      - inversion H; reflexivity. }
    rewrite Eret.
    destruct (@init_gt_ok _ _ _ g0 Hg0) as (Hpos & Hlen & Hmask).
    destruct (@encode_loop_spec (opt self) output_w output_h labels
                (Z.to_nat (max_objs self)) g0 Hlen Hmask (length labels) g
                (le_n _) Hg) as (_ & Hslots & _).
    intros k r Hr.
    assert (Hk : (k < length labels)%nat) by (apply nth_error_Some; congruence).
    specialize (Hslots k r Hk Hr).
    destruct (encodable output_w output_h r).
    + destruct Hslots as [Hkm Hs]. split; [lia | exact Hs].
    + intros Hkm. apply Hslots. lia.
Qed.

(** C4.  When the flipped view has fewer rows than the original view, the
    two counts are printed and the fetch does not complete: once the
    original view is encoded, the loop building [flipped_ind] reads
    [flipped_labels] past its end and raises [IndexError]. *)
Theorem flipped_shorter_raises (self : t) (img fimg : Tensor)
    (labels fl : list LabelRow) (s0 s1 s2 : Z) :
  shape img = (s0, s1, s2) ->
  opt_down_ratio (opt self) <> 0%Z ->
  (length fl < length labels)%nat ->
  let output_h := (s1 / opt_down_ratio (opt self))%Z in
  let output_w := (s2 / opt_down_ratio (opt self))%Z in
  fst (encode' self img labels (Some fimg) (Some fl))
  = [(Z.of_nat (length labels), Z.of_nat (length fl))] /\
  is_ok (snd (encode' self img labels (Some fimg) (Some fl))) = false /\
  (forall g0 g,
      init_gt zeros_heat self output_h output_w = Ok g0 ->
      for_range (length labels)
                (encode_one' (opt self) output_w output_h labels) g0 = Ok g ->
      snd (encode' self img labels (Some fimg) (Some fl)) = Raise IndexError).
Proof.
  intros Hshape Hnz Hlt output_h output_w.
  assert (Hloop : forall f0,
             for_range (length labels) (flipped_one output_w output_h fl) f0
             = Raise IndexError).
  { intros f0.
    apply for_range_raises with (I := fun _ => True) (k := length fl); auto.
    - intros j st e'. apply flipped_one_only.
    - intros st _. unfold flipped_one. rewrite py_index_out by lia.
      reflexivity. }
  unfold encode. rewrite Hshape. unfold floordiv.
  destruct (Z.eqb_spec (opt_down_ratio (opt self)) 0) as [Hz|_];
    [contradiction|].
  cbn [bind fst snd]. fold output_h output_w.
  split; [|split].
  - destruct (Z.eqb_spec (Z.of_nat (length labels)) (Z.of_nat (length fl)));
      [lia | reflexivity].
  - unfold build.
    destruct (init_gt zeros_heat self output_h output_w) as [g0|e];
      cbn [bind]; [|reflexivity].
    destruct (for_range (length labels)
                (encode_one' (opt self) output_w output_h labels) g0)
      as [g|e]; cbn [bind]; [|reflexivity].
    destruct (np_zeros 0%Z (max_objs self)) as [f0|e]; cbn [bind];
      [|reflexivity].
    rewrite Hloop. reflexivity.
  - intros g0 g Hg0 Hg. unfold build. rewrite Hg0. cbn [bind].
    rewrite Hg. cbn [bind].
    destruct (@init_gt_ok _ _ _ g0 Hg0) as (Hpos & _).
    unfold np_zeros.
    assert (E : (max_objs self <? 0)%Z = false) by (apply Z.ltb_ge; lia).
    rewrite E. cbn [bind]. rewrite Hloop. reflexivity.
Qed.

(** C10.  With [unsup] off, [get_data] leaves both flipped entries [None]
    and no fetch returns a target bundle: nothing is printed, the result
    is an exception, and once the sample is loaded and the stride is not
    zero it is the [AttributeError] of [flipped_labels.shape]. *)
Theorem supervised_fetch_never_returns (self : t) (files_index : Z) :
  unsup self = false ->
  fst (getitem' self files_index) = [] /\
  is_ok (snd (getitem' self files_index)) = false /\
  (forall d labels,
      fetch imread flip image_hw view self files_index = Ok (d, labels) ->
      d_flipped_img d = None /\ d_flipped_labels d = None /\
      (opt_down_ratio (opt self) <> 0%Z ->
       getitem' self files_index = ([], Raise AttributeError))).
Proof.
  intros Hsup.
  assert (Hnone : forall d labels,
             fetch imread flip image_hw view self files_index = Ok (d, labels) ->
             d_flipped_img d = None /\ d_flipped_labels d = None).
  { intros d labels H. unfold fetch in H.
    apply bind_ok_inv in H. destruct H as ([[ds ip] lp] & _ & H).
    apply bind_ok_inv in H. destruct H as (d' & Hd & H).
    apply bind_ok_inv in H. destruct H as (l' & _ & H).
    inversion H; subst. rewrite Hsup in Hd.
    eapply get_data_supervised; eauto. }
  unfold getitem.
  destruct (fetch imread flip image_hw view self files_index)
    as [[d labels]|e] eqn:Ef.
  - destruct (Hnone d labels eq_refl) as [Hi Hl].
    unfold encode. rewrite Hl.
    destruct (shape (d_img d)) as [[s0 s1] s2]. unfold floordiv.
    destruct (Z.eqb_spec (opt_down_ratio (opt self)) 0) as [Hz|Hnz];
      cbn [bind fst snd is_ok].
    + split; [reflexivity | split; [reflexivity|]].
      intros d0 l0 E. inversion E; subst.
      split; [exact Hi | split; [exact Hl | intros; contradiction]].
    + split; [reflexivity | split; [reflexivity|]].
      intros d0 l0 E. inversion E; subst.
      split; [exact Hi | split; [exact Hl | reflexivity]].
  - cbn [fst snd is_ok]. split; [reflexivity | split; [reflexivity|]].
    intros d l E. discriminate.
Qed.

End EncoderFacts.

(** ** The encoding claims at the sample world *)

(** C1 at the sample world: three rows with positive width and height for
    a capacity of two; the fetch raises instead of returning the first two
    objects. *)
Lemma capacity_truncation_counterexample :
  (JointDataset.max_objs Sample.dataset
   < Z.of_nat (length SampleWorld.three_rows))%Z /\
  snd (SampleWorld.encode Sample.dataset SampleWorld.input
         SampleWorld.three_rows (Some SampleWorld.input)
         (Some (map SampleWorld.mirror SampleWorld.three_rows)))
  = Raise IndexError.
Proof.
  split; vm_compute; reflexivity.
Qed.

(** The theorem at the same sample: the third row, at position 2 for a
    capacity of 2, raises [IndexError]. *)
Lemma capacity_overflow_raises_witness :
  snd (SampleWorld.encode Sample.dataset SampleWorld.input
         SampleWorld.three_rows (Some SampleWorld.input)
         (Some (map SampleWorld.mirror SampleWorld.three_rows)))
  = Raise IndexError.
Proof.
  pose proof (@capacity_overflow_raises SampleWorld.Tensor SampleWorld.Heat
                SampleWorld.shape SampleWorld.zeros_heat
                SampleWorld.gaussian_radius SampleWorld.draw SampleWorld.draw
                Sample.dataset SampleWorld.input SampleWorld.three_rows
                (Some SampleWorld.input)
                (Some (map SampleWorld.mirror SampleWorld.three_rows))
                3%Z 608%Z 1088%Z eq_refl) as [H _].
  apply (H 2%nat (Sample.row 0 4 (3 # 4) (3 # 4) (1 # 8) (1 # 8)));
    vm_compute; try reflexivity; discriminate.
Defined.

(** C4 at the sample world: two rows against one flipped row.  The counts
    are printed and the fetch raises [IndexError]. *)
Lemma flipped_shorter_raises_witness :
  fst (SampleWorld.encode Sample.dataset SampleWorld.input
         SampleWorld.two_rows (Some SampleWorld.input)
         (Some SampleWorld.one_flipped_row)) = [(2, 1)%Z] /\
  snd (SampleWorld.encode Sample.dataset SampleWorld.input
         SampleWorld.two_rows (Some SampleWorld.input)
         (Some SampleWorld.one_flipped_row)) = Raise IndexError.
Proof.
  destruct (@flipped_shorter_raises SampleWorld.Tensor SampleWorld.Heat
              SampleWorld.shape SampleWorld.zeros_heat
              SampleWorld.gaussian_radius SampleWorld.draw SampleWorld.draw
              Sample.dataset SampleWorld.input SampleWorld.input
              SampleWorld.two_rows SampleWorld.one_flipped_row
              3%Z 608%Z 1088%Z eq_refl)
    as (H1 & _ & H3).
  - vm_compute. discriminate.
  - simpl. lia.
  - split; [exact H1|]. eapply H3; vm_compute; reflexivity.
Defined.

(** C10 at the sample world: a supervised fetch of sample 0. *)
Lemma supervised_fetch_never_returns_witness :
  JointDataset.unsup Sample.dataset_sup = false /\
  SampleWorld.getitem Sample.dataset_sup 0 = ([], Raise AttributeError).
Proof.
  split; [reflexivity|].
  destruct (@supervised_fetch_never_returns
              SampleWorld.Image SampleWorld.Tensor SampleWorld.Heat
              SampleWorld.imread SampleWorld.flip SampleWorld.image_hw
              SampleWorld.view SampleWorld.shape SampleWorld.zeros_heat
              SampleWorld.gaussian_radius SampleWorld.draw SampleWorld.draw
              Sample.dataset_sup 0%Z eq_refl) as (_ & _ & H).
  eapply H; [vm_compute; reflexivity | vm_compute; discriminate].
Defined.

(** ** letterbox *)

(** Pushes [inject_Z] through integer arithmetic. *)
Ltac inj_arith :=
  unfold Z.sub;
  rewrite ?inject_Z_plus, ?inject_Z_mult, ?inject_Z_opp;
  change (inject_Z 1) with 1%Q; change (inject_Z 2) with 2%Q.

Section LetterboxFacts.

Import Letterbox.

Lemma Qfloor_unique (q : Q) (k : Z) :
  inject_Z k <= q -> q < inject_Z (k + 1) -> Qfloor q = k.
Proof.
  intros H1 H2.
  pose proof (Qfloor_le q) as F1. pose proof (Qlt_floor q) as F2.
  assert (A : (Qfloor q < k + 1)%Z).
  { rewrite Zlt_Qlt. eapply Qle_lt_trans; eauto. }
  assert (B : (k < Qfloor q + 1)%Z).
  { rewrite Zlt_Qlt. eapply Qle_lt_trans; eauto. }
  lia.
Qed.

Lemma Qceiling_unique (q : Q) (k : Z) :
  inject_Z (k - 1) < q -> q <= inject_Z k -> Qceiling q = k.
Proof.
  intros H1 H2.
  pose proof (Qle_ceiling q) as F1. pose proof (Qceiling_lt q) as F2.
  assert (A : (Qceiling q - 1 < k)%Z).
  { rewrite Zlt_Qlt. eapply Qlt_le_trans; eauto. }
  assert (B : (k - 1 < Qceiling q)%Z).
  { rewrite Zlt_Qlt. eapply Qlt_le_trans; eauto. }
  lia.
Qed.

(** Away from a tie, [round] gives the nearest integer. *)
Lemma py_round_near (q : Q) (k : Z) :
  inject_Z k - (1 # 2) < q -> q < inject_Z k + (1 # 2) -> py_round q = k.
Proof.
  intros H1 H2. unfold py_round.
  destruct (Qlt_le_dec q (inject_Z k)) as [Hlt|Hge].
  - assert (F : Qfloor q = (k - 1)%Z).
    { apply Qfloor_unique.
      - inj_arith. lra.
      - replace (k - 1 + 1)%Z with k by lia. exact Hlt. }
    rewrite F.
    assert (C : Qcompare (q - inject_Z (k - 1)) (1 # 2) = Gt).
    { apply (proj1 (Qgt_alt _ _)). inj_arith. lra. }
    rewrite C. lia.
  - assert (F : Qfloor q = k).
    { apply Qfloor_unique; [exact Hge|].
      inj_arith. lra. }
    rewrite F.
    assert (C : Qcompare (q - inject_Z k) (1 # 2) = Lt).
    { apply (proj1 (Qlt_alt _ _)). lra. }
    now rewrite C.
Qed.

(** For half an integer [d], [round(d - 0.1)] and [round(d + 0.1)] are the
    floor and the ceiling of [d], which add up to the integer. *)
Lemma half_int_pads (n : Z) (d : Q) :
  d == inject_Z n / 2 ->
  py_round (d - (1 # 10)) = Qfloor d /\
  py_round (d + (1 # 10)) = Qceiling d /\
  (Qfloor d + Qceiling d = n)%Z.
Proof.
  intros Hd.
  destruct (Z.Even_or_Odd n) as [[m ->]|[m ->]].
  - assert (E : d == inject_Z m).
    { rewrite Hd. inj_arith. field. }
    assert (F : Qfloor d = m).
    { apply Qfloor_unique; inj_arith; lra. }
    assert (C : Qceiling d = m).
    { apply Qceiling_unique; inj_arith; lra. }
    rewrite F, C. repeat split; [| | lia]; apply py_round_near; lra.
  - assert (E : d == inject_Z m + (1 # 2)).
    { rewrite Hd. inj_arith. field. }
    assert (F : Qfloor d = m).
    { apply Qfloor_unique; inj_arith; lra. }
    assert (C : Qceiling d = (m + 1)%Z).
    { apply Qceiling_unique.
      - replace (m + 1 - 1)%Z with m by lia. lra.
      - inj_arith. lra. }
    rewrite F, C. repeat split; [| | lia]; apply py_round_near;
      inj_arith; lra.
Qed.

End LetterboxFacts.

Section FitFacts.

Import Letterbox.

Lemma py_round_le (q : Q) (k : Z) : q <= inject_Z k -> (py_round q <= k)%Z.
Proof.
  intros H. unfold py_round. cbv zeta.
  pose proof (Qfloor_le q) as F1.
  assert (A : (Qfloor q <= k)%Z).
  { rewrite <- (Qfloor_Z k). now apply Qfloor_resp_le. }
  destruct (Z.eq_dec (Qfloor q) k) as [E|Hne].
  - assert (C : Qcompare (q - inject_Z (Qfloor q)) (1 # 2) = Lt).
    { apply (proj1 (Qlt_alt _ _)). rewrite E in *. lra. }
    rewrite C. lia.
  - destruct (Qcompare (q - inject_Z (Qfloor q)) (1 # 2)); [|lia|lia].
    destruct (Z.even (Qfloor q)); lia.
Qed.

Lemma py_round_exact (q : Q) (k : Z) : q == inject_Z k -> py_round q = k.
Proof.
  intros H. apply py_round_near; lra.
Qed.

(** [round] gives at least 1 exactly above one half. *)
Lemma py_round_pos_iff (q : Q) : (0 < py_round q)%Z <-> 1 # 2 < q.
Proof.
  unfold py_round. cbv zeta.
  pose proof (Qfloor_le q) as F1. pose proof (Qlt_floor q) as F2.
  rewrite inject_Z_plus in F2. change (inject_Z 1) with 1 in F2.
  destruct (Z.lt_trichotomy (Qfloor q) 0) as [Hn|[Hz|Hp]].
  - assert (Hq : inject_Z (Qfloor q) <= inject_Z (-1))
      by (rewrite <- Zle_Qle; lia).
    change (inject_Z (-1)) with (-1) in Hq.
    split; [|intros; lra].
    destruct (Qcompare _ _); [destruct (Z.even _)| |]; lia.
  - rewrite Hz in *. change (inject_Z 0) with 0 in *.
    destruct (Qcompare (q - 0) (1 # 2)) eqn:C.
    + apply Qeq_alt in C. cbn [Z.even]. split; [lia | intros; lra].
    + apply Qlt_alt in C. split; [lia | intros; lra].
    + apply Qgt_alt in C. split; [intros; lra | lia].
  - assert (Hq : inject_Z 1 <= inject_Z (Qfloor q))
      by (rewrite <- Zle_Qle; lia).
    change (inject_Z 1) with 1 in Hq.
    split; [intros; lra|]. intros _.
    destruct (Qcompare _ _); [destruct (Z.even _)| |]; lia.
Qed.

(** Scaling an extent by the smaller ratio does not exceed the target, and
    is the target itself along the axis that gave the ratio. *)
Lemma min_float_cases (a b : Q) :
  min_float a b <= a /\ min_float a b <= b /\
  (min_float a b = a \/ min_float a b = b).
Proof.
  unfold min_float. destruct (Qle_bool a b) eqn:E.
  - apply Qle_bool_iff in E. split; [apply Qle_refl|]. split; [exact E | now left].
  - assert (E' : b <= a).
    { destruct (Qlt_le_dec b a) as [L|L]; [now apply Qlt_le_weak|].
      apply Qle_bool_iff in L. congruence. }
    split; [exact E'|]. split; [apply Qle_refl | now right].
Qed.

Lemma min_float_fits (h w height width : Z) :
  (0 < h)%Z -> (0 < w)%Z ->
  let ratio := min_float (inject_Z height / inject_Z h)
                         (inject_Z width / inject_Z w) in
  inject_Z w * ratio <= inject_Z width /\
  inject_Z h * ratio <= inject_Z height /\
  (inject_Z w * ratio == inject_Z width \/
   inject_Z h * ratio == inject_Z height).
Proof.
  intros Hh Hw ratio.
  assert (Qh : 0 < inject_Z h).
  { change 0 with (inject_Z 0). rewrite <- Zlt_Qlt. exact Hh. }
  assert (Qw : 0 < inject_Z w).
  { change 0 with (inject_Z 0). rewrite <- Zlt_Qlt. exact Hw. }
  assert (Eh : inject_Z h * (inject_Z height / inject_Z h) == inject_Z height)
    by (field; lra).
  assert (Ew : inject_Z w * (inject_Z width / inject_Z w) == inject_Z width)
    by (field; lra).
  destruct (min_float_cases (inject_Z height / inject_Z h)
                            (inject_Z width / inject_Z w))
    as (La & Lb & Hc).
  fold ratio in La, Lb, Hc.
  split; [|split].
  - rewrite <- Ew. apply Qmult_le_l; assumption.
  - rewrite <- Eh. apply Qmult_le_l; assumption.
  - destruct Hc as [->| ->]; [right; exact Eh | left; exact Ew].
Qed.

Lemma or_comm_l (A B : Prop) : A \/ B -> B \/ A.
Proof. tauto. Qed.

(** An extent [x] scaled by a ratio that is the smaller of [X/x] and
    [Y/y] rounds to at least 1 exactly when the target [X] is positive and
    the other extent [y] is less than [2 * x * Y]. *)
Lemma scaled_extent_pos (x y X Y : Z) (ratio : Q) :
  (0 < x)%Z -> (0 < y)%Z ->
  ratio <= inject_Z X / inject_Z x -> ratio <= inject_Z Y / inject_Z y ->
  (ratio = inject_Z X / inject_Z x \/ ratio = inject_Z Y / inject_Z y) ->
  (0 < py_round (inject_Z x * ratio))%Z
  <-> (0 < X)%Z /\ (y < 2 * x * Y)%Z.
Proof.
  intros Hx Hy La Lb Hc. rewrite py_round_pos_iff.
  assert (Qx : 0 < inject_Z x).
  { change 0 with (inject_Z 0). rewrite <- Zlt_Qlt. exact Hx. }
  assert (Qy : 0 < inject_Z y).
  { change 0 with (inject_Z 0). rewrite <- Zlt_Qlt. exact Hy. }
  set (s := inject_Z X / inject_Z x) in *.
  set (t := inject_Z Y / inject_Z y) in *.
  assert (Es : inject_Z x * s == inject_Z X) by (subst s; field; lra).
  assert (Et : t * inject_Z y == inject_Z Y) by (subst t; field; lra).
  assert (ZX : (0 < X)%Z <-> 1 # 2 < inject_Z X).
  { split; intros H.
    - assert (inject_Z 1 <= inject_Z X) by (rewrite <- Zle_Qle; lia).
      change (inject_Z 1) with 1 in *. lra.
    - rewrite Zlt_Qlt. change (inject_Z 0) with 0. lra. }
  assert (ZY : (y < 2 * x * Y)%Z <-> 1 # 2 < inject_Z x * t).
  { rewrite Zlt_Qlt. inj_arith. rewrite <- Et. split; intros H; nra. }
  rewrite ZX, ZY. rewrite <- Es.
  assert (M1 : inject_Z x * ratio <= inject_Z x * s)
    by (apply Qmult_le_l; assumption).
  assert (M2 : inject_Z x * ratio <= inject_Z x * t)
    by (apply Qmult_le_l; assumption).
  split.
  - intros H. split; lra.
  - intros [H1 H2]. destruct Hc as [->| ->]; assumption.
Qed.

Lemma Qfloor_nonneg (q : Q) : 0 <= q -> (0 <= Qfloor q)%Z.
Proof.
  intros H. rewrite <- (Qfloor_Z 0). now apply Qfloor_resp_le.
Qed.

Lemma Qceiling_nonneg (q : Q) : 0 <= q -> (0 <= Qceiling q)%Z.
Proof.
  intros H. rewrite <- (Qceiling_Z 0). now apply Qceiling_resp_le.
Qed.

(** Both resized extents are at least 1 exactly when the target is
    positive and the image is not too elongated for it. *)
Lemma new_shape_pos_iff (h w height width : Z) :
  (0 < h)%Z -> (0 < w)%Z ->
  let ratio := min_float (inject_Z height / inject_Z h)
                         (inject_Z width / inject_Z w) in
  (0 < py_round (inject_Z w * ratio) /\ 0 < py_round (inject_Z h * ratio))%Z
  <-> (0 < height /\ 0 < width /\ h < 2 * w * height /\ w < 2 * h * width)%Z.
Proof.
  intros Hh Hw ratio.
  destruct (min_float_cases (inject_Z height / inject_Z h)
                            (inject_Z width / inject_Z w))
    as (La & Lb & Hc).
  fold ratio in La, Lb, Hc.
  rewrite (@scaled_extent_pos w h width height ratio Hw Hh Lb La
             (or_comm_l Hc)).
  rewrite (@scaled_extent_pos h w height width ratio Hh Hw La Lb Hc).
  tauto.
Qed.

(** [letterbox] in closed form.  The pads are never negative and one of
    them is 0; the call returns, with an image of the target size, when
    both resized extents are at least 1, and [cv2.resize] refuses the size
    otherwise. *)
Lemma letterbox_closed_form (h w height width : Z) :
  (0 < h)%Z -> (0 < w)%Z ->
  let ratio := min_float (inject_Z height / inject_Z h)
                         (inject_Z width / inject_Z w) in
  let nw := py_round (inject_Z w * ratio) in
  let nh := py_round (inject_Z h * ratio) in
  let dw := (inject_Z width - inject_Z nw) / 2 in
  let dh := (inject_Z height - inject_Z nh) / 2 in
  (0 <= dw /\ 0 <= dh /\ (dw == 0 \/ dh == 0)) /\
  (left (pads_of dw dh) = Qfloor dw /\ right (pads_of dw dh) = Qceiling dw /\
   top (pads_of dw dh) = Qfloor dh /\ bottom (pads_of dw dh) = Qceiling dh) /\
  ((0 < nw)%Z -> (0 < nh)%Z ->
   letterbox (h, w) height width = Ok ((height, width), ratio, dw, dh)) /\
  ((nw <= 0)%Z \/ (nh <= 0)%Z ->
   letterbox (h, w) height width = Raise Cv2Error).
Proof.
  intros Hh Hw ratio nw nh dw dh.
  destruct (@min_float_fits h w height width Hh Hw) as (Fw & Fh & Fe).
  fold ratio in Fw, Fh, Fe.
  assert (Lw : (nw <= width)%Z) by (apply py_round_le; exact Fw).
  assert (Lh : (nh <= height)%Z) by (apply py_round_le; exact Fh).
  assert (Qw : inject_Z nw <= inject_Z width) by (now rewrite <- Zle_Qle).
  assert (Qh : inject_Z nh <= inject_Z height) by (now rewrite <- Zle_Qle).
  assert (Dw : 0 <= dw) by (subst dw; apply Qle_shift_div_l; lra).
  assert (Dh : 0 <= dh) by (subst dh; apply Qle_shift_div_l; lra).
  assert (Ew : dw == inject_Z (width - nw) / 2).
  { subst dw. inj_arith. reflexivity. }
  assert (Eh : dh == inject_Z (height - nh) / 2).
  { subst dh. inj_arith. reflexivity. }
  destruct (@half_int_pads (width - nw) dw Ew) as (L & R & Sw).
  destruct (@half_int_pads (height - nh) dh Eh) as (T & B & Sh).
  assert (E1 : (h =? 0)%Z = false) by (apply Z.eqb_neq; lia).
  assert (E2 : (w =? 0)%Z = false) by (apply Z.eqb_neq; lia).
  assert (E3 : (h <=? 0)%Z = false) by (apply Z.leb_gt; lia).
  assert (E4 : (w <=? 0)%Z = false) by (apply Z.leb_gt; lia).
  assert (Step : letterbox (h, w) height width
                 = (img <- cv2_resize (h, w) (nw, nh) ;;
                    img <- cv2_copyMakeBorder img (pads_of dw dh) ;;
                    Ok (img, ratio, dw, dh))).
  { unfold letterbox, ratio_of. cbn [fst snd].
    rewrite E1, E2. reflexivity. }
  split; [|split; [|split]].
  - split; [exact Dw|]. split; [exact Dh|].
    destruct Fe as [Fe|Fe].
    + left. subst dw. unfold nw.
      rewrite (@py_round_exact _ _ Fe). field.
    + right. subst dh. unfold nh.
      rewrite (@py_round_exact _ _ Fe). field.
  - unfold pads_of. cbn [top bottom left right]. auto.
  - intros Pw Ph. rewrite Step.
    unfold cv2_resize. cbn [fst snd].
    rewrite E3, E4.
    assert (E5 : (nw <=? 0)%Z = false) by (apply Z.leb_gt; lia).
    assert (E6 : (nh <=? 0)%Z = false) by (apply Z.leb_gt; lia).
    rewrite E5, E6. cbn [orb bind].
    unfold cv2_copyMakeBorder, pads_of. cbn [fst snd top bottom left right].
    rewrite L, R, T, B.
    pose proof (Qfloor_nonneg Dw) as N1. pose proof (Qceiling_nonneg Dw) as N2.
    pose proof (Qfloor_nonneg Dh) as N3. pose proof (Qceiling_nonneg Dh) as N4.
    assert (E7 : (Qfloor dh <? 0)%Z = false) by (apply Z.ltb_ge; lia).
    assert (E8 : (Qceiling dh <? 0)%Z = false) by (apply Z.ltb_ge; lia).
    assert (E9 : (Qfloor dw <? 0)%Z = false) by (apply Z.ltb_ge; lia).
    assert (E10 : (Qceiling dw <? 0)%Z = false) by (apply Z.ltb_ge; lia).
    rewrite E7, E8, E9, E10. cbn [orb].
    replace (nh + Qfloor dh + Qceiling dh)%Z with height by lia.
    replace (nw + Qfloor dw + Qceiling dw)%Z with width by lia.
    reflexivity.
  - intros Hn. rewrite Step.
    unfold cv2_resize. cbn [fst snd].
    rewrite E3, E4. cbn [orb].
    destruct Hn as [Hn|Hn].
    + assert (E5 : (nw <=? 0)%Z = true) by (apply Z.leb_le; lia).
      rewrite E5. reflexivity.
    + assert (E6 : (nh <=? 0)%Z = true) by (apply Z.leb_le; lia).
      rewrite E6, orb_true_r. reflexivity.
Qed.

End FitFacts.

(** C6 (amended).  For an image of positive height [h] and width [w] and a
    positive target for which the image is not too elongated
    ([h < 2 * w * height] and [w < 2 * h * width], that is, both resized
    extents round to at least 1), [letterbox] returns a [ratio] that is the
    smaller of [height/h] and [width/w], pads [dw], [dh] with
    [dw*2 + round(w*ratio) = width] and [dh*2 + round(h*ratio) = height],
    an image of exactly [height] rows and [width] columns, and integer
    borders that are the floor (left, top) and the ceiling (right, bottom)
    of the pads.  For any other target or image of positive size the call
    does not return: [cv2.resize] refuses the size. *)
Theorem letterbox_exact (h w height width : Z) :
  (0 < h)%Z -> (0 < w)%Z ->
  ((0 < height)%Z -> (0 < width)%Z ->
   (h < 2 * w * height)%Z -> (w < 2 * h * width)%Z ->
   exists ratio dw dh,
     Letterbox.letterbox (h, w) height width
     = Ok ((height, width), ratio, dw, dh) /\
     ratio <= inject_Z height / inject_Z h /\
     ratio <= inject_Z width / inject_Z w /\
     (ratio = inject_Z height / inject_Z h \/
      ratio = inject_Z width / inject_Z w) /\
     dw * 2 + inject_Z (Letterbox.py_round (inject_Z w * ratio))
     == inject_Z width /\
     dh * 2 + inject_Z (Letterbox.py_round (inject_Z h * ratio))
     == inject_Z height /\
     Letterbox.left (Letterbox.pads_of dw dh) = Qfloor dw /\
     Letterbox.right (Letterbox.pads_of dw dh) = Qceiling dw /\
     Letterbox.top (Letterbox.pads_of dw dh) = Qfloor dh /\
     Letterbox.bottom (Letterbox.pads_of dw dh) = Qceiling dh) /\
  ((height <= 0 \/ width <= 0 \/ 2 * w * height <= h \/ 2 * h * width <= w)%Z ->
   Letterbox.letterbox (h, w) height width = Raise Cv2Error).
Proof.
  intros Hh Hw.
  pose proof (@new_shape_pos_iff h w height width Hh Hw) as Pos.
  destruct (@letterbox_closed_form h w height width Hh Hw)
    as (_ & (L & R & T & B) & Hok & Hno).
  destruct (min_float_cases (inject_Z height / inject_Z h)
                                      (inject_Z width / inject_Z w))
    as (La & Lb & Hc).
  cbv zeta in Pos, L, R, T, B, Hok, Hno.
  set (ratio := Letterbox.min_float (inject_Z height / inject_Z h)
                                    (inject_Z width / inject_Z w)) in *.
  set (nw := Letterbox.py_round (inject_Z w * ratio)) in *.
  set (nh := Letterbox.py_round (inject_Z h * ratio)) in *.
  split.
  - intros H1 H2 H3 H4.
    destruct (proj2 Pos (conj H1 (conj H2 (conj H3 H4)))) as [Pw Ph].
    exists ratio, ((inject_Z width - inject_Z nw) / 2),
      ((inject_Z height - inject_Z nh) / 2).
    split; [exact (Hok Pw Ph)|].
    split; [exact La|]. split; [exact Lb|]. split; [exact Hc|].
    split; [fold nw; field|]. split; [fold nh; field|].
    auto.
  - intros Hbad. apply Hno.
    destruct (Z_lt_le_dec 0 nw) as [Pw|Pw]; [|now left].
    destruct (Z_lt_le_dec 0 nh) as [Ph|Ph]; [|now right].
    destruct (proj1 Pos (conj Pw Ph)) as (H1 & H2 & H3 & H4). lia.
Qed.

(** The theorem at a 1080 by 1920 frame and the default 608 by 1088
    input. *)
Lemma letterbox_exact_witness :
  exists ratio dw dh,
    Letterbox.letterbox (1080, 1920)%Z 608 1088
    = Ok ((608, 1088)%Z, ratio, dw, dh) /\
    ratio <= inject_Z 608 / inject_Z 1080 /\
    ratio <= inject_Z 1088 / inject_Z 1920 /\
    (ratio = inject_Z 608 / inject_Z 1080 \/
     ratio = inject_Z 1088 / inject_Z 1920) /\
    dw * 2 + inject_Z (Letterbox.py_round (inject_Z 1920 * ratio))
    == inject_Z 1088 /\
    dh * 2 + inject_Z (Letterbox.py_round (inject_Z 1080 * ratio))
    == inject_Z 608 /\
    Letterbox.left (Letterbox.pads_of dw dh) = Qfloor dw /\
    Letterbox.right (Letterbox.pads_of dw dh) = Qceiling dw /\
    Letterbox.top (Letterbox.pads_of dw dh) = Qfloor dh /\
    Letterbox.bottom (Letterbox.pads_of dw dh) = Qceiling dh.
Proof.
  destruct (@letterbox_exact 1080 1920 608 1088 eq_refl eq_refl) as [Hok _].
  apply Hok; reflexivity.
Defined.

(** An image of 2000 rows and one column, at the default 608 by 1088
    input: the ratio is 0.304, the resized width [round(0.304)] is 0, and
    [cv2.resize] refuses the size; no image of the target size comes
    back. *)
Lemma letterbox_elongated_counterexample :
  Letterbox.ratio_of 2000 1 608 1088 = Ok (608 # 2000)
  /\ Letterbox.new_shape 2000 1 (608 # 2000) = (0, 608)%Z
  /\ Letterbox.letterbox (2000, 1)%Z 608 1088 = Raise Cv2Error.
Proof.
  repeat split; vm_compute; reflexivity.
Qed.

(** ** random_affine *)

Section AffineFacts.

Import RandomAffine AffineSpec.

Local Open Scope R_scope.

Lemma Rltb_true_iff (x y : R) : Rltb x y = true <-> x < y.
Proof.
  unfold Rltb. destruct (Rlt_dec x y); split; intros H;
    try reflexivity; try assumption; try discriminate; contradiction.
Qed.

Lemma Rltb_false_iff (x y : R) : Rltb x y = false <-> ~ x < y.
Proof.
  unfold Rltb. destruct (Rlt_dec x y); split; intros H;
    try reflexivity; try assumption; try discriminate; contradiction.
Qed.

Lemma div_lt_iff (a d c : R) : 0 < d -> (a / d < c <-> a < c * d).
Proof.
  intros Hd. split; intros H.
  - apply Rmult_lt_compat_r with (r := d) in H; [|exact Hd].
    replace (a / d * d) with a in H by (field; lra). exact H.
  - apply Rmult_lt_reg_r with d; [exact Hd|].
    replace (a / d * d) with a by (field; lra). exact H.
Qed.

Lemma lt_div_iff (a d c : R) : 0 < d -> (c < a / d <-> c * d < a).
Proof.
  intros Hd. split; intros H.
  - apply Rmult_lt_compat_r with (r := d) in H; [|exact Hd].
    replace (a / d * d) with a in H by (field; lra). exact H.
  - apply Rmult_lt_reg_r with d; [exact Hd|].
    replace (a / d * d) with a by (field; lra). exact H.
Qed.

Lemma eps_bounds : 0 < eps < 1.
Proof.
  unfold eps.
  assert (H : 1 < 10 ^ 16) by (apply Rlt_pow_R1; [lra | lia]).
  split.
  - apply Rinv_0_lt_compat. lra.
  - rewrite <- Rinv_1. apply Rinv_lt_contravar; lra.
Qed.

Variables (height width : Z).
Variables (degrees translate scale shear : R * R).
Variable u : Draws.

Local Abbreviation warped' :=
  (warped height width degrees translate scale shear u).
Local Abbreviation keep' := (keep height width degrees translate scale shear u).
Local Abbreviation moved' := (moved height width degrees translate scale shear u).
Local Abbreviation random_affine' :=
  (random_affine height width degrees translate scale shear u).
Local Abbreviation M' := (M height width degrees translate scale shear u).

(** From 1 on a float64, and from [2^-29] on a float32, absorbs the
    [1e-16]. *)
Lemma add_eps64_large (x : R) : 1 <= x -> add_eps64 x = x.
Proof.
  intros H. unfold add_eps64.
  replace (Rltb x 1) with false; [reflexivity|].
  symmetry. apply Rltb_false_iff. lra.
Qed.

Lemma add_eps32_large (x : R) : / 2 ^ 29 <= x -> add_eps32 x = x.
Proof.
  intros H. unfold add_eps32.
  replace (Rltb x (/ 2 ^ 29)) with false; [reflexivity|].
  symmetry. apply Rltb_false_iff. lra.
Qed.

Lemma tiny_bound : 0 < / 2 ^ 29 < 1.
Proof.
  assert (H : 1 < 2 ^ 29) by (apply Rlt_pow_R1; [lra | lia]).
  split.
  - apply Rinv_0_lt_compat. lra.
  - rewrite <- Rinv_1. apply Rinv_lt_contravar; lra.
Qed.

(** The mask in words: a box wider and taller than 4 pixels has nothing
    added to the denominators of its aspect ratios. *)
Lemma keep_iff (t : Target) :
  keep' t = true <->
  let '(a1, b1, a2, b2) := warped' t in
  4 < a2 - a1 /\ 4 < b2 - b1 /\
  1 / 10 < (a2 - a1) * (b2 - b1) / add_eps32 (area0 t) /\
  Rmax ((a2 - a1) / (b2 - b1)) ((b2 - b1) / (a2 - a1)) < 10.
Proof.
  unfold keep. destruct (warped' t) as [[[a1 b1] a2] b2].
  rewrite !andb_true_iff, !Rltb_true_iff. split.
  - intros (((Hw & Hh) & Ha) & Hr).
    rewrite !add_eps64_large in Hr by lra. tauto.
  - intros (Hw & Hh & Ha & Hr).
    rewrite !add_eps64_large by lra. tauto.
Qed.

(** The clipped box, coordinate by coordinate. *)
Lemma warped_clipped (t : Target) (e1 f1 e2 f2 : R) :
  reduce degrees u (envelope height width degrees translate scale shear u t)
  = (e1, f1, e2, f2) ->
  warped' t = (Rmin (Rmax e1 0) (IZR width), Rmin (Rmax f1 0) (IZR height),
               Rmin (Rmax e2 0) (IZR width), Rmin (Rmax f2 0) (IZR height)).
Proof.
  intros E. unfold warped. rewrite E. reflexivity.
Qed.

Lemma random_affine_in (targets : list Target) (t' : Target) :
  In t' (fst (random_affine' targets)) <->
  exists t, In t targets /\ keep' t = true /\ t' = moved' t.
Proof.
  unfold random_affine. destruct targets as [|t0 rest].
  - simpl. split; [intros [] | intros (t & [] & _)].
  - cbn [fst]. rewrite in_map_iff. split.
    + intros (t & E & Hin). apply filter_In in Hin. destruct Hin as [Hin Hk].
      exists t. auto.
    + intros (t & Hin & Hk & E). exists t. split; [auto|].
      apply filter_In. auto.
Qed.

(** *** The identity warp *)

Hypothesis no_rotation : angle degrees u = 0.
Hypothesis unit_zoom : zoom scale u = 1.
Hypothesis no_shift_x : Trans height width translate u 0%nat 2%nat = 0.
Hypothesis no_shift_y : Trans height width translate u 1%nat 2%nat = 0.
Hypothesis no_shear_x : shear_x shear u = 0.
Hypothesis no_shear_y : shear_y shear u = 0.

Lemma radians_zero : radians_of (angle degrees u) = 0.
Proof. rewrite no_rotation. unfold radians_of. lra. Qed.

Lemma M_identity :
  M' 0%nat 0%nat = 1 /\ M' 0%nat 1%nat = 0 /\ M' 0%nat 2%nat = 0 /\
  M' 1%nat 0%nat = 0 /\ M' 1%nat 1%nat = 1 /\ M' 1%nat 2%nat = 0.
Proof.
  unfold M, matmul.
  assert (S01 : Shear shear u 0%nat 1%nat = 0).
  { unfold Shear. rewrite no_shear_x.
    replace (0 * PI / 180) with 0 by lra. apply tan_0. }
  assert (S10 : Shear shear u 1%nat 0%nat = 0).
  { unfold Shear. rewrite no_shear_y.
    replace (0 * PI / 180) with 0 by lra. apply tan_0. }
  rewrite S01, S10, no_shift_x, no_shift_y.
  unfold Rot, getRotationMatrix2D. rewrite radians_zero, unit_zoom.
  rewrite sin_0, cos_0.
  unfold Shear, Trans, eye. cbn [Nat.eqb].
  repeat split; lra.
Qed.

Lemma warp_point_identity (p : R * R) :
  warp_point height width degrees translate scale shear u p = p.
Proof.
  unfold warp_point.
  destruct M_identity as (E00 & E01 & E02 & E10 & E11 & E12).
  rewrite E00, E01, E02, E10, E11, E12. destruct p as [x y]. cbn [fst snd].
  f_equal; lra.
Qed.

Lemma reduction_identity : reduction degrees u = 1.
Proof.
  unfold reduction. rewrite radians_zero, sin_0, cos_0, Rabs_R0, Rabs_R1.
  rewrite Rmax_right by lra. apply sqrt_1.
Qed.

(** Under the identity warp a box within the image comes back as it is. *)
Lemma warped_identity (t : Target) :
  in_bounds height width t -> warped' t = (x1 t, y1 t, x2 t, y2 t).
Proof.
  intros (Hx0 & Hx & Hxw & Hy0 & Hy & Hyh).
  unfold warped, envelope. rewrite !warp_point_identity. cbn [fst snd].
  unfold min4, max4.
  rewrite (Rmin_left (x1 t) (x2 t)) by lra.
  rewrite (Rmin_left (y1 t) (y2 t)) by lra.
  rewrite (Rmin_right (y2 t) (y1 t)) by lra.
  rewrite (Rmax_right (x1 t) (x2 t)) by lra.
  rewrite (Rmax_right (y1 t) (y2 t)) by lra.
  rewrite (Rmax_left (y2 t) (y1 t)) by lra.
  rewrite Rmin_left, Rmin_left, Rmax_left, Rmax_left by lra.
  unfold reduce. rewrite reduction_identity.
  unfold clip_box, np_clip.
  replace ((x2 t + x1 t) / 2 - (x2 t - x1 t) * 1 / 2) with (x1 t) by field.
  replace ((y2 t + y1 t) / 2 - (y2 t - y1 t) * 1 / 2) with (y1 t) by field.
  replace ((x2 t + x1 t) / 2 + (x2 t - x1 t) * 1 / 2) with (x2 t) by field.
  replace ((y2 t + y1 t) / 2 + (y2 t - y1 t) * 1 / 2) with (y2 t) by field.
  rewrite !Rmax_left by lra. rewrite !Rmin_left by lra. reflexivity.
Qed.

Lemma moved_identity (t : Target) :
  in_bounds height width t -> moved' t = t.
Proof.
  intros H. unfold moved. rewrite (warped_identity H). now destruct t.
Qed.

Lemma keep_identity (t : Target) :
  in_bounds height width t -> keep' t = well_shaped t.
Proof.
  intros H. unfold keep, well_shaped. rewrite (warped_identity H).
  cbv zeta. fold (area0 t).
  destruct (Rltb 4 (x2 t - x1 t)) eqn:Ew; [|reflexivity].
  destruct (Rltb 4 (y2 t - y1 t)) eqn:Eh; [|reflexivity].
  apply Rltb_true_iff in Ew, Eh. cbn [andb].
  destruct tiny_bound as [T0 T1].
  assert (Ha : 16 < area0 t) by (unfold area0; nra).
  rewrite !add_eps64_large by lra. rewrite add_eps32_large by lra.
  replace (Rltb (1 / 10) (area0 t / area0 t)) with true; [reflexivity|].
  symmetry. apply Rltb_true_iff.
  apply lt_div_iff; lra.
Qed.

(** Under the identity warp, boxes within the image are kept as they are
    exactly when they pass the size and aspect tests. *)
Lemma random_affine_identity (targets : list Target) :
  (forall t, In t targets -> in_bounds height width t) ->
  fst (random_affine' targets) = filter well_shaped targets.
Proof.
  intros Hb. unfold random_affine. destruct targets as [|t0 rest];
    [reflexivity|]. cbn [fst].
  rewrite (filter_ext_in keep' well_shaped)
    by (intros t Ht; apply keep_identity; auto).
  rewrite <- (map_id (filter well_shaped (t0 :: rest))) at 2.
  apply map_ext_in. intros t Ht. apply filter_In in Ht.
  apply moved_identity. apply Hb. tauto.
Qed.

End AffineFacts.

Section AffineSamples.

Import RandomAffine AffineSpec.

Local Open Scope R_scope.

Lemma well_shaped_true (t : Target) :
  4 < x2 t - x1 t -> 4 < y2 t - y1 t ->
  x2 t - x1 t < 10 * (y2 t - y1 t) -> y2 t - y1 t < 10 * (x2 t - x1 t) ->
  well_shaped t = true.
Proof.
  intros Hw Hh Hwh Hhw. unfold well_shaped. cbv zeta.
  rewrite !andb_true_iff, !Rltb_true_iff. repeat split; try assumption.
  apply Rmax_lub_lt; apply div_lt_iff; lra.
Qed.

Lemma well_shaped_thin (t : Target) :
  x2 t - x1 t <= 4 -> well_shaped t = false.
Proof.
  intros H. unfold well_shaped. cbv zeta.
  replace (Rltb 4 (x2 t - x1 t)) with false; [reflexivity|].
  symmetry. apply Rltb_false_iff. lra.
Qed.

(** A box at least 10 times as tall as it is wide fails the aspect
    test. *)
Lemma well_shaped_slim (t : Target) :
  0 < x2 t - x1 t -> 10 * (x2 t - x1 t) <= y2 t - y1 t ->
  well_shaped t = false.
Proof.
  intros Hw Hh. unfold well_shaped. cbv zeta.
  replace (Rltb (Rmax ((x2 t - x1 t) / (y2 t - y1 t))
                      ((y2 t - y1 t) / (x2 t - x1 t))) 10) with false;
    [now rewrite andb_false_r|].
  symmetry. apply Rltb_false_iff. intros H.
  assert (H2 : (y2 t - y1 t) / (x2 t - x1 t) < 10).
  { eapply Rle_lt_trans; [apply Rmax_r | exact H]. }
  rewrite div_lt_iff in H2 by exact Hw. lra.
Qed.

Lemma sample_in_bounds :
  in_bounds 100 100 big_box /\ in_bounds 100 100 thin_box.
Proof.
  unfold in_bounds, big_box, thin_box; cbn [x1 x2 y1 y2]. lra.
Qed.

Lemma slim_in_bounds : in_bounds 100 100 slim_box.
Proof.
  unfold in_bounds, slim_box; cbn [x1 x2 y1 y2]. lra.
Qed.

(** The sample ranges and draws give the identity warp. *)
Lemma sample_identity :
  angle no_turn centre = 0 /\ zoom unit_scale centre = 1 /\
  Trans 100 100 no_shift centre 0%nat 2%nat = 0 /\
  Trans 100 100 no_shift centre 1%nat 2%nat = 0 /\
  shear_x no_shear centre = 0 /\ shear_y no_shear centre = 0.
Proof.
  unfold angle, zoom, Trans, shear_x, shear_y, border, no_turn, unit_scale,
    no_shift, no_shear, centre.
  cbn [fst snd u_rot u_scale u_tx u_ty u_shx u_shy]. lra.
Qed.

End AffineSamples.




(** ** MotLoss *)

Lemma Rltb_true (x y : R) : (x < y)%R -> Rltb x y = true.
Proof.
  unfold Rltb. destruct (Rlt_dec x y); [reflexivity | contradiction].
Qed.

(** Evaluates the loss model on concrete inputs, real arithmetic left as
    it is written. *)
Ltac eval_loss :=
  cbv - [Rplus Rmult Rdiv Rminus Ropp Rinv exp IZR sqrt ln Rltb Rlt_dec].

Ltac run_forward :=
  unfold LossSpec.forward, MotLoss.forward; eval_loss;
  rewrite ?Rltb_true by lra; eval_loss.

Lemma exp_gt_1 (x : R) : (0 < x)%R -> (1 < exp x)%R.
Proof.
  intros H. rewrite <- exp_0. now apply exp_increasing.
Qed.

(** C2.  On a freshly constructed supervised module, one stage whose
    detection losses are 0 and whose identity loss is 1: [forward] returns
    [0.5 * (exp(-s_id) * exp(-s_id) * 1 + s_det + s_id)], the identity loss
    carrying two factors [exp(-s_id)], which is more than the combination
    with one factor. *)
Theorem total_loss_double_weight :
  exists m total lr hm wh off idv,
    LossSpec.fresh (LossSpec.base false "l1" 1) = Ok m /\
    LossSpec.forward m [LossSpec.stage_of 0 0 0 1] None LossSpec.batch
    = Ok (total, lr) /\
    od_get "hm" lr = Ok hm /\ od_get "wh" lr = Ok wh /\
    od_get "off" lr = Ok off /\ od_get "id" lr = Ok idv /\
    (hm = 0 /\ wh = 0 /\ off = 0 /\ idv = 1 /\
     total = (exp (- MotLoss.s_id m) * (exp (- MotLoss.s_id m) * 1)
              + MotLoss.s_det m + MotLoss.s_id m) * (5 / 10) /\
     LossSpec.spec_total (MotLoss.s_det m) (MotLoss.s_id m)
       (1 * hm + 1 / 10 * wh + 1 * off) idv < total)%R.
Proof.
  eexists. eexists. eexists. eexists. eexists. eexists. eexists.
  split; [unfold LossSpec.fresh, MotLoss.init; eval_loss; reflexivity|].
  split; [run_forward; reflexivity|].
  split; [eval_loss; reflexivity|].
  split; [eval_loss; reflexivity|].
  split; [eval_loss; reflexivity|].
  split; [eval_loss; reflexivity|].
  cbn [MotLoss.s_id MotLoss.s_det]. unfold LossSpec.spec_total.
  assert (He : (1 < exp (- - (105 / 100)))%R) by (apply exp_gt_1; lra).
  set (e := exp (- - (105 / 100))) in *.
  set (d := exp (- - (185 / 100))) in *.
  repeat split; try lra. nra.
Qed.

(** C3.  With two stages: the heatmap loss reported is the mean of the
    stage losses (1 and 1 give 1), but the supervised identity loss
    reported is their sum (1 and 1 give 2) and the self-supervised loss
    reported is that of the last stage (1 then 3 give 3). *)
Theorem identity_losses_not_stage_averaged :
  (exists m total lr hm idv,
      LossSpec.fresh (LossSpec.base false "l1" 2) = Ok m /\
      LossSpec.forward m [LossSpec.stage_of 1 0 0 1; LossSpec.stage_of 1 0 0 1]
                       None LossSpec.batch = Ok (total, lr) /\
      od_get "hm" lr = Ok hm /\ hm = 1%R /\
      od_get "id" lr = Ok idv /\ idv = 2%R) /\
  (exists m total lr hm ssv,
      LossSpec.fresh (LossSpec.base true "l1" 2) = Ok m /\
      LossSpec.forward m [LossSpec.stage_of 1 0 0 1; LossSpec.stage_of 1 0 0 3]
                       (Some [LossSpec.stage_of 0 0 0 0;
                              LossSpec.stage_of 0 0 0 0])
                       LossSpec.batch = Ok (total, lr) /\
      od_get "hm" lr = Ok hm /\ hm = 1%R /\
      od_get "nt_xent" lr = Ok ssv /\ ssv = 3%R).
Proof.
  split.
  - eexists. eexists. eexists. eexists. eexists.
    split; [unfold LossSpec.fresh, MotLoss.init; eval_loss; reflexivity|].
    split; [run_forward; reflexivity|].
    split; [eval_loss; reflexivity|]. split; [lra|].
    split; [eval_loss; reflexivity|]. lra.
  - eexists. eexists. eexists. eexists. eexists.
    split; [unfold LossSpec.fresh, MotLoss.init; eval_loss; reflexivity|].
    split; [run_forward; reflexivity|].
    split; [eval_loss; reflexivity|]. split; [lra|].
    split; [eval_loss; reflexivity|]. lra.
Qed.

(** C9.  For positive [reid_dim] and [nID] (the dimensions of the
    classifier, which is built first), an unsupported self-supervised loss
    name is refused by [__init__] with [ValueError] when [unsup] is set; a
    size-loss configuration that resolves to no criterion
    ([reg_loss = 'l2'] without [dense_wh], [norm_wh] or [cat_spec_wh]) is
    accepted by [__init__], and the module it returns raises [TypeError]
    in the first [forward]. *)
Theorem size_loss_checked_only_in_forward :
  (forall o states,
      (0 < MotLoss.reid_dim o)%Z -> (0 < MotLoss.nID o)%Z ->
      MotLoss.unsup o = true ->
      MotLoss.unsup_loss o <> "nt_xent"%string ->
      MotLoss.unsup_loss o <> "triplet_all"%string ->
      MotLoss.unsup_loss o <> "triplet_hard"%string ->
      MotLoss.init o states = Raise ValueError) /\
  (exists m,
      LossSpec.fresh (LossSpec.base false "l2" 1) = Ok m /\
      MotLoss.crit_reg m = None /\ MotLoss.crit_wh m = None /\
      LossSpec.forward m [LossSpec.stage_of 0 0 0 1] None LossSpec.batch
      = Raise TypeError).
Proof.
  split.
  - intros o states Hr Hn Hu H1 H2 H3.
    unfold MotLoss.init, MotLoss.make_self_sup, MotLoss.nn_Linear.
    assert (E1 : (MotLoss.reid_dim o <? 0)%Z = false) by (apply Z.ltb_ge; lia).
    assert (E2 : (MotLoss.nID o <? 0)%Z = false) by (apply Z.ltb_ge; lia).
    apply String.eqb_neq in H1, H2, H3.
    rewrite E1, E2, Hu, H1, H2, H3. reflexivity.
  - eexists.
    split; [unfold LossSpec.fresh, MotLoss.init; eval_loss; reflexivity|].
    split; [reflexivity|]. split; [reflexivity|].
    run_forward. reflexivity.
Qed.

(** * Further properties of the code *)

(** ** JointDataset: the domain of the flat index *)

Section IndexDomain.

Import JointDataset.

Variable label_path_of : string -> string.
Variable loadtxt : string -> list LabelRow.

Lemma zsum_lens_firstn_nonneg (paths : odict (list string)) (i : nat) :
  (0 <= zsum (firstn i (lens_of paths)))%Z.
Proof.
  unfold lens_of. revert i.
  induction paths as [|[k f] l IH]; intros [|i]; simpl; try lia.
  specialize (IH i). lia.
Qed.

Lemma zsum_lens_firstn_le (paths : odict (list string)) (i : nat) :
  (zsum (firstn i (lens_of paths)) <= zsum (lens_of paths))%Z.
Proof.
  pose proof zsum_nonneg_lens as Hnn. unfold lens_of in *. revert i.
  induction paths as [|[k f] l IH]; intros [|i]; simpl; try lia.
  - specialize (Hnn l). lia.
  - specialize (IH i). lia.
Qed.

(** Every start index is the sample count of the datasets before it. *)
Lemma cds_entry (o : Opt) (paths : odict (list string)) (i : nat) (c : Z) :
  od_wf paths ->
  nth_error (cds (init label_path_of loadtxt o paths)) i = Some c ->
  c = zsum (firstn i (lens_of paths)) /\ (i < length paths)%nat.
Proof.
  intros Hwf H.
  destruct (init_wf label_path_of loadtxt o Hwf)
    as (_ & _ & _ & _ & _ & Ecds & _).
  rewrite Ecds in H.
  assert (Hi : (i < length (lens_of paths))%nat).
  { rewrite <- (prefix_sums_length (lens_of paths) 0).
    apply nth_error_Some. congruence. }
  destruct (nth_error (lens_of paths) i) as [v|] eqn:Ev;
    [|apply nth_error_None in Ev; lia].
  rewrite (nth_error_prefix_sums _ 0 _ Ev) in H. inversion H.
  rewrite lens_of_length in Hi. split; [lia | exact Hi].
Qed.

(** A flat index within range is resolved to an existing sample. *)
Lemma sample_paths_in_range (o : Opt) (paths : odict (list string)) (idx : Z) :
  od_wf paths ->
  (0 <= idx < nF (init label_path_of loadtxt o paths))%Z ->
  is_ok (sample_paths (init label_path_of loadtxt o paths) idx) = true.
Proof.
  intros Hwf Hidx.
  destruct (@resolve_spec label_path_of loadtxt o paths idx Hwf Hidx)
    as (i & ds & files & Hnth & Hcds & [Hlo Hhi] & Hlast & Hres).
  destruct (init_wf label_path_of loadtxt o Hwf) as (Eimg & Elbl & _).
  set (start := zsum (firstn i (lens_of paths))) in *.
  assert (Hpos : (Z.to_nat (idx - start) < length files)%nat) by lia.
  destruct (nth_error files (Z.to_nat (idx - start))) as [img|] eqn:Ei;
    [|apply nth_error_None in Ei; lia].
  unfold sample_paths. rewrite Hres. simpl.
  rewrite Eimg, Elbl. unfold od_get.
  rewrite (@od_find_nth _ paths i ds files Hwf Hnth). simpl.
  replace (idx - start)%Z with (Z.of_nat (Z.to_nat (idx - start))) by lia.
  rewrite (py_index_in _ _ Ei). simpl.
  erewrite od_find_nth;
    [ | unfold od_wf; rewrite od_keys_map; exact Hwf
      | exact (map_nth_error (fun '(k, a) => (k, map label_path_of a))
                             _ _ Hnth) ].
  simpl. rewrite (py_index_in _ _ (map_nth_error label_path_of _ _ Ei)).
  reflexivity.
Qed.

(** Beyond the last sample the scan stops on the last dataset, whose file
    list is then indexed past its end. *)
Lemma sample_paths_beyond (o : Opt) (paths : odict (list string)) (idx : Z) :
  od_wf paths -> paths <> [] ->
  (nF (init label_path_of loadtxt o paths) <= idx)%Z ->
  sample_paths (init label_path_of loadtxt o paths) idx = Raise IndexError.
Proof.
  intros Hwf Hne Hbig.
  set (self := init label_path_of loadtxt o paths) in *.
  destruct (init_wf label_path_of loadtxt o Hwf)
    as (Eimg & Elbl & _ & _ & _ & Ecds & EnF & _).
  fold self in Eimg, Elbl, Ecds, EnF.
  unfold sample_paths, resolve.
  assert (Hlen : (length (cds self) <= length (od_keys (label_files self)))%nat).
  { rewrite Elbl, Ecds, od_keys_map.
    rewrite prefix_sums_length, lens_of_length. unfold od_keys.
    now rewrite length_map. }
  destruct (@resolve_fold idx (od_keys (label_files self)) (cds self) Hlen)
    as [[_ Hall]|(i & c & k & Hc & Hk & Hle & Hlast & E)].
  - exfalso. rewrite Ecds in Hall.
    pose proof (zsum_nonneg_lens paths).
    destruct paths as [|[k0 f0] rest]; [congruence|].
    specialize (Hall 0%Z (or_introl eq_refl)). lia.
  - rewrite E. cbn [bind].
    destruct (@cds_entry o paths i c Hwf Hc) as [-> Hi].
    assert (HS : S i = length paths).
    { destruct (Nat.lt_ge_cases (S i) (length paths)) as [Hs|Hs]; [|lia].
      exfalso.
      destruct (nth_error (cds self) (S i)) as [c'|] eqn:Ec'.
      - destruct (@cds_entry o paths (S i) c' Hwf Ec') as [-> _].
        specialize (Hlast (S i) _ (Nat.lt_succ_diag_r i) Ec').
        pose proof (zsum_lens_firstn_le paths (S i)). lia.
      - apply nth_error_None in Ec'.
        rewrite Ecds, prefix_sums_length, lens_of_length in Ec'. lia. }
    destruct (nth_error paths i) as [[ds files]|] eqn:En;
      [|apply nth_error_None in En; lia].
    assert (Ek : k = ds).
    { rewrite Elbl, od_keys_map in Hk. unfold od_keys in Hk.
      rewrite (map_nth_error fst _ _ En) in Hk. simpl in Hk. congruence. }
    subst k. rewrite Eimg. unfold od_get_opt, od_get.
    rewrite (@od_find_nth _ paths i ds files Hwf En). cbn [bind].
    assert (El : nth_error (lens_of paths) i
                 = Some (Z.of_nat (length files))).
    { unfold lens_of. now rewrite (map_nth_error _ _ _ En). }
    pose proof (zsum_firstn_S _ _ El) as HSum.
    rewrite HS, firstn_all2 in HSum by (rewrite lens_of_length; lia).
    rewrite py_index_out by lia. reflexivity.
Qed.

(** X1.  [__getitem__] resolves a flat index exactly when it lies in
    [0, nF): a negative index does not wrap around, it leaves [ds = None]
    and raises [KeyError]; an index at or beyond [nF] selects the last
    dataset and raises [IndexError] on its file list ([KeyError] when no
    dataset is registered). *)
Theorem flat_index_domain (o : Opt) (paths : odict (list string)) (idx : Z) :
  od_wf paths ->
  let self := init label_path_of loadtxt o paths in
  ((0 <= idx < nF self)%Z -> is_ok (sample_paths self idx) = true) /\
  ((idx < 0)%Z -> sample_paths self idx = Raise KeyError) /\
  ((nF self <= idx)%Z ->
   sample_paths self idx
   = Raise (match paths with [] => KeyError | _ => IndexError end)).
Proof.
  intros Hwf self. split; [|split].
  - intros H. now apply sample_paths_in_range.
  - intros Hneg. unfold sample_paths, resolve.
    assert (Hlen : (length (cds self) <= length (od_keys (label_files self)))%nat).
    { destruct (init_wf label_path_of loadtxt o Hwf)
        as (_ & Elbl & _ & _ & _ & Ecds & _).
      fold self in Elbl, Ecds. rewrite Elbl, Ecds, od_keys_map.
      rewrite prefix_sums_length, lens_of_length. unfold od_keys.
      now rewrite length_map. }
    destruct (@resolve_fold idx (od_keys (label_files self)) (cds self) Hlen)
      as [[E _]|(i & c & k & Hc & _ & Hle & _)].
    + rewrite E. reflexivity.
    + exfalso. destruct (@cds_entry o paths i c Hwf Hc) as [-> _].
      pose proof (zsum_lens_firstn_nonneg paths i). lia.
  - intros Hbig. destruct paths as [|p0 rest] eqn:Ep.
    + reflexivity.
    + subst self. rewrite <- Ep in *. apply sample_paths_beyond; auto.
      rewrite Ep. discriminate.
Qed.

End IndexDomain.

(** The theorem at the sample datasets: eight samples, so index 8 is
    refused with [IndexError] and index -1 with [KeyError]. *)
Lemma flat_index_domain_witness :
  JointDataset.sample_paths Sample.dataset (-1) = Raise KeyError /\
  JointDataset.sample_paths Sample.dataset 8 = Raise IndexError.
Proof.
  destruct (@flat_index_domain Sample.label_path_of Sample.loadtxt
              Sample.opt_unsup Sample.paths (-1) sample_paths_wf)
    as (_ & H1 & _).
  destruct (@flat_index_domain Sample.label_path_of Sample.loadtxt
              Sample.opt_unsup Sample.paths 8 sample_paths_wf)
    as (_ & _ & H2).
  split; [apply H1; reflexivity | apply H2; vm_compute; discriminate].
Defined.

(** ** JointDataset: the blocks of global identities *)

Section IdentityBlocks.

Import JointDataset.

Variable label_path_of : string -> string.
Variable loadtxt : string -> list LabelRow.

Lemma zsum_firstn_mono (l : list Z) :
  (forall x, In x l -> (0 <= x)%Z) ->
  forall i j, (i <= j)%nat -> (zsum (firstn i l) <= zsum (firstn j l))%Z.
Proof.
  induction l as [|a l IH]; intros Hnn i j Hij.
  - rewrite !firstn_nil. lia.
  - destruct i as [|i], j as [|j]; simpl; try lia.
    + assert (H0 : (0 <= zsum (firstn j l))%Z).
      { specialize (IH (fun x Hx => Hnn x (or_intror Hx)) 0%nat j
                       (Nat.le_0_l j)).
        simpl in IH. exact IH. }
      specialize (Hnn a (or_introl eq_refl)). lia.
    + specialize (IH (fun x Hx => Hnn x (or_intror Hx)) i j ltac:(lia)). lia.
Qed.

Lemma zsum_firstn_le_all (l : list Z) (i : nat) :
  (forall x, In x l -> (0 <= x)%Z) -> (zsum (firstn i l) <= zsum l)%Z.
Proof.
  intros Hnn.
  destruct (Nat.le_ge_cases i (length l)) as [H|H].
  - rewrite <- (firstn_all l) at 2. now apply (@zsum_firstn_mono l Hnn).
  - rewrite firstn_all2 by exact H. lia.
Qed.

Lemma counts_nonneg (paths : odict (list string)) (x : Z) :
  In x (map snd (map (fun '(k, a) =>
                        (k, count_ids loadtxt (map label_path_of a))) paths)) ->
  (0 <= x)%Z.
Proof.
  rewrite map_map. intros H. apply in_map_iff in H.
  destruct H as ([k a] & <- & _). simpl.
  apply (count_ids_spec loadtxt (map label_path_of a)).
Qed.

(** The start index of a dataset, read by name. *)
Lemma tid_start_lookup (o : Opt) (paths : odict (list string)) (i : nat)
    (ds : string) (files : list string) :
  od_wf paths -> nth_error paths i = Some (ds, files) ->
  let self := init label_path_of loadtxt o paths in
  od_get ds (tid_start_index self)
  = Ok (zsum (map snd (firstn i (tid_num self)))) /\
  nth_error (tid_num self) i
  = Some (ds, count_ids loadtxt (map label_path_of files)).
Proof.
  intros Hwf Hnth self.
  destruct (init_wf label_path_of loadtxt o Hwf)
    as (_ & _ & Etid & Estart & _).
  fold self in Etid, Estart.
  set (counts := map (fun '(k, a) =>
                        (k, count_ids loadtxt (map label_path_of a)))
                     paths) in *.
  assert (Hc : nth_error counts i
               = Some (ds, count_ids loadtxt (map label_path_of files))).
  { subst counts. now rewrite (map_nth_error _ _ _ Hnth). }
  split; [|now rewrite Etid].
  unfold od_get. erewrite od_find_nth; [reflexivity | | ].
  - unfold od_wf. rewrite Estart, od_keys_combine; [exact Hwf|].
    rewrite prefix_sums_length. unfold od_keys. subst counts.
    now rewrite !length_map.
  - rewrite Estart, Etid. apply nth_error_combine.
    + unfold od_keys. now rewrite (map_nth_error _ _ _ Hnth).
    + rewrite (nth_error_prefix_sums _ 0 i (map_nth_error snd _ _ Hc)).
      now rewrite firstn_map.
Qed.

(** The integers below [2^24] are float32 values. *)
Lemma f32_round_small (n : Z) :
  (0 <= n < 2 ^ 24)%Z -> Encoder.f32_round n = n.
Proof.
  intros [H0 H1]. unfold Encoder.f32_round. cbv zeta.
  rewrite (Z.abs_eq n H0).
  assert (E : (Z.log2 n <? 24)%Z = true).
  { apply Z.ltb_lt. destruct (Z.eq_dec n 0) as [->|Hn]; [reflexivity|].
    apply Z.log2_lt_pow2; lia. }
  now rewrite E.
Qed.

(** X2.  With at most [2^24] identities in all ([nID - 1 <= 2^24], the
    range in which the float32 label array holds every identity exactly),
    the remapping of [__getitem__] sends an identity [0 <= id] read from a
    label file of the [i]-th dataset to [id + start_i], inside the block
    [start_i, start_(i+1)) of that dataset; the blocks of different
    datasets do not overlap and all lie below [nID - 1], so within that
    range global identities of different datasets do not collide and each
    one is a valid class index for a classifier with [nID] outputs.
    Beyond the range they can collide: in a dataset whose block starts at
    [2^24], identity 1 is stored as [2^24], the stored value of
    identity 0. *)
Theorem remapped_identity_in_block (o : Opt) (paths : odict (list string)) :
  od_wf paths ->
  let self := init label_path_of loadtxt o paths in
  let start := fun k => zsum (map snd (firstn k (tid_num self))) in
  (forall i ds files lp r,
      (nID self - 1 <= 2 ^ 24)%Z ->
      nth_error paths i = Some (ds, files) ->
      In lp (map label_path_of files) -> In r (loadtxt lp) ->
      (-1 < ident r)%Z ->
      Encoder.offset_row self (Some ds) r
      = Ok (mkRow (cls r) (ident r + start i) (cx r) (cy r) (bw r) (bh r)) /\
      (start i <= ident r + start i < start (S i))%Z) /\
  (forall i j, (i < j)%nat -> (start (S i) <= start j)%Z) /\
  (forall i, (0 <= start i <= nID self - 1)%Z) /\
  (forall ds r,
      od_get ds (tid_start_index self) = Ok (2 ^ 24)%Z ->
      (ident r = 0 \/ ident r = 1)%Z ->
      Encoder.offset_row self (Some ds) r
      = Ok (mkRow (cls r) (2 ^ 24) (cx r) (cy r) (bw r) (bh r))).
Proof.
  intros Hwf self start.
  destruct (init_wf label_path_of loadtxt o Hwf)
    as (_ & _ & Etid & _ & EnID & _).
  fold self in Etid, EnID.
  assert (Hnn : forall x, In x (map snd (tid_num self)) -> (0 <= x)%Z).
  { intros x. rewrite Etid. apply counts_nonneg. }
  assert (Hblock : forall i, (0 <= start i <= nID self - 1)%Z).
  { intros i. subst start. cbv beta. rewrite <- firstn_map. rewrite EnID.
    rewrite <- Etid.
    pose proof (@zsum_firstn_le_all (map snd (tid_num self)) i Hnn).
    pose proof (@zsum_firstn_mono (map snd (tid_num self)) Hnn 0%nat i
                  (Nat.le_0_l i)) as H0.
    simpl in H0. lia. }
  split; [|split; [|split; [exact Hblock|]]].
  - intros i ds files lp r Hsmall Hnth Hlp Hr Hid.
    destruct (@tid_start_lookup o paths i ds files Hwf Hnth) as [Hget Hcnt].
    fold self in Hget, Hcnt.
    assert (Hin : (start i <= ident r + start i < start (S i))%Z).
    { subst start. cbv beta.
      rewrite <- !firstn_map.
      rewrite (zsum_firstn_S _ _ (map_nth_error snd _ _ Hcnt)). cbn [snd].
      destruct (count_ids_spec loadtxt (map label_path_of files))
        as (_ & Hub & _).
      assert (Hobs : In (ident r)
                        (observed_ids loadtxt (map label_path_of files))).
      { unfold observed_ids. apply in_flat_map. exists lp. split; [exact Hlp|].
        now apply in_map. }
      specialize (Hub _ Hobs). lia. }
    split; [|exact Hin].
    unfold Encoder.offset_row.
    assert (E : (ident r >? -1)%Z = true) by (apply Z.gtb_lt; lia).
    rewrite E. cbn [od_get_opt]. rewrite Hget. cbn [bind].
    fold (start i).
    pose proof (Hblock i) as B0. pose proof (Hblock (S i)) as B1.
    rewrite f32_round_small by lia. reflexivity.
  - intros i j Hij. subst start. cbv beta. rewrite <- !firstn_map.
    apply zsum_firstn_mono; [exact Hnn | lia].
  - intros ds r Hget Hid. unfold Encoder.offset_row.
    assert (E : (ident r >? -1)%Z = true) by (apply Z.gtb_lt; lia).
    rewrite E. cbn [od_get_opt]. rewrite Hget. cbn [bind].
    destruct Hid as [-> | ->]; reflexivity.
Qed.

End IdentityBlocks.

(** The theorem at the sample datasets: identity 1 of [b0] in [d2], whose
    block starts at 4, becomes 5. *)
Lemma remapped_identity_in_block_witness :
  Encoder.offset_row Sample.dataset (Some "d2"%string)
    (Sample.row 0 1 (1 # 2) (1 # 2) (1 # 4) (1 # 4))
  = Ok (Sample.row 0 5 (1 # 2) (1 # 2) (1 # 4) (1 # 4)).
Proof.
  destruct (@remapped_identity_in_block Sample.label_path_of Sample.loadtxt
              Sample.opt_unsup Sample.paths sample_paths_wf) as (H & _ & _).
  destruct (H 1%nat "d2"%string ["b0"; "b1"; "b2"; "b3"; "b4"]%string
              "b0.txt"%string
              (Sample.row 0 1 (1 # 2) (1 # 2) (1 # 4) (1 # 4)))
    as [E _];
    [vm_compute; discriminate | reflexivity | simpl; auto | simpl; auto
     | reflexivity |].
  exact E.
Defined.

(** ** Loops that run to the end *)

Lemma for_range_ext {S : Type} (n : nat) (body1 body2 : Z -> S -> result S)
    (s : S) :
  (forall k st, (k < n)%nat -> body1 (Z.of_nat k) st = body2 (Z.of_nat k) st) ->
  for_range n body1 s = for_range n body2 s.
Proof.
  induction n as [|n IH]; intros H; [reflexivity|].
  rewrite !for_range_S, IH by (intros; apply H; lia).
  destruct (for_range n body2 s) as [st|e]; cbn [bind]; [|reflexivity].
  apply H. lia.
Qed.

(** A loop whose iterations all succeed under an invariant succeeds. *)
Lemma for_range_total {S : Type} (I : S -> Prop) (n : nat)
    (body : Z -> S -> result S) (s : S) :
  I s ->
  (forall k st, (k < n)%nat -> I st ->
                exists st', body (Z.of_nat k) st = Ok st' /\ I st') ->
  exists s', for_range n body s = Ok s' /\ I s'.
Proof.
  intros Hs. induction n as [|n IH]; intros H.
  - exists s. split; [reflexivity | exact Hs].
  - destruct IH as (st & E & Hst); [intros; apply H; [lia | assumption]|].
    destruct (H n st (Nat.lt_succ_diag_r n) Hst) as (st' & E' & Hst').
    exists st'. rewrite for_range_S, E. cbn [bind]. auto.
Qed.

(** Every iteration of a loop that succeeded has succeeded, from a state
    reached by the iterations before it. *)
Lemma for_range_ok_prefix {S : Type} (I : S -> Prop) (n : nat)
    (body : Z -> S -> result S) (s s' : S) :
  I s -> (forall j st st', I st -> body j st = Ok st' -> I st') ->
  for_range n body s = Ok s' ->
  forall k, (k < n)%nat ->
            exists st st', I st /\ body (Z.of_nat k) st = Ok st'.
Proof.
  intros Hs Hinv. revert s'. induction n as [|n IH]; intros s' H k Hk; [lia|].
  rewrite for_range_S in H. apply bind_ok_inv in H.
  destruct H as (st & H1 & H2).
  destruct (Nat.eq_dec k n) as [->|Hne].
  - exists st, s'. split; [|exact H2].
    apply (@for_range_inv S body I Hinv n s st Hs H1).
  - apply (IH st H1). lia.
Qed.

Lemma py_pos_ok_iff (n : nat) (i : Z) :
  (exists j, py_pos n i = Ok j) <-> (- Z.of_nat n <= i < Z.of_nat n)%Z.
Proof.
  unfold py_pos. cbv zeta.
  destruct (Z.ltb_spec i 0) as [Hi|Hi].
  - destruct (Z.ltb_spec (i + Z.of_nat n) 0) as [H1|H1]; cbn [orb].
    + split; [intros [j E]; discriminate | lia].
    + destruct (Z.leb_spec (Z.of_nat n) (i + Z.of_nat n)) as [H2|H2].
      * split; [intros [j E]; discriminate | lia].
      * split; [lia | eauto].
  - destruct (Z.ltb_spec i 0) as [H1|H1]; [lia|]. cbn [orb].
    destruct (Z.leb_spec (Z.of_nat n) i) as [H2|H2].
    + split; [intros [j E]; discriminate | lia].
    + split; [lia | eauto].
Qed.

Lemma py_index_ok_iff {A : Type} (xs : list A) (i : Z) :
  (exists x, py_index xs i = Ok x)
  <-> (- Z.of_nat (length xs) <= i < Z.of_nat (length xs))%Z.
Proof.
  rewrite <- py_pos_ok_iff. unfold py_index.
  destruct (py_pos (length xs) i) as [j|e] eqn:E.
  - split; [eauto|]. intros _.
    destruct (nth_error xs j) as [x|] eqn:En; [eauto|].
    exfalso. apply nth_error_None in En.
    unfold py_pos in E. cbv zeta in E.
    destruct (_ || _)%bool eqn:Eb; [discriminate|].
    apply orb_false_iff in Eb. destruct Eb as [E1 E2].
    apply Z.ltb_ge in E1. apply Z.leb_gt in E2.
    inversion E; subst. lia.
  - split; intros [x H]; discriminate.
Qed.

Lemma py_assign_ok_iff {A : Type} (xs : list A) (i : Z) (v : A) :
  (exists ys, py_assign xs i v = Ok ys)
  <-> (- Z.of_nat (length xs) <= i < Z.of_nat (length xs))%Z.
Proof.
  rewrite <- py_pos_ok_iff. unfold py_assign.
  destruct (py_pos (length xs) i) as [j|e].
  - split; eauto.
  - split; intros [x H]; discriminate.
Qed.

Lemma py_assign_Forall {A : Type} (P : A -> Prop) (xs ys : list A) (i : Z)
    (v : A) :
  py_assign xs i v = Ok ys -> Forall P xs -> P v -> Forall P ys.
Proof.
  unfold py_assign. destruct (py_pos (length xs) i) as [j|e]; [|discriminate].
  intros H Hxs Hv. inversion H; subst; clear H.
  revert j. induction Hxs as [|x xs Hx Hxs IH]; intros [|j]; simpl;
    constructor; auto.
Qed.

(** ** JointDataset.__getitem__: when the encoding completes *)

Section EncoderRuns.

Import JointDataset Encoder.

Variables (Tensor Heat : Type).
Variable shape : Tensor -> Z * Z * Z.
Variable zeros_heat : Z -> Z -> Heat.
Variable gaussian_radius : Z -> Z -> Q.
Variable draw_umich_gaussian : Heat -> Z * Z -> Z -> Heat.
Variable draw_msra_gaussian : Heat -> Z * Z -> Z -> Heat.

Local Abbreviation encode_one' :=
  (encode_one gaussian_radius draw_umich_gaussian draw_msra_gaussian).
Local Abbreviation build' :=
  (build zeros_heat gaussian_radius draw_umich_gaussian draw_msra_gaussian).
Local Abbreviation encode' :=
  (encode shape zeros_heat gaussian_radius draw_umich_gaussian
          draw_msra_gaussian).

(** The arrays keep their lengths: the capacity for the object arrays, the
    number of classes for the heatmap. *)
Lemma encode_one_keeps (o : Opt) (ow oh : Z) (labels : list LabelRow)
    (m nc : nat) (j : Z) (g g' : GT Heat) :
  gt_len m g /\ length (hm g) = nc ->
  encode_one' o ow oh labels j g = Ok g' ->
  gt_len m g' /\ length (hm g') = nc.
Proof.
  intros [Hg Hh] H. split.
  - apply (@encode_one_len Heat gaussian_radius draw_umich_gaussian
             draw_msra_gaussian o ow oh labels m j g g' Hg H).
  - unfold encode_one in H.
    apply bind_ok_inv in H. destruct H as (label & _ & H). revert H.
    destruct (grid_box ow oh label) as [[[b0 b1] w] h].
    destruct (Qpos_b h && Qpos_b w); intros H;
      [|injection H as <-; exact Hh].
    apply bind_ok_inv in H. destruct H as (chan & _ & H).
    apply bind_ok_inv in H. destruct H as (hm' & Hhm & H).
    apply bind_ok_inv in H. destruct H as (wh' & _ & H).
    apply bind_ok_inv in H. destruct H as (ind' & _ & H).
    apply bind_ok_inv in H. destruct H as (reg' & _ & H).
    apply bind_ok_inv in H. destruct H as (rm' & _ & H).
    apply bind_ok_inv in H. destruct H as (ids' & _ & H).
    inversion H; subst; clear H. cbn [hm].
    now rewrite (py_assign_length _ _ _ Hhm).
Qed.

(** An iteration succeeds exactly when its row, if it has positive width
    and height, sits below the capacity and names an existing class. *)
Lemma encode_one_runs_iff (o : Opt) (ow oh : Z) (labels : list LabelRow)
    (m nc k : nat) (r : LabelRow) (g : GT Heat) :
  gt_len m g -> length (hm g) = nc -> nth_error labels k = Some r ->
  (exists g', encode_one' o ow oh labels (Z.of_nat k) g = Ok g') <->
  (encodable ow oh r = true ->
   (k < m)%nat /\ (- Z.of_nat nc <= cls r < Z.of_nat nc)%Z).
Proof.
  intros (L1 & L2 & L3 & L4 & L5) Lh Hr.
  unfold encode_one, encodable. rewrite (py_index_in _ _ Hr). cbn [bind].
  destruct (grid_box ow oh r) as [[[b0 b1] w] h].
  destruct (Qpos_b h && Qpos_b w).
  - split.
    + intros [g' H] _.
      apply bind_ok_inv in H. destruct H as (chan & Hchan & H).
      apply bind_ok_inv in H. destruct H as (hm' & _ & H).
      apply bind_ok_inv in H. destruct H as (wh' & Hwh & _).
      split.
      * apply py_assign_ok_inv in Hwh. lia.
      * rewrite <- Lh. apply py_index_ok_iff. eauto.
    + intros H. destruct (H eq_refl) as [Hk Hc].
      rewrite <- Lh in Hc.
      destruct (proj2 (py_index_ok_iff (hm g) (cls r)) Hc) as [chan ->].
      cbn [bind].
      match goal with
      | |- context [py_assign (hm g) (cls r) ?v] =>
          destruct (proj2 (py_assign_ok_iff (hm g) (cls r) v) Hc) as [hm' ->]
      end.
      cbn [bind].
      rewrite !py_assign_in by lia. cbn [bind]. eauto.
  - split; [intros _ Hf; discriminate | eauto].
Qed.

Lemma flipped_one_length (ow oh : Z) (fl : list LabelRow) (m : nat) (j : Z)
    (f f' : list Z) :
  length f = m -> flipped_one ow oh fl j f = Ok f' -> length f' = m.
Proof.
  unfold flipped_one. intros Hf H.
  apply bind_ok_inv in H. destruct H as (label & _ & H). revert H.
  destruct (grid_box ow oh label) as [[[b0 b1] w] h].
  destruct (Qpos_b h && Qpos_b w); intros H.
  - now rewrite (py_assign_length _ _ _ H).
  - injection H as <-; exact Hf.
Qed.

Lemma flipped_one_runs_iff (ow oh : Z) (fl : list LabelRow) (m k : nat)
    (f : list Z) :
  length f = m ->
  (exists f', flipped_one ow oh fl (Z.of_nat k) f = Ok f') <->
  (exists r, nth_error fl k = Some r /\
             (encodable ow oh r = true -> (k < m)%nat)).
Proof.
  intros Lf. unfold flipped_one.
  destruct (nth_error fl k) as [r|] eqn:Er.
  - rewrite (py_index_in _ _ Er). cbn [bind].
    assert (He : encodable ow oh r
                 = let '(_, _, w, h) := grid_box ow oh r in
                   Qpos_b h && Qpos_b w) by reflexivity.
    destruct (grid_box ow oh r) as [[[b0 b1] w] h].
    destruct (Qpos_b h && Qpos_b w).
    + split.
      * intros [f' H]. exists r. split; [reflexivity|]. intros _.
        apply py_assign_ok_inv in H. lia.
      * intros (r' & E & H). injection E as <-.
        rewrite py_assign_in by (specialize (H He); lia).
        eauto.
    + split; [|eauto]. intros _. exists r. split; [reflexivity|].
      rewrite He. intros Hf; discriminate.
  - apply nth_error_None in Er. rewrite py_index_out by lia. cbn [bind].
    split; [intros [f' H]; discriminate | intros (r & E & _); discriminate].
Qed.

(** X3.  The target encoding of [__getitem__] completes exactly when the
    stride is not zero, the output grid, the class count and the capacity
    are not negative, every original row of positive width and height sits
    below the capacity [max_objs] and carries a class index the heatmap
    has, and, when a flipped image is present, the flipped view has at
    least as many rows as the original one and its rows of positive width
    and height among the first [num_objs] sit below the capacity. *)
Theorem encode_returns_iff (self : t) (img : Tensor)
    (labels fl : list LabelRow) (flipped_img : option Tensor)
    (s0 s1 s2 : Z) :
  shape img = (s0, s1, s2) ->
  let output_h := (s1 / opt_down_ratio (opt self))%Z in
  let output_w := (s2 / opt_down_ratio (opt self))%Z in
  (exists ret, snd (encode' self img labels flipped_img (Some fl)) = Ok ret)
  <->
  (opt_down_ratio (opt self) <> 0%Z /\
   (0 <= output_h)%Z /\ (0 <= output_w)%Z /\
   (0 <= num_classes self)%Z /\ (0 <= max_objs self)%Z /\
   (forall k r,
       nth_error labels k = Some r -> encodable output_w output_h r = true ->
       (Z.of_nat k < max_objs self)%Z /\
       (- num_classes self <= cls r < num_classes self)%Z) /\
   (flipped_img <> None ->
    (length labels <= length fl)%nat /\
    forall k r,
      (k < length labels)%nat -> nth_error fl k = Some r ->
      encodable output_w output_h r = true ->
      (Z.of_nat k < max_objs self)%Z)).
Proof.
  intros Hshape output_h output_w.
  unfold encode. rewrite Hshape. unfold floordiv.
  destruct (Z.eqb_spec (opt_down_ratio (opt self)) 0) as [Hz|Hnz];
    cbn [bind snd].
  { split; [intros [ret H]; discriminate | intros (H & _); contradiction]. }
  fold output_h output_w. unfold build.
  set (m := Z.to_nat (max_objs self)).
  set (nc := Z.to_nat (num_classes self)).
  set (I := fun g : GT Heat => gt_len m g /\ length (hm g) = nc).
  assert (Hinv : forall j st st', I st ->
                   encode_one' (opt self) output_w output_h labels j st = Ok st' ->
                   I st').
  { intros j st st'. apply encode_one_keeps. }
  assert (Hfinv : forall j st st', length st = m ->
                    flipped_one output_w output_h fl j st = Ok st' ->
                    length st' = m).
  { intros j st st'. apply flipped_one_length. }
  split.
  - intros [ret H].
    apply bind_ok_inv in H. destruct H as (g0 & Hg0 & H).
    apply bind_ok_inv in H. destruct H as (g & Hg & H).
    destruct (@init_gt_ok Heat zeros_heat self output_h output_w g0 Hg0)
      as (Hpos & Hlen & _).
    assert (Hdims : (0 <= output_h)%Z /\ (0 <= output_w)%Z /\
                    (0 <= num_classes self)%Z /\ length (hm g0) = nc).
    { unfold init_gt in Hg0.
      apply bind_ok_inv in Hg0. destruct Hg0 as (hm0 & Hhm & Hrest).
      destruct (Z.ltb_spec output_h 0) as [?|Hh]; [discriminate|].
      destruct (Z.ltb_spec output_w 0) as [?|Hw]; [discriminate|].
      cbn [orb] in Hhm. apply np_zeros_ok in Hhm. destruct Hhm as [Hn ->].
      apply bind_ok_inv in Hrest. destruct Hrest as (a1 & _ & Hrest).
      apply bind_ok_inv in Hrest. destruct Hrest as (a2 & _ & Hrest).
      apply bind_ok_inv in Hrest. destruct Hrest as (a3 & _ & Hrest).
      apply bind_ok_inv in Hrest. destruct Hrest as (a4 & _ & Hrest).
      apply bind_ok_inv in Hrest. destruct Hrest as (a5 & _ & Hrest).
      inversion Hrest; subst. cbn [hm]. rewrite repeat_length. auto. }
    destruct Hdims as (Hh & Hw & Hn & Lh).
    split; [exact Hnz|]. split; [exact Hh|]. split; [exact Hw|].
    split; [exact Hn|]. split; [exact Hpos|]. split.
    + intros k r Hr He.
      assert (Hk : (k < length labels)%nat)
        by (apply nth_error_Some; congruence).
      destruct (@for_range_ok_prefix _ I (length labels) _ g0 g
                  (conj Hlen Lh) Hinv Hg k Hk) as (st & st' & [Ist Lst] & Hst).
      destruct (proj1 (@encode_one_runs_iff (opt self) output_w output_h labels
                         m nc k r st Ist Lst Hr) (ex_intro _ st' Hst) He)
        as [Hkm Hc].
      subst m nc. split; lia.
    + intros Hfi. destruct flipped_img as [fimg|]; [|congruence].
      apply bind_ok_inv in H. destruct H as (f0 & Hf0 & H).
      apply bind_ok_inv in H. destruct H as (f & Hf & _).
      apply np_zeros_ok in Hf0. destruct Hf0 as [_ ->].
      assert (Hall : forall k, (k < length labels)%nat ->
                exists r, nth_error fl k = Some r /\
                          (encodable output_w output_h r = true -> (k < m)%nat)).
      { intros k Hk.
        destruct (@for_range_ok_prefix _ (fun st => length st = m)
                    (length labels) _ _ f (repeat_length 0%Z m) Hfinv Hf k Hk)
          as (st & st' & Lst & Hst).
        apply (proj1 (@flipped_one_runs_iff output_w output_h fl m k st Lst)).
        eauto. }
      split.
      * destruct (length labels) as [|n] eqn:En; [lia|].
        destruct (Hall n (Nat.lt_succ_diag_r n)) as (r & Er & _).
        assert (n < length fl)%nat by (apply nth_error_Some; congruence).
        lia.
      * intros k r Hk Er He.
        destruct (Hall k Hk) as (r' & Er' & Hr').
        rewrite Er in Er'. inversion Er'; subst r'.
        specialize (Hr' He). subst m. lia.
  - intros (_ & Hh & Hw & Hn & Hpos & Hrows & Hflip).
    destruct (@init_gt_total Heat zeros_heat self output_h output_w
                Hh Hw Hpos Hn) as [g0 Hg0].
    rewrite Hg0. cbn [bind].
    destruct (@init_gt_ok Heat zeros_heat self output_h output_w g0 Hg0)
      as (_ & Hlen & _).
    assert (Lh : length (hm g0) = nc).
    { unfold init_gt in Hg0.
      apply bind_ok_inv in Hg0. destruct Hg0 as (hm0 & Hhm & Hrest).
      destruct ((output_h <? 0)%Z || (output_w <? 0)%Z)%bool; [discriminate|].
      apply np_zeros_ok in Hhm. destruct Hhm as [_ ->].
      apply bind_ok_inv in Hrest. destruct Hrest as (a1 & _ & Hrest).
      apply bind_ok_inv in Hrest. destruct Hrest as (a2 & _ & Hrest).
      apply bind_ok_inv in Hrest. destruct Hrest as (a3 & _ & Hrest).
      apply bind_ok_inv in Hrest. destruct Hrest as (a4 & _ & Hrest).
      apply bind_ok_inv in Hrest. destruct Hrest as (a5 & _ & Hrest).
      inversion Hrest; subst. cbn [hm]. now rewrite repeat_length. }
    destruct (@for_range_total _ I (length labels)
                (encode_one' (opt self) output_w output_h labels) g0
                (conj Hlen Lh)) as (g & Hg & _).
    { intros k st Hk [Ist Lst].
      destruct (nth_error labels k) as [r|] eqn:Er;
        [|apply nth_error_None in Er; lia].
      destruct (proj2 (@encode_one_runs_iff (opt self) output_w output_h labels
                         m nc k r st Ist Lst Er)) as [st' Hst'].
      - intros He. destruct (Hrows k r Er He) as [H1 H2]. subst m nc.
        split; lia.
      - exists st'. split; [exact Hst'|].
        apply (Hinv _ _ _ (conj Ist Lst) Hst'). }
    rewrite Hg. cbn [bind].
    destruct flipped_img as [fimg|]; [|eauto].
    destruct (Hflip ltac:(discriminate)) as [Hle Hfrows].
    unfold np_zeros.
    assert (E : (max_objs self <? 0)%Z = false) by (apply Z.ltb_ge; lia).
    rewrite E. cbn [bind]. fold m.
    destruct (@for_range_total _ (fun st => length st = m) (length labels)
                (flipped_one output_w output_h fl) (repeat 0%Z m)
                (repeat_length 0%Z m)) as (f & Hf & _).
    { intros k st Hk Lst.
      destruct (nth_error fl k) as [r|] eqn:Er;
        [|apply nth_error_None in Er; lia].
      destruct (proj2 (@flipped_one_runs_iff output_w output_h fl m k st Lst))
        as [st' Hst'].
      - exists r. split; [exact Er|]. intros He.
        specialize (Hfrows k r Hk Er He). subst m. lia.
      - exists st'. split; [exact Hst'|]. apply (Hfinv _ _ _ Lst Hst'). }
    rewrite Hf. cbn [bind]. eauto.
Qed.

End EncoderRuns.

(** The theorem at the sample world: two rows, both views complete. *)
Lemma encode_returns_iff_witness :
  exists ret,
    snd (SampleWorld.encode Sample.dataset SampleWorld.input
           SampleWorld.two_rows (Some SampleWorld.input)
           (Some (map SampleWorld.mirror SampleWorld.two_rows))) = Ok ret.
Proof.
  apply (proj2 (@encode_returns_iff SampleWorld.Tensor SampleWorld.Heat
                  SampleWorld.shape SampleWorld.zeros_heat
                  SampleWorld.gaussian_radius SampleWorld.draw SampleWorld.draw
                  Sample.dataset SampleWorld.input SampleWorld.two_rows
                  (map SampleWorld.mirror SampleWorld.two_rows)
                  (Some SampleWorld.input) 3%Z 608%Z 1088%Z eq_refl)).
  split; [vm_compute; discriminate|].
  split; [vm_compute; discriminate|].
  split; [vm_compute; discriminate|].
  split; [vm_compute; discriminate|].
  split; [vm_compute; discriminate|].
  split.
  - intros [|[|[|k]]] r Hr _; simpl in Hr; try discriminate;
      injection Hr as <-; vm_compute; repeat split; discriminate.
  - intros _. split; [simpl; lia|].
    intros [|[|k]] r Hk _ _; [reflexivity | reflexivity | simpl in Hk; lia].
Defined.

(** ** JointDataset.__getitem__: the ranges of the encoded targets *)

Section EncoderRanges.

Import JointDataset Encoder.

Variables (Tensor Heat : Type).
Variable shape : Tensor -> Z * Z * Z.
Variable zeros_heat : Z -> Z -> Heat.
Variable gaussian_radius : Z -> Z -> Q.
Variable draw_umich_gaussian : Heat -> Z * Z -> Z -> Heat.
Variable draw_msra_gaussian : Heat -> Z * Z -> Z -> Heat.

Local Abbreviation encode_one' :=
  (encode_one gaussian_radius draw_umich_gaussian draw_msra_gaussian).
Local Abbreviation build' :=
  (build zeros_heat gaussian_radius draw_umich_gaussian draw_msra_gaussian).
Local Abbreviation encode' :=
  (encode shape zeros_heat gaussian_radius draw_umich_gaussian
          draw_msra_gaussian).

Lemma np_clip_range (x : Q) (n : Z) :
  (1 <= n)%Z ->
  0 <= np_clip x 0 (inject_Z (n - 1)) /\
  np_clip x 0 (inject_Z (n - 1)) <= inject_Z (n - 1).
Proof.
  intros Hn.
  assert (H0 : 0 <= inject_Z (n - 1)).
  { change 0 with (inject_Z 0). rewrite <- Zle_Qle. lia. }
  unfold np_clip. cbv zeta.
  destruct (Qle_bool 0 x) eqn:E1.
  - apply Qle_bool_iff in E1.
    destruct (Qle_bool x (inject_Z (n - 1))) eqn:E2.
    + apply Qle_bool_iff in E2. split; assumption.
    + split; [exact H0 | apply Qle_refl].
  - destruct (Qle_bool 0 (inject_Z (n - 1))) eqn:E2.
    + split; [apply Qle_refl | exact H0].
    + split; [exact H0 | apply Qle_refl].
Qed.

(** Truncating a clipped coordinate gives a cell of the grid and an offset
    in [0, 1). *)
Lemma Qtrunc_cell (q : Q) (n : Z) :
  0 <= q -> q <= inject_Z (n - 1) ->
  (0 <= Qtrunc q <= n - 1)%Z /\
  0 <= q - inject_Z (Qtrunc q) /\ q - inject_Z (Qtrunc q) < 1.
Proof.
  intros H0 H1. unfold Qtrunc.
  rewrite (proj2 (Qle_bool_iff 0 q) H0).
  pose proof (Qfloor_le q) as F1. pose proof (Qlt_floor q) as F2.
  assert (A : (0 <= Qfloor q)%Z).
  { change 0%Z with (Qfloor (inject_Z 0)) at 1. rewrite <- (Qfloor_Z 0) at 1.
    apply Qfloor_resp_le. exact H0. }
  assert (B : (Qfloor q <= n - 1)%Z).
  { rewrite <- (Qfloor_Z (n - 1)). apply Qfloor_resp_le. exact H1. }
  split; [lia|].
  rewrite inject_Z_plus in F2. change (inject_Z 1) with 1 in F2.
  split; lra.
Qed.

Lemma grid_box_cell (ow oh : Z) (r : LabelRow) :
  (1 <= ow)%Z -> (1 <= oh)%Z ->
  let '(b0, b1, w, h) := grid_box ow oh r in
  cell_ok ow oh (Qtrunc b1 * ow + Qtrunc b0) /\
  offset_ok (b0 - inject_Z (Qtrunc b0), b1 - inject_Z (Qtrunc b1)).
Proof.
  intros Hw Hh. unfold grid_box. cbv zeta.
  destruct (@np_clip_range (cx r * inject_Z ow) ow Hw) as [X0 X1].
  destruct (@np_clip_range (cy r * inject_Z oh) oh Hh) as [Y0 Y1].
  destruct (@Qtrunc_cell _ ow X0 X1) as (Cx & Ox).
  destruct (@Qtrunc_cell _ oh Y0 Y1) as (Cy & Oy).
  split; [unfold cell_ok; nia | split; assumption].
Qed.

Lemma encode_one_ranges (o : Opt) (ow oh : Z) (labels : list LabelRow)
    (j : Z) (g g' : GT Heat) :
  (1 <= ow)%Z -> (1 <= oh)%Z ->
  Forall (cell_ok ow oh) (ind g) /\ Forall offset_ok (reg g) ->
  encode_one' o ow oh labels j g = Ok g' ->
  Forall (cell_ok ow oh) (ind g') /\ Forall offset_ok (reg g').
Proof.
  intros Hw Hh [Hi Hr] H. unfold encode_one in H.
  apply bind_ok_inv in H. destruct H as (label & _ & H). revert H.
  pose proof (@grid_box_cell ow oh label Hw Hh) as Hc.
  destruct (grid_box ow oh label) as [[[b0 b1] w] h].
  destruct Hc as [Hc Ho].
  destruct (Qpos_b h && Qpos_b w); intros H;
    [|injection H as <-; auto].
  apply bind_ok_inv in H. destruct H as (chan & _ & H).
  apply bind_ok_inv in H. destruct H as (hm' & _ & H).
  apply bind_ok_inv in H. destruct H as (wh' & _ & H).
  apply bind_ok_inv in H. destruct H as (ind' & Hind & H).
  apply bind_ok_inv in H. destruct H as (reg' & Hreg & H).
  apply bind_ok_inv in H. destruct H as (rm' & _ & H).
  apply bind_ok_inv in H. destruct H as (ids' & _ & H).
  injection H as <-. cbn [ind reg fst snd] in *.
  split.
  - apply (@py_assign_Forall _ _ _ _ _ _ Hind Hi Hc).
  - apply (@py_assign_Forall _ _ _ _ _ _ Hreg Hr Ho).
Qed.

Lemma flipped_one_ranges (ow oh : Z) (fl : list LabelRow) (j : Z)
    (f f' : list Z) :
  (1 <= ow)%Z -> (1 <= oh)%Z ->
  Forall (cell_ok ow oh) f -> flipped_one ow oh fl j f = Ok f' ->
  Forall (cell_ok ow oh) f'.
Proof.
  intros Hw Hh Hf H. unfold flipped_one in H.
  apply bind_ok_inv in H. destruct H as (label & _ & H). revert H.
  pose proof (@grid_box_cell ow oh label Hw Hh) as Hc.
  destruct (grid_box ow oh label) as [[[b0 b1] w] h].
  destruct Hc as [Hc _].
  destruct (Qpos_b h && Qpos_b w); intros H;
    [|injection H as <-; auto].
  cbn [fst snd] in H. apply (@py_assign_Forall _ _ _ _ _ _ H Hf Hc).
Qed.

(** X4.  On an output grid with at least one row and one column, every
    entry of [ind] and of [flipped_ind] that a completed [__getitem__]
    returns is a flat index of a grid cell, [0 <= ind < output_h *
    output_w], and both components of every entry of [reg] lie in
    [0, 1). *)
Theorem encoded_indices_in_grid (self : t) (img : Tensor)
    (labels : list LabelRow) (flipped_img : option Tensor)
    (flipped_labels : option (list LabelRow)) (s0 s1 s2 : Z) (ret : Ret Tensor Heat) :
  shape img = (s0, s1, s2) ->
  let output_h := (s1 / opt_down_ratio (opt self))%Z in
  let output_w := (s2 / opt_down_ratio (opt self))%Z in
  (1 <= output_h)%Z -> (1 <= output_w)%Z ->
  snd (encode' self img labels flipped_img flipped_labels) = Ok ret ->
  Forall (fun i => (0 <= i < output_h * output_w)%Z) (ind (r_gt ret)) /\
  Forall (fun p => (0 <= fst p /\ fst p < 1) /\ (0 <= snd p /\ snd p < 1))
         (reg (r_gt ret)) /\
  (forall f, r_flipped_ind ret = Some f ->
             Forall (fun i => (0 <= i < output_h * output_w)%Z) f).
Proof.
  intros Hshape output_h output_w Hh Hw.
  unfold encode. rewrite Hshape. unfold floordiv.
  destruct (Z.eqb_spec (opt_down_ratio (opt self)) 0) as [Hz|Hnz];
    cbn [bind snd]; [discriminate|].
  fold output_h output_w.
  destruct flipped_labels as [fl|]; cbn [snd]; [|discriminate].
  unfold build. intros H.
  apply bind_ok_inv in H. destruct H as (g0 & Hg0 & H).
  apply bind_ok_inv in H. destruct H as (g & Hg & H).
  assert (Hzero : cell_ok output_w output_h 0) by (unfold cell_ok; nia).
  assert (H0 : Forall (cell_ok output_w output_h) (ind g0) /\
               Forall offset_ok (reg g0)).
  { unfold init_gt in Hg0.
    apply bind_ok_inv in Hg0. destruct Hg0 as (hm0 & _ & Hg0).
    apply bind_ok_inv in Hg0. destruct Hg0 as (wh0 & _ & Hg0).
    apply bind_ok_inv in Hg0. destruct Hg0 as (reg0 & Hreg & Hg0).
    apply bind_ok_inv in Hg0. destruct Hg0 as (ind0 & Hind & Hg0).
    apply bind_ok_inv in Hg0. destruct Hg0 as (rm0 & _ & Hg0).
    apply bind_ok_inv in Hg0. destruct Hg0 as (ids0 & _ & Hg0).
    injection Hg0 as <-. cbn [ind reg].
    apply np_zeros_ok in Hreg, Hind.
    destruct Hreg as [_ ->], Hind as [_ ->].
    split; apply Forall_forall; intros x Hx; apply repeat_spec in Hx; subst x.
    - exact Hzero.
    - unfold offset_ok; cbn [fst snd]; lra. }
  assert (Hgr : Forall (cell_ok output_w output_h) (ind g) /\
                Forall offset_ok (reg g)).
  { apply (@for_range_inv _ (encode_one' (opt self) output_w output_h labels)
             (fun g => Forall (cell_ok output_w output_h) (ind g) /\
                       Forall offset_ok (reg g))
             (fun j st st' => @encode_one_ranges (opt self) output_w output_h
                                labels j st st' Hw Hh)
             (length labels) g0 g H0 Hg). }
  destruct Hgr as [Hi Hr].
  destruct flipped_img as [fimg|].
  - apply bind_ok_inv in H. destruct H as (f0 & Hf0 & H).
    apply bind_ok_inv in H. destruct H as (f & Hf & H).
    injection H as <-. cbn [r_gt r_flipped_ind].
    split; [exact Hi|]. split; [exact Hr|].
    intros f' E. injection E as <-.
    apply np_zeros_ok in Hf0. destruct Hf0 as [_ ->].
    apply (@for_range_inv _ (flipped_one output_w output_h fl)
             (Forall (cell_ok output_w output_h))
             (fun j st st' => @flipped_one_ranges output_w output_h fl j st st'
                                Hw Hh)
             (length labels) (repeat 0%Z (Z.to_nat (max_objs self))) f);
      [|exact Hf].
    apply Forall_forall. intros x Hx. apply repeat_spec in Hx. now subst x.
  - injection H as <-. cbn [r_gt r_flipped_ind].
    split; [exact Hi|]. split; [exact Hr|]. intros f' E. discriminate.
Qed.

(** Rows of the flipped view at or beyond the number of original rows are
    not read by the loop building [flipped_ind]. *)
Lemma flipped_one_firstn (ow oh : Z) (fl : list LabelRow) (n k : nat)
    (f : list Z) :
  (k < n)%nat ->
  flipped_one ow oh fl (Z.of_nat k) f
  = flipped_one ow oh (firstn n fl) (Z.of_nat k) f.
Proof.
  intros Hk. unfold flipped_one.
  replace (py_index (firstn n fl) (Z.of_nat k)) with (py_index fl (Z.of_nat k));
    [reflexivity|].
  destruct (nth_error fl k) as [r|] eqn:Er.
  - rewrite (py_index_in _ _ Er). symmetry. apply py_index_in.
    rewrite nth_error_firstn.
    destruct (Nat.ltb_spec k n); [exact Er | lia].
  - apply nth_error_None in Er.
    rewrite !py_index_out; [reflexivity | | lia].
    rewrite length_firstn. lia.
Qed.

(** X5.  A flipped view with more rows than the original one is accepted:
    the two counts are printed, and the result is the one the first
    [num_objs] flipped rows alone give (for which nothing is printed); the
    further flipped rows are never read. *)
Theorem surplus_flipped_rows_ignored (self : t) (img : Tensor)
    (labels fl : list LabelRow) (flipped_img : option Tensor) :
  opt_down_ratio (opt self) <> 0%Z ->
  (length labels < length fl)%nat ->
  fst (encode' self img labels flipped_img (Some fl))
  = [(Z.of_nat (length labels), Z.of_nat (length fl))] /\
  snd (encode' self img labels flipped_img (Some fl))
  = snd (encode' self img labels flipped_img
           (Some (firstn (length labels) fl))) /\
  fst (encode' self img labels flipped_img
         (Some (firstn (length labels) fl))) = [].
Proof.
  intros Hnz Hlt. unfold encode.
  destruct (shape img) as [[s0 s1] s2]. unfold floordiv.
  destruct (Z.eqb_spec (opt_down_ratio (opt self)) 0) as [Hz|_];
    [contradiction|].
  cbn [bind fst snd].
  rewrite length_firstn, Nat.min_l by lia.
  rewrite Z.eqb_refl.
  destruct (Z.eqb_spec (Z.of_nat (length labels)) (Z.of_nat (length fl)));
    [lia|].
  split; [reflexivity|]. split; [|reflexivity].
  unfold build.
  destruct (init_gt zeros_heat self _ _) as [g0|e]; cbn [bind];
    [|reflexivity].
  destruct (for_range (length labels) _ g0) as [g|e]; cbn [bind];
    [|reflexivity].
  destruct flipped_img as [fimg|]; [|reflexivity].
  destruct (np_zeros 0%Z (max_objs self)) as [f0|e]; cbn [bind];
    [|reflexivity].
  rewrite (@for_range_ext _ (length labels) (flipped_one _ _ fl)
             (flipped_one _ _ (firstn (length labels) fl)) f0
             (fun k st Hk => @flipped_one_firstn _ _ fl (length labels) k st Hk)).
  reflexivity.
Qed.

End EncoderRanges.

(** The range theorem at the sample world: on the 152 by 272 grid the two
    encoded rows give cells below 41344. *)
Lemma encoded_indices_in_grid_witness :
  exists ret,
    snd (SampleWorld.encode Sample.dataset SampleWorld.input
           SampleWorld.two_rows (Some SampleWorld.input)
           (Some (map SampleWorld.mirror SampleWorld.two_rows))) = Ok ret /\
    Forall (fun i => (0 <= i < 152 * 272)%Z) (Encoder.ind (Encoder.r_gt ret)).
Proof.
  destruct (snd (SampleWorld.encode Sample.dataset SampleWorld.input
                   SampleWorld.two_rows (Some SampleWorld.input)
                   (Some (map SampleWorld.mirror SampleWorld.two_rows))))
    as [ret|e] eqn:E; [|vm_compute in E; discriminate].
  exists ret. split; [reflexivity|].
  destruct (@encoded_indices_in_grid SampleWorld.Tensor SampleWorld.Heat
              SampleWorld.shape SampleWorld.zeros_heat
              SampleWorld.gaussian_radius SampleWorld.draw SampleWorld.draw
              Sample.dataset SampleWorld.input SampleWorld.two_rows
              (Some SampleWorld.input)
              (Some (map SampleWorld.mirror SampleWorld.two_rows))
              3%Z 608%Z 1088%Z ret eq_refl) as (Hind & _ & _).
  - vm_compute. discriminate.
  - vm_compute. discriminate.
  - exact E.
  - exact Hind.
Defined.

(** The surplus theorem at the sample world: one original row against two
    flipped rows. *)
Lemma surplus_flipped_rows_ignored_witness :
  fst (SampleWorld.encode Sample.dataset SampleWorld.input
         SampleWorld.one_flipped_row (Some SampleWorld.input)
         (Some (map SampleWorld.mirror SampleWorld.two_rows)))
  = [(1, 2)%Z] /\
  is_ok (snd (SampleWorld.encode Sample.dataset SampleWorld.input
                SampleWorld.one_flipped_row (Some SampleWorld.input)
                (Some (map SampleWorld.mirror SampleWorld.two_rows)))) = true.
Proof.
  destruct (@surplus_flipped_rows_ignored SampleWorld.Tensor SampleWorld.Heat
              SampleWorld.shape SampleWorld.zeros_heat
              SampleWorld.gaussian_radius SampleWorld.draw SampleWorld.draw
              Sample.dataset SampleWorld.input SampleWorld.one_flipped_row
              (map SampleWorld.mirror SampleWorld.two_rows)
              (Some SampleWorld.input))
    as (H1 & H2 & _).
  - vm_compute. discriminate.
  - simpl. lia.
  - split; [exact H1|].
    unfold SampleWorld.encode. rewrite H2. vm_compute. reflexivity.
Defined.

(** ** letterbox and get_size: the resized image fits the target *)



(** X7.  [get_size] refuses a video of zero width or height with
    [ZeroDivisionError]; for a video of positive size and a target that is
    not negative it returns a size that fits the target,
    [0 <= w <= dw] and [0 <= h <= dh]. *)
Theorem get_size_fits (vw vh dw dh : Z) :
  ((vw = 0 \/ vh = 0)%Z ->
   LoadVideo.get_size vw vh dw dh = Raise ZeroDivisionError) /\
  ((0 < vw)%Z -> (0 < vh)%Z -> (0 <= dw)%Z -> (0 <= dh)%Z ->
   exists w h,
     LoadVideo.get_size vw vh dw dh = Ok (w, h) /\
     (0 <= w <= dw)%Z /\ (0 <= h <= dh)%Z).
Proof.
  split.
  - unfold LoadVideo.get_size. intros [->| ->]; [reflexivity|].
    destruct (vw =? 0)%Z; reflexivity.
  - intros Hw Hh Hdw Hdh.
    destruct (@min_float_fits vh vw dh dw Hh Hw) as (Fw & Fh & _).
    unfold LoadVideo.get_size.
    assert (E1 : (vw =? 0)%Z = false) by (apply Z.eqb_neq; lia).
    assert (E2 : (vh =? 0)%Z = false) by (apply Z.eqb_neq; lia).
    rewrite E1, E2. cbv zeta.
    set (a := Letterbox.min_float (inject_Z dw / inject_Z vw)
                                  (inject_Z dh / inject_Z vh)).
    assert (Ea : a = Letterbox.min_float (inject_Z dh / inject_Z vh)
                                         (inject_Z dw / inject_Z vw) \/
                 a == Letterbox.min_float (inject_Z dh / inject_Z vh)
                                          (inject_Z dw / inject_Z vw)).
    { right. subst a. unfold Letterbox.min_float.
      destruct (Qle_bool (inject_Z dw / inject_Z vw)
                         (inject_Z dh / inject_Z vh)) eqn:A1;
        destruct (Qle_bool (inject_Z dh / inject_Z vh)
                           (inject_Z dw / inject_Z vw)) eqn:A2;
        try reflexivity.
      - apply Qle_bool_iff in A1, A2. apply Qle_antisym; assumption.
      - assert (L1 : ~ inject_Z dw / inject_Z vw <= inject_Z dh / inject_Z vh)
          by (intros L; apply Qle_bool_iff in L; congruence).
        assert (L2 : ~ inject_Z dh / inject_Z vh <= inject_Z dw / inject_Z vw)
          by (intros L; apply Qle_bool_iff in L; congruence).
        exfalso. apply L1. apply Qlt_le_weak. apply Qnot_le_lt. exact L2. }
    assert (Ea' : a == Letterbox.min_float (inject_Z dh / inject_Z vh)
                                           (inject_Z dw / inject_Z vw))
      by (destruct Ea as [->|E]; [reflexivity | exact E]).
    clear Ea.
    assert (Qw : 0 < inject_Z vw).
    { change 0 with (inject_Z 0). rewrite <- Zlt_Qlt. exact Hw. }
    assert (Qh : 0 < inject_Z vh).
    { change 0 with (inject_Z 0). rewrite <- Zlt_Qlt. exact Hh. }
    assert (Qdw : 0 <= inject_Z dw).
    { change 0 with (inject_Z 0). rewrite <- Zle_Qle. exact Hdw. }
    assert (Qdh : 0 <= inject_Z dh).
    { change 0 with (inject_Z 0). rewrite <- Zle_Qle. exact Hdh. }
    assert (Ha : 0 <= a).
    { subst a. unfold Letterbox.min_float.
      destruct (Qle_bool _ _); apply Qle_shift_div_l; lra. }
    rewrite <- Ea' in Fw, Fh.
    assert (Pw : 0 <= inject_Z vw * a) by (apply Qmult_le_0_compat; lra).
    assert (Ph : 0 <= inject_Z vh * a) by (apply Qmult_le_0_compat; lra).
    eexists. eexists. split; [reflexivity|].
    unfold Encoder.Qtrunc.
    rewrite (proj2 (Qle_bool_iff 0 _) Pw), (proj2 (Qle_bool_iff 0 _) Ph).
    split; (split; [apply Qfloor_nonneg; assumption|]).
    + rewrite <- (Qfloor_Z dw). apply Qfloor_resp_le. exact Fw.
    + rewrite <- (Qfloor_Z dh). apply Qfloor_resp_le. exact Fh.
Qed.

(** The theorem at a 1920 by 1080 video and the default 1088 by 608
    target. *)
Lemma get_size_fits_witness :
  exists w h,
    LoadVideo.get_size 1920 1080 1088 608 = Ok (w, h) /\
    (0 <= w <= 1088)%Z /\ (0 <= h <= 608)%Z.
Proof.
  apply (proj2 (get_size_fits 1920 1080 1088 608)); lia.
Defined.

(** ** random_affine: the boxes that are returned *)

Section AffineRanges.

Import RandomAffine.

Local Open Scope R_scope.

Lemma np_clip_upper (x hi : R) : np_clip x 0 hi <= hi.
Proof. unfold np_clip. apply Rmin_r. Qed.

Lemma np_clip_lower (x hi : R) : 0 <= hi -> 0 <= np_clip x 0 hi.
Proof.
  intros H. unfold np_clip. apply Rmin_glb; [apply Rmax_r | exact H].
Qed.

Lemma np_clip_collapse (x hi : R) : hi < 0 -> np_clip x 0 hi = hi.
Proof.
  intros H. unfold np_clip. apply Rmin_right.
  pose proof (Rmax_r x 0). lra.
Qed.

(** A clipped interval of positive length lies within [0, hi]. *)
Lemma clipped_interval (a b hi : R) :
  0 < np_clip b 0 hi - np_clip a 0 hi ->
  0 <= np_clip a 0 hi /\ np_clip b 0 hi <= hi.
Proof.
  intros H. split; [|apply np_clip_upper].
  destruct (Rlt_le_dec hi 0) as [Hneg|Hpos].
  - rewrite !np_clip_collapse in H by exact Hneg. lra.
  - apply np_clip_lower. exact Hpos.
Qed.

Lemma filter_length_le' {A : Type} (f : A -> bool) (l : list A) :
  (length (filter f l) <= length l)%nat.
Proof.
  induction l as [|a l IH]; simpl; [lia|]. destruct (f a); simpl; lia.
Qed.

End AffineRanges.


(** ** MotLoss.forward: the entries of [loss_results] *)

Lemma od_find_set_eq {V : Type} (k : string) (v : V) (d : odict V) :
  od_find k (od_set k v d) = Some v.
Proof.
  induction d as [|[k' v'] d IH]; simpl.
  - now rewrite String.eqb_refl.
  - destruct (String.eqb_spec k k') as [->|Hne]; simpl.
    + now rewrite String.eqb_refl.
    + destruct (String.eqb_spec k k'); [contradiction | exact IH].
Qed.

Lemma od_find_set_neq {V : Type} (k k' : string) (v : V) (d : odict V) :
  k <> k' -> od_find k (od_set k' v d) = od_find k d.
Proof.
  intros Hne. induction d as [|[k0 v0] d IH]; simpl.
  - destruct (String.eqb_spec k k'); [contradiction | reflexivity].
  - destruct (String.eqb_spec k' k0) as [->|Hne0]; simpl.
    + destruct (String.eqb_spec k k0); [contradiction | reflexivity].
    + destruct (String.eqb_spec k k0); [reflexivity | exact IH].
Qed.

Lemma zero_results_find (states : list string) (k : string) :
  od_find k (MotLoss.zero_results states)
  = if in_dec string_dec k states then Some 0%R else None.
Proof.
  unfold MotLoss.zero_results.
  assert (G : forall acc,
             od_find k (fold_left (fun d k0 => od_set k0 0%R d) states acc)
             = if in_dec string_dec k states then Some 0%R
               else od_find k acc).
  { induction states as [|a l IH]; intros acc; [reflexivity|].
    cbn [fold_left]. rewrite IH.
    destruct (in_dec string_dec k l) as [Hin|Hnin];
      destruct (in_dec string_dec k (a :: l)) as [Hin'|Hnin'];
      try reflexivity.
    - exfalso. apply Hnin'. now right.
    - destruct Hin' as [->|Hin']; [apply od_find_set_eq | contradiction].
    - apply od_find_set_neq. intros ->. apply Hnin'. now left. }
  rewrite G. destruct (in_dec string_dec k states); reflexivity.
Qed.

Section LossFacts.

Import MotLoss.

Local Open Scope R_scope.

Variable Tensor : Type.
Variable sigmoid : Tensor -> Tensor.
Variable apply_crit : HmCrit -> Tensor -> Tensor -> R.
Variable apply_dense_wh : WhCrit -> Tensor -> Tensor -> Tensor -> R.
Variable apply_reg : RegCrit -> Tensor -> Tensor -> Tensor -> Tensor -> R.
Variable scaled_id_head : R -> Tensor -> Tensor -> Tensor -> Tensor.
Variable flipped_id_head : Tensor -> Tensor -> Tensor -> Tensor.
Variable apply_id_loss : Tensor -> Tensor -> Tensor -> R.
Variable apply_self_sup : SelfSup -> Tensor -> Tensor -> Tensor -> R.

Local Abbreviation stage' :=
  (stage sigmoid apply_crit apply_dense_wh apply_reg scaled_id_head
         flipped_id_head apply_id_loss apply_self_sup).
Local Abbreviation forward' :=
  (forward sigmoid apply_crit apply_dense_wh apply_reg scaled_id_head
           flipped_id_head apply_id_loss apply_self_sup).

(** The heatmap term and the identity term of one stage. *)
Local Abbreviation hm_term m batch :=
  (fun output : Stage Tensor =>
     apply_crit (crit m)
       (if mse_loss (opt m) then o_hm output else sigmoid (o_hm output))
       (b_hm batch) / IZR (num_stacks (opt m))).
Local Abbreviation head_of m batch :=
  (fun output : Stage Tensor =>
     scaled_id_head (emb_scale m) (o_id output) (b_ind batch)
                    (b_reg_mask batch)).
Local Abbreviation id_term m batch :=
  (fun output : Stage Tensor =>
     apply_id_loss (head_of m batch output) (b_ids batch) (b_reg_mask batch)).

Lemma iadd_same (k : string) (rhs : result R) (lr lr' : odict R) :
  iadd k rhs lr = Ok lr' ->
  exists old v, od_find k lr = Some old /\ rhs = Ok v /\
                od_find k lr' = Some (old + v).
Proof.
  unfold iadd, od_get. intros H.
  destruct (od_find k lr) as [old|]; [|discriminate]. cbn [bind] in H.
  destruct rhs as [v|e]; [|discriminate]. cbn [bind] in H.
  injection H as <-. exists old, v. rewrite od_find_set_eq. auto.
Qed.

Lemma iadd_other (k k' : string) (rhs : result R) (lr lr' : odict R) :
  iadd k rhs lr = Ok lr' -> k' <> k -> od_find k' lr' = od_find k' lr.
Proof.
  unfold iadd, od_get. intros H Hne.
  destruct (od_find k lr) as [old|]; [|discriminate]. cbn [bind] in H.
  destruct rhs as [v|e]; [|discriminate]. cbn [bind] in H.
  injection H as <-. now apply od_find_set_neq.
Qed.

(** What [__init__] fixes: the options, the states, and, for
    self-supervised training, a supported loss name. *)
Lemma init_inv (o : Opt) (states : list string) (m : t) :
  init o states = Ok m ->
  opt m = o /\ loss_states m = states /\
  SelfSupLoss m = make_self_sup o /\
  s_det m = - (185 / 100) /\ s_id m = - (105 / 100) /\
  (unsup o = true ->
   unsup_loss o = "nt_xent"%string \/ unsup_loss o = "triplet_all"%string \/
   unsup_loss o = "triplet_hard"%string).
Proof.
  unfold init, make_self_sup, nn_Linear.
  destruct ((reid_dim o <? 0) || (nID o <? 0))%Z; [discriminate|].
  cbn [bind].
  destruct (unsup o) eqn:Eu.
  - destruct (String.eqb_spec (unsup_loss o) "nt_xent") as [E1|N1];
      [|destruct (String.eqb_spec (unsup_loss o) "triplet_all") as [E2|N2];
        [|destruct (String.eqb_spec (unsup_loss o) "triplet_hard") as [E3|N3]]];
      cbn [andb]; try discriminate;
      (destruct (nID o - 1 <=? 0)%Z; [discriminate|]);
      intros H; injection H as <-; cbn; auto 10.
  - cbn [andb]. destruct (nID o - 1 <=? 0)%Z; [discriminate|].
    intros H; injection H as <-; cbn.
    repeat split; try reflexivity. discriminate.
Qed.

(** The classifier is built first: a negative dimension ends [__init__]
    there; past it, the checks of the loss name and of [nID] remain. *)
Lemma init_negative (o : Opt) (states : list string) :
  (reid_dim o < 0 \/ nID o < 0)%Z -> init o states = Raise Py.RuntimeError.
Proof.
  intros H. unfold init, nn_Linear.
  assert (E : ((reid_dim o <? 0) || (nID o <? 0))%Z = true).
  { apply orb_true_iff. rewrite !Z.ltb_lt. exact H. }
  now rewrite E.
Qed.

Lemma init_past_linear (o : Opt) (states : list string) :
  (0 <= reid_dim o)%Z -> (0 <= nID o)%Z ->
  init o states
  = if unsup o && match make_self_sup o with None => true | Some _ => false end
    then Raise ValueError
    else if (nID o - 1 <=? 0)%Z then Raise ValueError
    else Ok {| opt := o;
               loss_states := states;
               crit := if mse_loss o then MSELoss else FocalLoss;
               crit_reg := make_crit_reg o;
               crit_wh := make_crit_wh o (make_crit_reg o);
               SelfSupLoss := make_self_sup o;
               emb_scale := sqrt 2 * ln (IZR (nID o - 1));
               s_det := - (185 / 100);
               s_id := - (105 / 100) |}.
Proof.
  intros Hr Hn. unfold init, nn_Linear.
  assert (E : ((reid_dim o <? 0) || (nID o <? 0))%Z = false).
  { apply orb_false_iff. rewrite !Z.ltb_ge. split; assumption. }
  now rewrite E.
Qed.

Lemma init_dims (o : Opt) (states : list string) (m : t) :
  init o states = Ok m -> (0 <= reid_dim o)%Z /\ (2 <= nID o)%Z.
Proof.
  intros H.
  destruct (Z_lt_le_dec (reid_dim o) 0) as [Hr|Hr];
    [rewrite init_negative in H by (now left); discriminate|].
  destruct (Z_lt_le_dec (nID o) 0) as [Hn|Hn];
    [rewrite init_negative in H by (now right); discriminate|].
  rewrite (@init_past_linear o states Hr Hn) in H.
  destruct (_ && _); [discriminate|].
  destruct (Z.leb_spec (nID o - 1) 0); [discriminate|]. lia.
Qed.

(** One stage, step by step. *)
Lemma stage_inv (m : t) (batch : Batch Tensor) (outputs : list (Stage Tensor))
    (fo : option (list (Stage Tensor))) (s : Z) (lr lr' : odict R) :
  stage' m batch outputs fo s lr = Ok lr' ->
  exists output lr1 lr2 lr3 lr4,
    py_index outputs s = Ok output /\
    iadd "hm" (Ok (hm_term m batch output)) lr = Ok lr1 /\
    ((forall k, k <> "wh"%string -> od_find k lr2 = od_find k lr1) /\
     (Rltb 0 (wh_weight (opt m)) = false -> lr2 = lr1)) /\
    ((forall k, k <> "off"%string -> od_find k lr3 = od_find k lr2) /\
     (reg_offset (opt m) && Rltb 0 (off_weight (opt m)) = false -> lr3 = lr2)) /\
    (if Rltb 0 (id_weight (opt m)) && negb (unsup (opt m))
     then iadd "id" (Ok (id_term m batch output)) lr3 = Ok lr4
     else lr4 = lr3) /\
    match unsup (opt m), fo with
    | true, Some fos =>
        exists flipped_output find c,
          py_index fos s = Ok flipped_output /\
          b_flipped_ind batch = Some find /\
          SelfSupLoss m = Some c /\
          lr' = od_set (unsup_loss (opt m))
                       (apply_self_sup c (head_of m batch output)
                          (flipped_id_head (o_id flipped_output) find
                                           (b_reg_mask batch))
                          (b_num_objs batch)) lr4
    | _, _ => lr' = lr4
    end.
Proof.
  unfold stage. cbv zeta. intros H.
  apply bind_ok_inv in H. destruct H as (output & Hout & H).
  apply bind_ok_inv in H. destruct H as (lr1 & H1 & H).
  apply bind_ok_inv in H. destruct H as (lr2 & H2 & H).
  apply bind_ok_inv in H. destruct H as (lr3 & H3 & H).
  apply bind_ok_inv in H. destruct H as (lr4 & H4 & H).
  exists output, lr1, lr2, lr3, lr4.
  split; [exact Hout|]. split; [exact H1|].
  split; [|split; [|split]].
  - destruct (Rltb 0 (wh_weight (opt m))).
    + split; [|discriminate]. intros k Hk.
      destruct (dense_wh (opt m)).
      * apply bind_ok_inv in H2. destruct H2 as (mask & _ & H2).
        apply (@iadd_other _ k _ _ _ H2 Hk).
      * apply (@iadd_other _ k _ _ _ H2 Hk).
    + injection H2 as <-. split; reflexivity.
  - destruct (reg_offset (opt m) && Rltb 0 (off_weight (opt m))).
    + split; [|discriminate]. intros k Hk. apply (@iadd_other _ k _ _ _ H3 Hk).
    + injection H3 as <-. split; reflexivity.
  - destruct (Rltb 0 (id_weight (opt m)) && negb (unsup (opt m))).
    + exact H4.
    + now injection H4 as <-.
  - destruct (unsup (opt m)); [|now injection H as <-].
    destruct fo as [fos|]; [|now injection H as <-].
    apply bind_ok_inv in H. destruct H as (fout & Hf & H).
    apply bind_ok_inv in H. destruct H as (find & Hfind & H).
    apply bind_ok_inv in H. destruct H as (c & Hc & H).
    injection H as <-.
    exists fout, find, c. split; [exact Hf|].
    unfold need_key in Hfind. unfold callable in Hc.
    destruct (b_flipped_ind batch); [|discriminate].
    destruct (SelfSupLoss m); [|discriminate].
    injection Hfind as ->. injection Hc as ->. auto.
Qed.

(** A stage leaves an entry alone when none of its updates is for it. *)
Lemma stage_frame (m : t) (batch : Batch Tensor) (outputs : list (Stage Tensor))
    (fo : option (list (Stage Tensor))) (s : Z) (lr lr' : odict R)
    (k : string) :
  stage' m batch outputs fo s lr = Ok lr' ->
  k <> "hm"%string ->
  (k = "wh"%string -> Rltb 0 (wh_weight (opt m)) = false) ->
  (k = "off"%string ->
   reg_offset (opt m) && Rltb 0 (off_weight (opt m)) = false) ->
  (k = "id"%string ->
   Rltb 0 (id_weight (opt m)) && negb (unsup (opt m)) = false) ->
  (k = unsup_loss (opt m) -> unsup (opt m) = false \/ fo = None) ->
  od_find k lr' = od_find k lr.
Proof.
  intros H Khm Kwh Koff Kid Kss.
  destruct (@stage_inv m batch outputs fo s lr lr' H)
    as (output & lr1 & lr2 & lr3 & lr4 & _ & H1 & [W1 W2] & [O1 O2] & H4 & H5).
  assert (E1 : od_find k lr1 = od_find k lr) by (apply (@iadd_other _ k _ _ _ H1 Khm)).
  assert (E2 : od_find k lr2 = od_find k lr1).
  { destruct (string_dec k "wh"%string) as [E|N]; [|apply W1; exact N].
    now rewrite (W2 (Kwh E)). }
  assert (E3 : od_find k lr3 = od_find k lr2).
  { destruct (string_dec k "off"%string) as [E|N]; [|apply O1; exact N].
    now rewrite (O2 (Koff E)). }
  assert (E4 : od_find k lr4 = od_find k lr3).
  { destruct (Rltb 0 (id_weight (opt m)) && negb (unsup (opt m))) eqn:Ec.
    - apply (@iadd_other _ k _ _ _ H4). intros E. specialize (Kid E). discriminate.
    - now rewrite H4. }
  assert (E5 : od_find k lr' = od_find k lr4).
  { destruct (unsup (opt m)) eqn:Eu; [|now rewrite H5].
    destruct fo as [fos|]; [|now rewrite H5].
    destruct H5 as (fout & find & c & _ & _ & _ & ->).
    apply od_find_set_neq. intros E.
    destruct (Kss E) as [F|F]; discriminate. }
  congruence.
Qed.

(** X9.  With the loss names of [_get_losses] and [reg_offset] off there
    is no ['off'] entry in [loss_results], which [forward] reads all the
    same when it forms the detection loss: the call never returns, and
    once the loop over the stages has completed it raises [KeyError]. *)
Theorem forward_needs_offset_state (o : Opt) (m : t)
    (outputs : list (Stage Tensor)) (fo : option (list (Stage Tensor)))
    (batch : Batch Tensor) :
  init o (get_losses o) = Ok m ->
  reg_offset o = false ->
  is_ok (forward' m outputs fo batch) = false /\
  (forall lr,
      for_range (Z.to_nat (num_stacks o)) (stage' m batch outputs fo)
                (zero_results (get_losses o)) = Ok lr ->
      forward' m outputs fo batch = Raise KeyError).
Proof.
  intros Hinit Hoff.
  destruct (@init_inv o (get_losses o) m Hinit) as (Eo & Es & _ & _ & _ & Hnames).
  assert (Hnot : forall lr,
             for_range (Z.to_nat (num_stacks o)) (stage' m batch outputs fo)
                       (zero_results (get_losses o)) = Ok lr ->
             od_find "off"%string lr = None).
  { intros lr Hlr.
    apply (@for_range_inv _ (stage' m batch outputs fo)
             (fun lr => od_find "off"%string lr = None)) with
      (n := Z.to_nat (num_stacks o)) (s := zero_results (get_losses o));
      [| |exact Hlr].
    - intros j st st' Ist Hst. rewrite <- Ist.
      apply (@stage_frame m batch outputs fo j st st' "off"%string Hst); rewrite ?Eo.
      + discriminate.
      + discriminate.
      + intros _. now rewrite Hoff.
      + discriminate.
      + intros E. destruct (unsup o) eqn:Eu; [|now left].
        destruct (Hnames eq_refl) as [F|[F|F]]; rewrite F in E; discriminate.
    - rewrite zero_results_find.
      destruct (in_dec string_dec "off"%string (get_losses o)) as [Hin|]; [|reflexivity].
      exfalso. unfold get_losses in Hin. rewrite Hoff in Hin.
      cbn [app] in Hin.
      destruct Hin as [F|[F|[F|Hin]]]; try discriminate.
      destruct (unsup o) eqn:Eu.
      + destruct Hin as [F|[]].
        destruct (Hnames eq_refl) as [G|[G|G]]; rewrite G in F; discriminate.
      + destruct Hin as [F|[]]. discriminate. }
  assert (Hraise : forall lr,
             for_range (Z.to_nat (num_stacks o)) (stage' m batch outputs fo)
                       (zero_results (get_losses o)) = Ok lr ->
             forward' m outputs fo batch = Raise KeyError).
  { intros lr Hlr. unfold forward. cbv zeta. rewrite Eo, Es, Hlr. cbn [bind].
    specialize (Hnot lr Hlr). unfold od_get. rewrite Hnot.
    destruct (od_find "hm"%string lr); [|reflexivity]. cbn [bind].
    destruct (od_find "wh"%string lr); reflexivity. }
  split; [|exact Hraise].
  destruct (for_range (Z.to_nat (num_stacks o)) (stage' m batch outputs fo)
                      (zero_results (get_losses o))) as [lr|e] eqn:E.
  - now rewrite (Hraise lr eq_refl).
  - unfold forward. cbv zeta. rewrite Eo, Es, E. reflexivity.
Qed.

Lemma py_index_nat_inv {A : Type} (xs : list A) (i : nat) (x : A) :
  py_index xs (Z.of_nat i) = Ok x -> nth_error xs i = Some x.
Proof.
  intros H. destruct (nth_error xs i) as [y|] eqn:E.
  - rewrite (py_index_in _ _ E) in H. congruence.
  - apply nth_error_None in E. rewrite py_index_out in H by lia. discriminate.
Qed.

Lemma firstn_S_nth {A : Type} (xs : list A) (i : nat) (x : A) :
  nth_error xs i = Some x -> firstn (S i) xs = (firstn i xs ++ [x])%list.
Proof.
  revert i. induction xs as [|a xs IH]; intros [|i] H; try discriminate.
  - injection H as ->. reflexivity.
  - simpl. f_equal. now apply IH.
Qed.

Lemma running_sum_snoc (l : list R) (a : R) :
  running_sum (l ++ [a]) = running_sum l + a.
Proof.
  unfold running_sum. now rewrite fold_left_app.
Qed.

(** The forward pass after the loop: the entries other than ['loss'] are
    those the loop left, and the scalar is combined from them. *)
Lemma forward_inv (m : t) (outputs : list (Stage Tensor))
    (fo : option (list (Stage Tensor))) (batch : Batch Tensor)
    (total : R) (lr : odict R) :
  forward' m outputs fo batch = Ok (total, lr) ->
  exists lr0 hm wh off v,
    for_range (Z.to_nat (num_stacks (opt m))) (stage' m batch outputs fo)
              (zero_results (loss_states m)) = Ok lr0 /\
    od_find "hm"%string lr0 = Some hm /\ od_find "wh"%string lr0 = Some wh /\
    od_find "off"%string lr0 = Some off /\
    od_find (if unsup (opt m) then unsup_loss (opt m) else "id"%string) lr0
    = Some v /\
    total = (exp (- s_det m)
             * (hm_weight (opt m) * hm + wh_weight (opt m) * wh
                + off_weight (opt m) * off)
             + exp (- s_id m) * (exp (- s_id m) * v) + s_det m + s_id m)
            * (5 / 10) /\
    lr = od_set "loss" total lr0.
Proof.
  unfold forward. cbv zeta. intros H.
  apply bind_ok_inv in H. destruct H as (lr0 & Hloop & H).
  apply bind_ok_inv in H. destruct H as (hm & Hhm & H).
  apply bind_ok_inv in H. destruct H as (wh & Hwh & H).
  apply bind_ok_inv in H. destruct H as (off & Hoff & H).
  apply bind_ok_inv in H. destruct H as (idl & Hid & H).
  injection H as <- <-.
  unfold od_get in Hhm, Hwh, Hoff.
  destruct (od_find "hm"%string lr0) as [hm'|] eqn:Fh; [|discriminate].
  destruct (od_find "wh"%string lr0) as [wh'|] eqn:Fw; [|discriminate].
  destruct (od_find "off"%string lr0) as [off'|] eqn:Fo; [|discriminate].
  injection Hhm as ->. injection Hwh as ->. injection Hoff as ->.
  assert (Hv : exists v,
             od_find (if unsup (opt m) then unsup_loss (opt m)
                      else "id"%string) lr0 = Some v /\
             idl = exp (- s_id m) * v).
  { destruct (unsup (opt m)); cbn [negb] in Hid;
      apply bind_ok_inv in Hid; destruct Hid as (v & Hv & Hid);
      injection Hid as <-; unfold od_get in Hv;
      match type of Hv with
      | match od_find ?k lr0 with _ => _ end = _ =>
          destruct (od_find k lr0) as [v'|]; [|discriminate]
      end; injection Hv as ->; exists v; auto. }
  destruct Hv as (v & Hv & ->).
  exists lr0, hm, wh, off, v.
  split; [exact Hloop|]. repeat split; try reflexivity; assumption.
Qed.

(** X10.  Self-supervised training without flipped outputs
    ([output_dict] has no ['flipped'] entry) is not refused: when
    [forward] returns, the self-supervised entry of [loss_results] is
    still the 0 it was initialised with, and the returned loss is
    [0.5 * (exp(-s_det) * det_loss + s_det + s_id)], without any term for
    the embeddings. *)
Theorem selfsup_needs_flipped_outputs (o : Opt) (m : t)
    (outputs : list (Stage Tensor)) (batch : Batch Tensor)
    (total : R) (lr : odict R) :
  init o (get_losses o) = Ok m ->
  unsup o = true ->
  forward' m outputs None batch = Ok (total, lr) ->
  od_get (unsup_loss o) lr = Ok 0 /\
  exists hm wh off,
    od_get "hm" lr = Ok hm /\ od_get "wh" lr = Ok wh /\
    od_get "off" lr = Ok off /\
    total = (exp (- s_det m)
             * (hm_weight o * hm + wh_weight o * wh + off_weight o * off)
             + s_det m + s_id m) * (5 / 10).
Proof.
  intros Hinit Hu Hfwd.
  destruct (@init_inv o (get_losses o) m Hinit) as (Eo & Es & _ & _ & _ & Hnames).
  specialize (Hnames Hu).
  destruct (@forward_inv m outputs None batch total lr Hfwd)
    as (lr0 & hm & wh & off & v & Hloop & Hhm & Hwh & Hoff & Hv & Ht & Hlr).
  rewrite Eo, Es in *. rewrite Hu in Hv.
  assert (Hzero : od_find (unsup_loss o) lr0 = Some 0).
  { apply (@for_range_inv _ (stage' m batch outputs None)
             (fun lr => od_find (unsup_loss o) lr = Some 0)) with
      (n := Z.to_nat (num_stacks o)) (s := zero_results (get_losses o));
      [| |exact Hloop].
    - intros j st st' Ist Hst. rewrite <- Ist.
      apply (@stage_frame m batch outputs None j st st' (unsup_loss o) Hst);
        rewrite ?Eo;
        try (intros E; destruct Hnames as [F|[F|F]]; rewrite F in E;
             discriminate).
      intros _. now right.
    - rewrite zero_results_find.
      destruct (in_dec string_dec (unsup_loss o) (get_losses o)) as [|Hnin];
        [reflexivity|].
      exfalso. apply Hnin. unfold get_losses. rewrite Hu.
      apply in_or_app. right. apply in_or_app. right. now left. }
  rewrite Hzero in Hv. injection Hv as <-.
  assert (Hne : forall k, k <> "loss"%string -> od_get k lr = od_get k lr0).
  { intros k Hk. unfold od_get. rewrite Hlr.
    now rewrite (od_find_set_neq _ _ Hk). }
  split.
  - rewrite Hne; [unfold od_get; now rewrite Hzero|].
    destruct Hnames as [F|[F|F]]; rewrite F; discriminate.
  - exists hm, wh, off.
    rewrite !Hne by discriminate. unfold od_get. rewrite Hhm, Hwh, Hoff.
    repeat split; try reflexivity. rewrite Ht. ring.
Qed.

(** X20.  For every module, whatever the values of [s_det] and [s_id],
    whose self-supervised entry is not named ['loss']: when [forward]
    returns, the scalar is the ['loss'] entry of the dictionary it returns
    and equals
    [0.5 * (exp(-s_det) * det_loss + exp(-s_id) * (exp(-s_id) * l) + s_det + s_id)],
    where [det_loss] is the weighted sum of the returned ['hm'], ['wh']
    and ['off'] entries and [l] the returned ['id'] entry, or the
    self-supervised one when [unsup] is set: the embedding loss is
    weighted by [exp(-s_id)] twice. *)
Theorem forward_total_from_results (m : t) (outputs : list (Stage Tensor))
    (fo : option (list (Stage Tensor))) (batch : Batch Tensor)
    (total : R) (lr : odict R) :
  (unsup (opt m) = true -> unsup_loss (opt m) <> "loss"%string) ->
  forward' m outputs fo batch = Ok (total, lr) ->
  od_get "loss" lr = Ok total /\
  exists hm wh off l,
    od_get "hm" lr = Ok hm /\ od_get "wh" lr = Ok wh /\
    od_get "off" lr = Ok off /\
    od_get (if unsup (opt m) then unsup_loss (opt m) else "id"%string) lr
    = Ok l /\
    total = (exp (- s_det m)
             * (hm_weight (opt m) * hm + wh_weight (opt m) * wh
                + off_weight (opt m) * off)
             + exp (- s_id m) * (exp (- s_id m) * l) + s_det m + s_id m)
            * (5 / 10).
Proof.
  intros Hkey Hfwd.
  destruct (@forward_inv m outputs fo batch total lr Hfwd)
    as (lr0 & hm & wh & off & v & _ & Hhm & Hwh & Hoff & Hv & Ht & Hlr).
  assert (Hne : forall k, k <> "loss"%string -> od_get k lr = od_get k lr0).
  { intros k Hk. unfold od_get. rewrite Hlr.
    now rewrite (od_find_set_neq _ _ Hk). }
  split.
  - unfold od_get. rewrite Hlr, od_find_set_eq. reflexivity.
  - exists hm, wh, off, v.
    rewrite !Hne;
      [| destruct (unsup (opt m)); [now apply Hkey | discriminate]
       | discriminate | discriminate | discriminate ].
    unfold od_get. rewrite Hhm, Hwh, Hoff, Hv. auto.
Qed.

(** The state of the entries after [k] stages. *)
Lemma stage_loop_spec (o : Opt) (m : t) (outputs : list (Stage Tensor))
    (fo : option (list (Stage Tensor))) (batch : Batch Tensor) :
  init o (get_losses o) = Ok m ->
  forall k lr,
    for_range k (stage' m batch outputs fo) (zero_results (get_losses o))
    = Ok lr ->
    (k <= length outputs)%nat /\
    od_find "hm"%string lr
    = Some (running_sum (map (hm_term m batch) (firstn k outputs))) /\
    (unsup o = false -> 0 < id_weight o ->
     od_find "id"%string lr
     = Some (running_sum (map (id_term m batch) (firstn k outputs)))) /\
    (unsup o = true -> forall fos, fo = Some fos -> (0 < k)%nat ->
     exists output fout find c,
       nth_error outputs (k - 1) = Some output /\
       nth_error fos (k - 1) = Some fout /\
       b_flipped_ind batch = Some find /\
       SelfSupLoss m = Some c /\
       od_find (unsup_loss o) lr
       = Some (apply_self_sup c (head_of m batch output)
                 (flipped_id_head (o_id fout) find (b_reg_mask batch))
                 (b_num_objs batch))).
Proof.
  intros Hinit.
  destruct (@init_inv o (get_losses o) m Hinit) as (Eo & Es & _ & _ & _ & Hnames).
  induction k as [|k IH]; intros lr H.
  - injection H as <-. split; [lia|]. rewrite !zero_results_find.
    split; [|split].
    + destruct (in_dec string_dec "hm"%string (get_losses o)) as [|Hnin];
        [reflexivity|].
      exfalso. apply Hnin. unfold get_losses. right. now left.
    + intros Hu _. 
      destruct (in_dec string_dec "id"%string (get_losses o)) as [|Hnin];
        [reflexivity|].
      exfalso. apply Hnin. unfold get_losses. rewrite Hu.
      apply in_or_app. right. apply in_or_app. right. now left.
    + intros _ fos _ F. lia.
  - rewrite for_range_S in H. apply bind_ok_inv in H.
    destruct H as (st & Hst & H).
    destruct (IH st Hst) as (Hk & Hhm & Hid & Hss).
    destruct (@stage_inv m batch outputs fo (Z.of_nat k) st lr H)
      as (output & lr1 & lr2 & lr3 & lr4 & Hout & H1 & [W1 W2] & [O1 O2]
          & H4 & H5).
    rewrite Eo in *.
    apply py_index_nat_inv in Hout.
    assert (Hlen : (S k <= length outputs)%nat).
    { assert (k < length outputs)%nat by (apply nth_error_Some; congruence).
      lia. }
    rewrite (firstn_S_nth _ _ Hout), !map_app. cbn [map].
    rewrite !running_sum_snoc.
    assert (Hfin : forall key, (unsup o = true -> key <> unsup_loss o) ->
                     od_find key lr = od_find key lr4).
    { intros key Hkey. destruct (unsup o) eqn:Eu; [|now rewrite H5].
      destruct fo as [fos|]; [|now rewrite H5].
      destruct H5 as (fout & find & c & _ & _ & _ & ->).
      apply od_find_set_neq. now apply Hkey. }
    split; [exact Hlen|]. split; [|split].
    + destruct (@iadd_same _ _ _ _ H1) as (old & v & Hold & Hv & Hnew).
      injection Hv as <-. rewrite Hhm in Hold. injection Hold as <-.
      rewrite Hfin.
      * assert (E4 : od_find "hm"%string lr4 = od_find "hm"%string lr3).
        { destruct (Rltb 0 (id_weight o) && negb (unsup o)).
          - apply (@iadd_other _ "hm"%string _ _ _ H4). discriminate.
          - now rewrite H4. }
        rewrite E4, O1, W1 by discriminate. exact Hnew.
      * intros Hu. destruct (Hnames Hu) as [F|[F|F]]; rewrite F; discriminate.
    + intros Hu Hw. specialize (Hid Hu Hw).
      rewrite Hfin by (rewrite Hu; discriminate).
      rewrite (@Rltb_true _ _ Hw), Hu in H4. cbn [andb negb] in H4.
      destruct (@iadd_same _ _ _ _ H4) as (old & v & Hold & Hv & Hnew).
      injection Hv as <-.
      rewrite O1, W1 in Hold by discriminate.
      rewrite (@iadd_other _ "id"%string _ _ _ H1) in Hold by discriminate.
      rewrite Hid in Hold. injection Hold as <-. exact Hnew.
    + intros Hu fos Hfo _. rewrite Hu, Hfo in H5.
      destruct H5 as (fout & find & c & Hf & Hfind & Hc & ->).
      apply py_index_nat_inv in Hf.
      replace (S k - 1)%nat with k by lia.
      exists output, fout, find, c.
      rewrite od_find_set_eq. auto 10.
Qed.

(** X11.  For a module built from the loss names of [_get_losses], when
    [forward] returns: at least [num_stacks] stage outputs were given; the
    ['hm'] entry is the sum over the stages of the heatmap loss divided by
    [num_stacks], their mean; the ['id'] entry of supervised training is
    the plain sum of the stages' identity losses, not divided; and the
    self-supervised entry is the loss of the last stage alone. *)
Theorem stage_losses_aggregate (o : Opt) (m : t)
    (outputs : list (Stage Tensor)) (fo : option (list (Stage Tensor)))
    (batch : Batch Tensor) (total : R) (lr : odict R) :
  init o (get_losses o) = Ok m ->
  forward' m outputs fo batch = Ok (total, lr) ->
  let n := Z.to_nat (num_stacks o) in
  (n <= length outputs)%nat /\
  od_get "hm" lr
  = Ok (running_sum (map (hm_term m batch) (firstn n outputs))) /\
  (unsup o = false -> 0 < id_weight o ->
   od_get "id" lr
   = Ok (running_sum (map (id_term m batch) (firstn n outputs)))) /\
  (unsup o = true -> forall fos, fo = Some fos -> (0 < n)%nat ->
   exists output fout find c,
     nth_error outputs (n - 1) = Some output /\
     nth_error fos (n - 1) = Some fout /\
     b_flipped_ind batch = Some find /\
     SelfSupLoss m = Some c /\
     od_get (unsup_loss o) lr
     = Ok (apply_self_sup c (head_of m batch output)
             (flipped_id_head (o_id fout) find (b_reg_mask batch))
             (b_num_objs batch))).
Proof.
  intros Hinit Hfwd n.
  destruct (@init_inv o (get_losses o) m Hinit) as (Eo & Es & _ & _ & _ & Hnames).
  destruct (@forward_inv m outputs fo batch total lr Hfwd)
    as (lr0 & hm & wh & off & v & Hloop & _ & _ & _ & _ & _ & Hlr).
  rewrite Eo, Es in Hloop. fold n in Hloop.
  destruct (@stage_loop_spec o m outputs fo batch Hinit n lr0 Hloop)
    as (Hn & Hhm & Hid & Hss).
  assert (Hne : forall k, k <> "loss"%string -> od_get k lr = od_get k lr0).
  { intros k Hk. unfold od_get. rewrite Hlr.
    now rewrite (od_find_set_neq _ _ Hk). }
  split; [exact Hn|]. split; [|split].
  - rewrite Hne by discriminate. unfold od_get. now rewrite Hhm.
  - intros Hu Hw. rewrite Hne by discriminate. unfold od_get.
    now rewrite (Hid Hu Hw).
  - intros Hu fos Hfo Hpos.
    destruct (Hss Hu fos Hfo Hpos) as (output & fout & find & c & A & B & C & D & E).
    exists output, fout, find, c.
    rewrite Hne;
      [|destruct (Hnames Hu) as [F|[F|F]]; rewrite F; discriminate].
    unfold od_get. rewrite E. auto 10.
Qed.

End LossFacts.

(** Evaluation of the loss model inside a hypothesis. *)
Ltac eval_loss_in H :=
  cbv - [Rplus Rmult Rdiv Rminus Ropp Rinv exp IZR sqrt ln Rltb Rlt_dec] in H.

Ltac fresh_module Em Hm :=
  pose proof Em as Hm;
  unfold LossSpec.fresh, MotLoss.init in Hm; eval_loss_in Hm;
  injection Hm as Hm.

(** X9 at the sample world: a supervised module without the offset head,
    one stage. *)
Lemma forward_needs_offset_state_witness :
  exists m,
    LossSpec.fresh (LossSamples.no_offset false 1) = Ok m /\
    LossSpec.forward m [LossSamples.plain_stage 0 0 1] None LossSpec.batch
    = Raise KeyError.
Proof.
  destruct (LossSpec.fresh (LossSamples.no_offset false 1)) as [m|e] eqn:Em;
    [|unfold LossSpec.fresh, MotLoss.init in Em; eval_loss_in Em;
      discriminate].
  fresh_module Em Hm.
  exists m. split; [reflexivity|].
  eapply (proj2 (@forward_needs_offset_state LossSpec.Tensor LossSpec.sigmoid
                   LossSpec.apply_crit LossSpec.apply_dense_wh
                   LossSpec.apply_reg LossSpec.scaled_id_head
                   LossSpec.flipped_id_head LossSpec.apply_id_loss
                   LossSpec.apply_self_sup
                   (LossSamples.no_offset false 1) m
                   [LossSamples.plain_stage 0 0 1] None LossSpec.batch
                   Em eq_refl)).
  rewrite <- Hm. eval_loss. rewrite ?Rltb_true by lra. eval_loss.
  reflexivity.
Defined.

(** X10 at the sample world: a self-supervised module, one stage whose
    embedding loss would be 5, no flipped outputs. *)
Lemma selfsup_needs_flipped_outputs_witness :
  exists m total lr,
    LossSpec.fresh (LossSpec.base true "l1" 1) = Ok m /\
    LossSpec.forward m [LossSpec.stage_of 1 0 0 5] None LossSpec.batch
    = Ok (total, lr) /\
    od_get "nt_xent" lr = Ok 0%R.
Proof.
  destruct (LossSpec.fresh (LossSpec.base true "l1" 1)) as [m|e] eqn:Em;
    [|unfold LossSpec.fresh, MotLoss.init in Em; eval_loss_in Em;
      discriminate].
  fresh_module Em Hm.
  assert (Hf : exists total lr,
             LossSpec.forward m [LossSpec.stage_of 1 0 0 5] None LossSpec.batch
             = Ok (total, lr)).
  { rewrite <- Hm. eexists. eexists. run_forward. reflexivity. }
  destruct Hf as (total & lr & Hf).
  exists m, total, lr. split; [reflexivity|]. split; [exact Hf|].
  exact (proj1 (@selfsup_needs_flipped_outputs LossSpec.Tensor LossSpec.sigmoid
                  LossSpec.apply_crit LossSpec.apply_dense_wh
                  LossSpec.apply_reg LossSpec.scaled_id_head
                  LossSpec.flipped_id_head LossSpec.apply_id_loss
                  LossSpec.apply_self_sup
                  (LossSpec.base true "l1" 1) m
                  [LossSpec.stage_of 1 0 0 5] LossSpec.batch total lr
                  Em eq_refl Hf)).
Defined.

(** X11 at the sample world: two supervised stages with heatmap loss 1
    and identity loss 1 each. *)
Lemma stage_losses_aggregate_witness :
  exists m total lr,
    LossSpec.fresh (LossSpec.base false "l1" 2) = Ok m /\
    LossSpec.forward m [LossSpec.stage_of 1 0 0 1; LossSpec.stage_of 1 0 0 1]
                     None LossSpec.batch = Ok (total, lr) /\
    od_get "hm" lr = Ok (running_sum [1 / 2; 1 / 2])%R /\
    od_get "id" lr = Ok (running_sum [1; 1])%R.
Proof.
  destruct (LossSpec.fresh (LossSpec.base false "l1" 2)) as [m|e] eqn:Em;
    [|unfold LossSpec.fresh, MotLoss.init in Em; eval_loss_in Em;
      discriminate].
  fresh_module Em Hm.
  assert (Hf : exists total lr,
             LossSpec.forward m
               [LossSpec.stage_of 1 0 0 1; LossSpec.stage_of 1 0 0 1]
               None LossSpec.batch = Ok (total, lr)).
  { rewrite <- Hm. eexists. eexists. run_forward. reflexivity. }
  destruct Hf as (total & lr & Hf).
  exists m, total, lr. split; [reflexivity|]. split; [exact Hf|].
  destruct (@stage_losses_aggregate LossSpec.Tensor LossSpec.sigmoid
              LossSpec.apply_crit LossSpec.apply_dense_wh
              LossSpec.apply_reg LossSpec.scaled_id_head
              LossSpec.flipped_id_head LossSpec.apply_id_loss
              LossSpec.apply_self_sup
              (LossSpec.base false "l1" 2) m
              [LossSpec.stage_of 1 0 0 1; LossSpec.stage_of 1 0 0 1]
              None LossSpec.batch total lr Em Hf) as (_ & Hhm & Hid & _).
  rewrite <- Hm in Hhm, Hid.
  split; [exact Hhm|]. apply Hid; [reflexivity | simpl; lra].
Defined.

(** X20 at the sample world: one supervised stage with identity loss 1
    and no detection loss. *)
Lemma forward_total_from_results_witness :
  exists m total lr,
    LossSpec.fresh (LossSpec.base false "l1" 1) = Ok m /\
    LossSpec.forward m [LossSpec.stage_of 0 0 0 1] None LossSpec.batch
    = Ok (total, lr) /\
    od_get "loss" lr = Ok total.
Proof.
  destruct (LossSpec.fresh (LossSpec.base false "l1" 1)) as [m|e] eqn:Em;
    [|unfold LossSpec.fresh, MotLoss.init in Em; eval_loss_in Em;
      discriminate].
  fresh_module Em Hm.
  assert (Hf : exists total lr,
             LossSpec.forward m [LossSpec.stage_of 0 0 0 1] None LossSpec.batch
             = Ok (total, lr)).
  { rewrite <- Hm. eexists. eexists. run_forward. reflexivity. }
  destruct Hf as (total & lr & Hf).
  exists m, total, lr. split; [reflexivity|]. split; [exact Hf|].
  refine (proj1 (@forward_total_from_results LossSpec.Tensor LossSpec.sigmoid
                   LossSpec.apply_crit LossSpec.apply_dense_wh
                   LossSpec.apply_reg LossSpec.scaled_id_head
                   LossSpec.flipped_id_head LossSpec.apply_id_loss
                   LossSpec.apply_self_sup m
                   [LossSpec.stage_of 0 0 0 1] None LossSpec.batch total lr
                   _ Hf)).
  rewrite <- Hm. cbn. discriminate.
Defined.

(** ** LoadImages *)

Lemma py_pos_wrap (n : nat) (i : Z) :
  (- Z.of_nat n <= i < Z.of_nat n)%Z ->
  py_pos n i = Ok (Z.to_nat (i mod Z.of_nat n)).
Proof.
  intros H. unfold py_pos. cbv zeta.
  destruct (Z.ltb_spec i 0) as [Hi|Hi].
  - assert (E1 : (i + Z.of_nat n <? 0)%Z = false) by (apply Z.ltb_ge; lia).
    assert (E2 : (Z.of_nat n <=? i + Z.of_nat n)%Z = false)
      by (apply Z.leb_gt; lia).
    rewrite E1, E2. cbn [orb]. do 2 f_equal.
    apply Z.mod_unique with (q := (-1)%Z); lia.
  - assert (E1 : (i <? 0)%Z = false) by (apply Z.ltb_ge; lia).
    assert (E2 : (Z.of_nat n <=? i)%Z = false) by (apply Z.leb_gt; lia).
    rewrite E1, E2. cbn [orb]. do 2 f_equal.
    symmetry. apply Z.mod_small. lia.
Qed.

Lemma py_index_wrap {A : Type} (xs : list A) (i : Z) :
  (- Z.of_nat (length xs) <= i < Z.of_nat (length xs))%Z ->
  exists x, nth_error xs (Z.to_nat (i mod Z.of_nat (length xs))) = Some x /\
            py_index xs i = Ok x.
Proof.
  intros H. unfold py_index. rewrite (py_pos_wrap _ H).
  assert (Hlt : (Z.to_nat (i mod Z.of_nat (length xs)) < length xs)%nat).
  { pose proof (Z.mod_pos_bound i (Z.of_nat (length xs)) ltac:(lia)). lia. }
  destruct (nth_error xs (Z.to_nat (i mod Z.of_nat (length xs)))) as [x|] eqn:E.
  - eauto.
  - apply nth_error_None in E. lia.
Qed.

Lemma py_index_outside {A : Type} (xs : list A) (i : Z) :
  (i < - Z.of_nat (length xs) \/ Z.of_nat (length xs) <= i)%Z ->
  py_index xs i = Raise IndexError.
Proof.
  intros H. destruct (py_index xs i) as [x|e] eqn:E.
  - exfalso.
    pose proof (proj1 (py_index_ok_iff xs i) (ex_intro _ x E)). lia.
  - f_equal. apply (py_index_only _ _ E).
Qed.

Section LoadImagesFacts.

Import LoadImages.

Variable Image : Type.
Variable ext_lower : string -> string.
Variable imread : string -> option Image.
Variable image_hw : Image -> Z * Z.

Local Abbreviation init' := (init ext_lower).
Local Abbreviation load' := (load imread image_hw).
Local Abbreviation next' := (next imread image_hw).
Local Abbreviation getitem' := (getitem imread image_hw).
Local Abbreviation advance' := (advance imread image_hw).

(** A constructed loader holds at least one file, and [nF] is their
    number. *)
Lemma loader_init_inv (path : string) (kind : PathKind) (img_size : Z * Z)
    (self : t) :
  init' path kind img_size = Yield self ->
  nF self = Z.of_nat (length (files self)) /\ (0 < nF self)%Z /\
  width self = fst img_size /\ height self = snd img_size /\
  count self = 0%Z /\ kind <> Neither.
Proof.
  unfold init.
  destruct kind as [listing| |]; cbn [obind]; cbv zeta; try discriminate;
    match goal with
    | |- context [(?x >? 0)%Z] => destruct (Z.gtb_spec x 0) as [Hpos|]
    end; try discriminate;
    intros H; injection H as <-; cbn [files nF width height count];
    (repeat split; try (cbn in *; lia); discriminate).
Qed.

Lemma next_state (self : t) :
  fst (next' self)
  = mk (files self) (nF self) (width self) (height self) (count self + 1).
Proof.
  unfold next. cbv zeta. cbn [count nF].
  destruct (count self + 1 =? nF self)%Z; reflexivity.
Qed.

Lemma advance_state (k : nat) (self : t) :
  advance' k (iter self)
  = mk (files self) (nF self) (width self) (height self) (Z.of_nat k - 1).
Proof.
  induction k as [|k IH].
  - reflexivity.
  - cbn [advance]. rewrite next_state, IH. cbn [files nF width height count].
    f_equal. lia.
Qed.

Lemma load_attrs (self self' : t) (p : string) :
  width self' = width self -> height self' = height self ->
  load' self' p = load' self p.
Proof.
  intros Hw Hh. unfold load. now rewrite Hw, Hh.
Qed.

(** An image of positive size that is not too elongated for a positive
    target comes back at the configured size; any other is refused by
    [cv2.resize]. *)
Lemma letterbox_shape (h w height width : Z) :
  (0 < h)%Z -> (0 < w)%Z ->
  (0 < height)%Z -> (0 < width)%Z ->
  (h < 2 * w * height)%Z -> (w < 2 * h * width)%Z ->
  exists ratio dw dh,
    Letterbox.letterbox (h, w) height width
    = Ok ((height, width), ratio, dw, dh).
Proof.
  intros Hh Hw H1 H2 H3 H4.
  destruct (@letterbox_closed_form h w height width Hh Hw)
    as (_ & _ & Hok & _).
  destruct (proj2 (@new_shape_pos_iff h w height width Hh Hw)
                  (conj H1 (conj H2 (conj H3 H4)))) as [Pw Ph].
  eexists. eexists. eexists. exact (Hok Pw Ph).
Qed.

Lemma letterbox_refused (h w height width : Z) :
  (0 < h)%Z -> (0 < w)%Z ->
  (height <= 0 \/ width <= 0 \/ 2 * w * height <= h \/ 2 * h * width <= w)%Z ->
  Letterbox.letterbox (h, w) height width = Raise Cv2Error.
Proof.
  intros Hh Hw Hbad.
  destruct (@letterbox_closed_form h w height width Hh Hw)
    as (_ & _ & _ & Hno).
  pose proof (@new_shape_pos_iff h w height width Hh Hw) as Pos.
  cbv zeta in Pos, Hno. apply Hno.
  destruct (Z_lt_le_dec 0 (Letterbox.py_round
              (inject_Z w * Letterbox.min_float (inject_Z height / inject_Z h)
                                                (inject_Z width / inject_Z w))))
    as [Pw|Pw]; [|now left].
  destruct (Z_lt_le_dec 0 (Letterbox.py_round
              (inject_Z h * Letterbox.min_float (inject_Z height / inject_Z h)
                                                (inject_Z width / inject_Z w))))
    as [Ph|Ph]; [|now right].
  destruct (proj1 Pos (conj Pw Ph)) as (H1 & H2 & H3 & H4). lia.
Qed.

Lemma load_readable (self : t) (p : string) (img0 : Image) :
  imread p = Some img0 ->
  (0 < fst (image_hw img0))%Z -> (0 < snd (image_hw img0))%Z ->
  (0 < height self)%Z -> (0 < width self)%Z ->
  (fst (image_hw img0) < 2 * snd (image_hw img0) * height self)%Z ->
  (snd (image_hw img0) < 2 * fst (image_hw img0) * width self)%Z ->
  load' self p = Yield (p, (3, height self, width self)%Z, img0).
Proof.
  intros Hr Hh Hw H1 H2 H3 H4. unfold load. rewrite Hr.
  destruct (image_hw img0) as [h w]. cbn [fst snd] in Hh, Hw, H3, H4.
  destruct (@letterbox_shape h w (height self) (width self) Hh Hw H1 H2 H3 H4)
    as (ratio & dw & dh & ->).
  reflexivity.
Qed.

Lemma load_refused (self : t) (p : string) (img0 : Image) :
  imread p = Some img0 ->
  (0 < fst (image_hw img0))%Z -> (0 < snd (image_hw img0))%Z ->
  (height self <= 0 \/ width self <= 0 \/
   2 * snd (image_hw img0) * height self <= fst (image_hw img0) \/
   2 * fst (image_hw img0) * width self <= snd (image_hw img0))%Z ->
  load' self p = Throw (Builtin Cv2Error).
Proof.
  intros Hr Hh Hw Hbad. unfold load. rewrite Hr.
  destruct (image_hw img0) as [h w]. cbn [fst snd] in Hh, Hw, Hbad.
  rewrite (@letterbox_refused h w (height self) (width self) Hh Hw Hbad).
  reflexivity.
Qed.

(** X12.  Iterating over a constructed [LoadImages]: after [__iter__], the
    call number [k] of [__next__] (from 0) loads [files[k]] while
    [k < nF].  A readable image of positive size [h0] by [w0] comes back
    with its path as an array of the configured [(3, height, width)] when
    the configured size is positive and the image is not too elongated for
    it ([h0 < 2 * w0 * height] and [w0 < 2 * h0 * width]); otherwise the
    call raises [cv2.error].  Call number [nF] raises [StopIteration]; and
    every later call raises [IndexError] instead of [StopIteration]
    again. *)
Theorem load_images_iteration (path : string) (kind : PathKind)
    (img_size : Z * Z) (self : t) (k : nat) :
  init' path kind img_size = Yield self ->
  let r := snd (next' (advance' k (iter self))) in
  ((Z.of_nat k < nF self)%Z ->
   exists p, nth_error (files self) k = Some p /\ r = load' self p /\
             (forall img0,
                 imread p = Some img0 ->
                 (0 < fst (image_hw img0))%Z -> (0 < snd (image_hw img0))%Z ->
                 ((0 < snd img_size)%Z -> (0 < fst img_size)%Z ->
                  (fst (image_hw img0)
                   < 2 * snd (image_hw img0) * snd img_size)%Z ->
                  (snd (image_hw img0)
                   < 2 * fst (image_hw img0) * fst img_size)%Z ->
                  r = Yield (p, (3, snd img_size, fst img_size)%Z, img0)) /\
                 ((snd img_size <= 0 \/ fst img_size <= 0 \/
                   2 * snd (image_hw img0) * snd img_size
                   <= fst (image_hw img0) \/
                   2 * fst (image_hw img0) * fst img_size
                   <= snd (image_hw img0))%Z ->
                  r = Throw (Builtin Cv2Error)))) /\
  (Z.of_nat k = nF self -> r = Throw StopIteration) /\
  ((nF self < Z.of_nat k)%Z -> r = Throw (Builtin IndexError)).
Proof.
  intros Hinit r.
  destruct (@loader_init_inv path kind img_size self Hinit)
    as (HnF & Hpos & Hw & Hh & _ & _).
  subst r. rewrite advance_state. unfold next. cbv zeta.
  cbn [count nF files].
  replace (Z.of_nat k - 1 + 1)%Z with (Z.of_nat k) by lia.
  split; [|split].
  - intros Hk.
    destruct (Z.eqb_spec (Z.of_nat k) (nF self)) as [E|_]; [lia|]. cbn [snd].
    destruct (nth_error (files self) k) as [p|] eqn:Ep;
      [|apply nth_error_None in Ep; lia].
    exists p. split; [reflexivity|].
    rewrite (py_index_in _ _ Ep). cbn [lift obind].
    assert (El : forall q, load' (mk (files self) (nF self) (width self)
                                     (height self) (Z.of_nat k)) q
                           = load' self q)
      by (intros q; apply load_attrs; reflexivity).
    rewrite El. split; [reflexivity|].
    intros img0 Hr H1 H2. rewrite <- Hw, <- Hh. split.
    + intros H3 H4 H5 H6.
      exact (@load_readable self p img0 Hr H1 H2 H3 H4 H5 H6).
    + intros Hbad. exact (@load_refused self p img0 Hr H1 H2 Hbad).
  - intros E. rewrite E, Z.eqb_refl. reflexivity.
  - intros Hk.
    destruct (Z.eqb_spec (Z.of_nat k) (nF self)) as [E|_]; [lia|]. cbn [snd].
    rewrite py_index_out by lia. reflexivity.
Qed.

(** X13.  [__getitem__] of a constructed [LoadImages] accepts every
    integer: the index is reduced modulo [nF], so it loads
    [files[idx mod nF]], never raises [IndexError], and shifting the index
    by [nF] gives the same result. *)
Theorem load_images_getitem_wraps (path : string) (kind : PathKind)
    (img_size : Z * Z) (self : t) (idx : Z) :
  init' path kind img_size = Yield self ->
  (exists p, nth_error (files self) (Z.to_nat (idx mod nF self)) = Some p /\
             getitem' self idx = load' self p) /\
  getitem' self (idx + nF self) = getitem' self idx.
Proof.
  intros Hinit.
  destruct (@loader_init_inv path kind img_size self Hinit)
    as (HnF & Hpos & _).
  assert (Hz : (nF self =? 0)%Z = false) by (apply Z.eqb_neq; lia).
  split.
  - unfold getitem. rewrite Hz. cbn [lift obind].
    pose proof (Z.mod_pos_bound idx (nF self) Hpos) as Hb.
    destruct (@py_index_wrap _ (files self) (idx mod nF self))
      as (p & Hp & Hx); [lia|].
    rewrite <- HnF in Hp. rewrite Z.mod_mod in Hp by lia.
    exists p. split; [exact Hp|]. rewrite Hx. reflexivity.
  - unfold getitem. rewrite Hz. cbn [lift obind].
    replace (idx + nF self)%Z with (idx + 1 * nF self)%Z by lia.
    now rewrite Z.mod_add by lia.
Qed.

End LoadImagesFacts.

(** X12 at the sample directory: the second call delivers [c.png] at the
    configured size, the third raises [StopIteration], the fourth
    [IndexError]. *)
Lemma load_images_iteration_witness :
  snd (LoadImages.next LoaderSamples.imread LoaderSamples.image_hw
         (LoadImages.advance LoaderSamples.imread LoaderSamples.image_hw 1
            (LoadImages.iter LoaderSamples.frames)))
  = Yield ("c.png"%string, (3, 608, 1088)%Z, (1080, 1920)%Z) /\
  snd (LoadImages.next LoaderSamples.imread LoaderSamples.image_hw
         (LoadImages.advance LoaderSamples.imread LoaderSamples.image_hw 2
            (LoadImages.iter LoaderSamples.frames)))
  = Throw StopIteration /\
  snd (LoadImages.next LoaderSamples.imread LoaderSamples.image_hw
         (LoadImages.advance LoaderSamples.imread LoaderSamples.image_hw 3
            (LoadImages.iter LoaderSamples.frames)))
  = Throw (Builtin IndexError).
Proof.
  assert (Hinit : LoadImages.init LoaderSamples.ext_lower "frames"
                    (LoadImages.Directory LoaderSamples.listing)
                    (1088, 608)%Z = Yield LoaderSamples.frames)
    by reflexivity.
  pose proof (@load_images_iteration LoaderSamples.Image
                LoaderSamples.ext_lower LoaderSamples.imread
                LoaderSamples.image_hw "frames"
                (LoadImages.Directory LoaderSamples.listing) (1088, 608)%Z
                LoaderSamples.frames) as T.
  split; [|split].
  - destruct (T 1%nat Hinit) as (H & _ & _).
    destruct H as (p & Hp & _ & Hr); [reflexivity|].
    injection Hp as <-.
    destruct (Hr (1080, 1920)%Z eq_refl eq_refl eq_refl) as [Hy _].
    apply Hy; reflexivity.
  - destruct (T 2%nat Hinit) as (_ & H & _). apply H. reflexivity.
  - destruct (T 3%nat Hinit) as (_ & _ & H). apply H. reflexivity.
Defined.

(** X13 at the sample directory: index [-1] loads the last file. *)
Lemma load_images_getitem_wraps_witness :
  LoadImages.getitem LoaderSamples.imread LoaderSamples.image_hw
    LoaderSamples.frames (-1)
  = LoadImages.load LoaderSamples.imread LoaderSamples.image_hw
      LoaderSamples.frames "c.png".
Proof.
  destruct (@load_images_getitem_wraps LoaderSamples.Image
              LoaderSamples.ext_lower LoaderSamples.imread
              LoaderSamples.image_hw "frames"
              (LoadImages.Directory LoaderSamples.listing) (1088, 608)%Z
              LoaderSamples.frames (-1)%Z eq_refl) as [(p & Hp & H) _].
  injection Hp as <-. exact H.
Defined.

(** ** LoadImagesAndLabels.__getitem__ *)

Section PairedPaths.

Import LoadImagesAndLabels.

Variable label_path_of : string -> string.
Variables (Image Tensor : Type).
Variable imread : string -> option Image.
Variable flip : Image -> Image.
Variable image_hw : Image -> Z * Z.
Variable view :
  bool -> Image -> string -> result (Tensor * list JointDataset.LabelRow).

Local Abbreviation getitem' := (getitem imread flip image_hw view).
Local Abbreviation get_data' := (Encoder.get_data imread flip image_hw view).

(** X14.  [LoadImagesAndLabels.__getitem__] on a loader built from a
    manifest: an index in [-nF, nF) (a negative one counting from the end)
    hands [get_data] an image path of the manifest together with the
    label path derived from that same path, and the result has no flipped
    view; any other index raises [IndexError]. *)
Theorem paired_paths_getitem (lines : list string) (files_index : Z) :
  let self := init label_path_of lines in
  ((- nF self <= files_index < nF self)%Z ->
   exists p,
     nth_error (img_files self) (Z.to_nat (files_index mod nF self)) = Some p /\
     getitem' self files_index = get_data' p (label_path_of p) false /\
     forall d, getitem' self files_index = Ok d ->
               Encoder.d_flipped_img d = None /\
               Encoder.d_flipped_labels d = None) /\
  ((files_index < - nF self \/ nF self <= files_index)%Z ->
   getitem' self files_index = Raise IndexError).
Proof.
  intros self.
  set (fs := filter (fun x => (0 <? String.length x)%nat)
                    (map drop_newlines lines)).
  assert (Ei : img_files self = fs) by reflexivity.
  assert (El : label_files self = map label_path_of fs) by reflexivity.
  assert (En : nF self = Z.of_nat (length fs)) by reflexivity.
  split.
  - intros Hin. rewrite En in Hin.
    destruct (@py_index_wrap _ fs files_index Hin) as (p & Hp & Hx).
    assert (Hin' : (- Z.of_nat (length (map label_path_of fs)) <= files_index
                    < Z.of_nat (length (map label_path_of fs)))%Z)
      by (rewrite length_map; exact Hin).
    destruct (@py_index_wrap _ (map label_path_of fs) files_index Hin')
      as (q & Hq & Hy).
    rewrite length_map in Hq.
    rewrite (map_nth_error label_path_of _ _ Hp) in Hq. injection Hq as <-.
    exists p. rewrite Ei, En. split; [exact Hp|].
    assert (Eg : getitem' self files_index = get_data' p (label_path_of p) false).
    { unfold getitem. rewrite Ei, El, Hx. cbn [bind]. rewrite Hy. reflexivity. }
    split; [exact Eg|].
    intros d Hd. rewrite Eg in Hd.
    apply (@get_data_supervised Image Tensor imread flip image_hw view
             p (label_path_of p) d Hd).
  - intros Hout. rewrite En in Hout. unfold getitem. rewrite Ei.
    now rewrite (@py_index_outside _ fs files_index Hout).
Qed.

End PairedPaths.

(** ** DetDataset *)

Section DetFacts.

Import JointDataset.

Variable label_path_of : string -> string.
Variable loadtxt : string -> list LabelRow.

Lemma sliced_sums (l : list Z) :
  forall s,
    map (fun i => (s + zsum (firstn i l))%Z) (seq 0 (length l))
    = prefix_sums s l.
Proof.
  induction l as [|a l IH]; intros s; [reflexivity|].
  cbn [length seq map prefix_sums firstn zsum fold_right].
  rewrite Z.add_0_r. f_equal.
  rewrite <- seq_shift, map_map. rewrite <- IH.
  apply map_ext. intros i. cbn [firstn]. unfold zsum. cbn [fold_right]. lia.
Qed.

(** X15.  [DetDataset.__init__] computes the start offsets by slicing the
    list of dataset sizes, [JointDataset.__init__] by a running total; for
    the same manifests both give the same [cds], [nF], [nID], start
    indices and label paths, the offset of dataset [i] being the number
    of samples of the datasets before it. *)
Theorem det_init_agrees (o : Opt) (paths : odict (list string)) :
  od_wf paths ->
  let det := DetDataset.init label_path_of loadtxt paths in
  let joint := init label_path_of loadtxt o paths in
  DetDataset.cds det = cds joint /\
  DetDataset.nF det = nF joint /\
  DetDataset.nID det = nID joint /\
  DetDataset.tid_start_index det = tid_start_index joint /\
  DetDataset.label_files det = label_files joint /\
  DetDataset.img_files det = img_files joint /\
  forall i, (i < length paths)%nat ->
            nth_error (DetDataset.cds det) i
            = Some (zsum (firstn i (lens_of paths))).
Proof.
  intros Hwf det joint.
  destruct (@init_wf label_path_of loadtxt o paths Hwf)
    as (Eimg & Elbl & Etid & Estart & EnID & Ecds & EnF & _).
  fold joint in Eimg, Elbl, Etid, Estart, EnID, Ecds, EnF.
  assert (Hdet : det = DetDataset.mk (img_files joint) (label_files joint)
                         (tid_num joint) (tid_start_index joint) (nID joint)
                         (lens_of paths)
                         (map (fun i => zsum (firstn i (lens_of paths)))
                              (seq 0 (length (lens_of paths))))
                         (zsum (lens_of paths))).
  { subst det joint. unfold DetDataset.init, init.
    rewrite (@make_img_files_wf paths Hwf).
    destruct (make_tid_start
                (make_tid_num loadtxt (make_label_files label_path_of paths)))
      as [ts li].
    destruct (make_cds paths) as [[imn nf] cs]. reflexivity. }
  rewrite Hdet. cbn [DetDataset.cds DetDataset.nF DetDataset.nID
                     DetDataset.tid_start_index DetDataset.label_files
                     DetDataset.img_files].
  assert (Esl : map (fun i => zsum (firstn i (lens_of paths)))
                    (seq 0 (length (lens_of paths)))
                = prefix_sums 0 (lens_of paths)).
  { rewrite <- sliced_sums. apply map_ext. intros i. lia. }
  rewrite Ecds, EnF.
  split; [exact Esl|]. repeat split.
  intros i Hi.
  rewrite (nth_error_map (fun i => zsum (firstn i (lens_of paths)))).
  rewrite nth_error_seq.
  unfold lens_of. rewrite length_map.
  destruct (Nat.ltb_spec i (length paths)); [reflexivity | lia].
Qed.

End DetFacts.

(** The theorem at the sample datasets: the second dataset starts at 3. *)
Lemma det_init_agrees_witness :
  DetDataset.cds (DetDataset.init Sample.label_path_of Sample.loadtxt
                    Sample.paths) = [0; 3]%Z /\
  DetDataset.nF (DetDataset.init Sample.label_path_of Sample.loadtxt
                   Sample.paths) = 8%Z.
Proof.
  destruct (@det_init_agrees Sample.label_path_of Sample.loadtxt
              Sample.opt_unsup Sample.paths sample_paths_wf)
    as (H1 & H2 & _).
  split; [rewrite H1 | rewrite H2]; reflexivity.
Defined.

Section DetFetch.

Import JointDataset DetDataset.

Variables (Image Tensor : Type).
Variable imread : string -> option Image.
Variable flip : Image -> Image.
Variable image_hw : Image -> Z * Z.
Variable view : bool -> Image -> string -> result (Tensor * list LabelRow).
Variable isfile : string -> bool.
Variable loadtxt6 : string -> list LabelRow.
Variable offset_entry :
  option (list LabelRow) -> Z -> Z -> Labels -> result Labels.

Local Abbreviation getitem' :=
  (getitem imread flip image_hw view isfile loadtxt6 offset_entry).

(** The offset loop reads [labels[0, 1]] from a dictionary whose keys are
    ['orig'] and ['flipped']. *)
Lemma offset_loop_raises (self : t) (ds : string) (d : Encoder.Data Tensor) :
  for_range (length (labels_of d)) (offset_step offset_entry self ds)
            (labels_of d)
  = Raise KeyError.
Proof. reflexivity. Qed.

(** X16.  [DetDataset.__getitem__] never returns a sample: an index that
    selects no dataset leaves [ds] unbound, and once the paths are
    resolved and [get_data] has returned, the offset loop subscripts the
    dictionary of label arrays with [(0, 1)] and raises [KeyError]. *)
Theorem det_getitem_never_returns (self : t) (files_index : Z) :
  yields (getitem' self files_index) = false /\
  ((forall c, In c (cds self) -> (files_index < c)%Z) ->
   getitem' self files_index = Throw UnboundLocalError) /\
  (forall ds start imgs img_path lbls label_path d,
      fold_left (resolve_step files_index (od_keys (label_files self)))
                (combine (seq 0 (length (cds self))) (cds self))
                (Ok (None, 0%Z)) = Ok (Some ds, start) ->
      od_get ds (img_files self) = Ok imgs ->
      py_index imgs (files_index - start) = Ok img_path ->
      od_get ds (label_files self) = Ok lbls ->
      py_index lbls (files_index - start) = Ok label_path ->
      Encoder.get_data imread flip image_hw view img_path label_path false
      = Ok d ->
      getitem' self files_index = Throw (Builtin KeyError)).
Proof.
  split; [|split].
  - unfold getitem.
    destruct (fold_left _ _ _) as [[[ds|] start]|e]; cbn [lift obind];
      try reflexivity.
    destruct (od_get ds (img_files self)) as [imgs|e]; cbn [lift obind];
      [|reflexivity].
    destruct (py_index imgs _) as [img_path|e]; cbn [lift obind];
      [|reflexivity].
    destruct (od_get ds (label_files self)) as [lbls|e]; cbn [lift obind];
      [|reflexivity].
    destruct (py_index lbls _) as [label_path|e]; cbn [lift obind];
      [|reflexivity].
    destruct (Encoder.get_data _ _ _ _ _ _ _) as [d|e]; cbn [lift obind];
      [|reflexivity].
    rewrite offset_loop_raises. reflexivity.
  - intros Hall. unfold getitem.
    assert (E : fold_left (resolve_step files_index (od_keys (label_files self)))
                          (combine (seq 0 (length (cds self))) (cds self))
                          (Ok (None, 0%Z)) = Ok (None, 0%Z)).
    { assert (G : forall l : list (nat * Z),
                 (forall ic, In ic l -> (files_index < snd ic)%Z) ->
                 fold_left (resolve_step files_index
                              (od_keys (label_files self))) l (Ok (None, 0%Z))
                 = Ok (None, 0%Z)).
      { induction l as [|[i c] l IH]; intros Hl; [reflexivity|].
        cbn [fold_left]. unfold resolve_step at 2. cbn [bind].
        assert (Ec : (files_index >=? c)%Z = false).
        { rewrite Z.geb_leb. apply Z.leb_gt. apply (Hl (i, c)). now left. }
        rewrite Ec. apply IH. intros ic Hic. apply Hl. now right. }
      apply G. intros [i c] Hic. apply in_combine_r in Hic. now apply Hall. }
    rewrite E. reflexivity.
  - intros ds start imgs img_path lbls label_path d H1 H2 H3 H4 H5 H6.
    unfold getitem. rewrite H1. cbn [lift obind].
    rewrite H2. cbn [lift obind]. rewrite H3. cbn [lift obind].
    rewrite H4. cbn [lift obind]. rewrite H5. cbn [lift obind].
    rewrite H6. cbn [lift obind]. rewrite offset_loop_raises. reflexivity.
Qed.

End DetFetch.

(** ** collate_fn *)

Lemma ofor_range_S {S : Type} (n : nat) (body : Z -> S -> outcome S) (s : S) :
  ofor_range (Datatypes.S n) body s
  = (st <~ ofor_range n body s ;; body (Z.of_nat n) st).
Proof.
  unfold ofor_range. rewrite seq_S, fold_left_app. reflexivity.
Qed.

Lemma list_set_middle {A : Type} (xs ys : list A) (x v : A) (k : nat) :
  length xs = k -> list_set (xs ++ x :: ys) k v = (xs ++ v :: ys)%list.
Proof.
  intros <-. induction xs as [|a xs IH]; simpl; [reflexivity | now rewrite IH].
Qed.

Lemma nth_error_middle {A : Type} (xs ys : list A) (x : A) (k : nat) :
  length xs = k -> nth_error (xs ++ x :: ys) k = Some x.
Proof.
  intros <-. induction xs as [|a xs IH]; simpl; [reflexivity | exact IH].
Qed.

Lemma skipn_repeat {A : Type} (x : A) (n m : nat) :
  skipn n (repeat x m) = repeat x (m - n).
Proof.
  revert m. induction n as [|n IH]; intros [|m]; simpl; auto.
Qed.

Lemma list_max_bound (l : list nat) (n : nat) :
  In n l -> (n <= list_max l)%nat.
Proof.
  intros H.
  pose proof (proj1 (list_max_le l (list_max l)) (le_n _)) as F.
  rewrite Forall_forall in F. now apply F.
Qed.

Section CollateFacts.

Import JointDataset Collate.

Variables (Img Batched : Type).
Variable stack : list Img -> option Batched.

Local Abbreviation labels_of_batch :=
  (map (fun it : Item Img => snd (fst (fst it)))).

(** A label array followed by zero rows up to [m] rows. *)
Local Abbreviation padded m :=
  (fun l : list LabelRow => (l ++ repeat zero_row (m - length l))%list).

(** The filling loop after [k] iterations: the first [k] rows are padded
    label arrays, the others are still zero. *)
Lemma fill_loop (labels : list (list LabelRow)) (m : nat) :
  (forall l, In l labels -> (length l <= m)%nat) ->
  forall k, (k <= length labels)%nat ->
    ofor_range k (fill_step labels)
               (repeat (repeat zero_row m) (length labels),
                repeat 0%Z (length labels))
    = Yield ((map (padded m) (firstn k labels)
              ++ repeat (repeat zero_row m) (length labels - k))%list,
             (map (fun l => Z.of_nat (length l)) (firstn k labels)
              ++ repeat 0%Z (length labels - k))%list).
Proof.
  intros Hm. induction k as [|k IH]; intros Hk.
  - cbn [firstn map app]. now rewrite Nat.sub_0_r.
  - rewrite ofor_range_S, IH by lia. cbn [obind].
    destruct (nth_error labels k) as [l|] eqn:El;
      [|apply nth_error_None in El; lia].
    rewrite (firstn_S_nth _ _ El), !map_app. cbn [map].
    replace (length labels - k)%nat with (S (length labels - S k)) by lia.
    cbn [repeat]. unfold fill_step.
    rewrite (py_index_in _ _ El). cbn [lift obind].
    set (done := map (padded m) (firstn k labels)).
    set (lens := map (fun l0 => Z.of_nat (length l0)) (firstn k labels)).
    assert (Ld : length done = k).
    { subst done. rewrite length_map, length_firstn. lia. }
    assert (Ll : length lens = k).
    { subst lens. rewrite length_map, length_firstn. lia. }
    assert (Hlen : (length l <= m)%nat)
      by (apply Hm; eapply nth_error_In; eauto).
    assert (Efill :
              (if (0 <? length l)%nat then
                 row <~ lift (py_index
                                (done ++ repeat zero_row m
                                   :: repeat (repeat zero_row m)
                                        (length labels - S k))
                                (Z.of_nat k)) ;;
                 row <~ assign_rows row l ;;
                 lift (py_assign
                         (done ++ repeat zero_row m
                            :: repeat (repeat zero_row m)
                                 (length labels - S k))
                         (Z.of_nat k) row)
               else Yield (done ++ repeat zero_row m
                             :: repeat (repeat zero_row m)
                                  (length labels - S k))%list)
              = Yield (done ++ padded m l
                         :: repeat (repeat zero_row m)
                              (length labels - S k))%list).
    { destruct (Nat.ltb_spec 0 (length l)) as [Hpos|Hzero].
      - rewrite (@py_index_in _ _ k (repeat zero_row m))
          by (apply nth_error_middle; exact Ld).
        cbn [lift obind]. unfold assign_rows.
        rewrite repeat_length.
        destruct (Nat.leb_spec (length l) m) as [_|F]; [|lia].
        cbn [obind]. rewrite skipn_repeat.
        rewrite py_assign_in by (rewrite length_app; cbn [length]; lia).
        cbn [lift]. now rewrite (list_set_middle _ _ _ _ Ld).
      - destruct l as [|r l]; [|cbn [length] in Hzero; lia].
        cbn [length app]. now rewrite Nat.sub_0_r. }
    rewrite Efill. cbn [obind].
    rewrite py_assign_in by (rewrite length_app; cbn [length]; lia).
    cbn [lift obind]. rewrite (list_set_middle _ _ _ _ Ll).
    now rewrite <- !app_assoc.
Qed.

(** X17.  [collate_fn] refuses an empty batch with [ValueError] and a
    batch whose images do not stack with [RuntimeError]; otherwise it
    returns the stacked images, the paths and the sizes in batch order,
    every label array followed by zero rows up to the longest one of the
    batch, and the original number of rows of each in [labels_len]. *)
Theorem collate_fn_pads (batch : list (Item Img)) :
  let labels := labels_of_batch batch in
  let m := list_max (map (fun l => length l) labels) in
  match batch with
  | [] => collate_fn stack batch = Throw (Builtin ValueError)
  | _ =>
      match stack (map (fun it : Item Img => fst (fst (fst it))) batch) with
      | None => collate_fn stack batch = Throw RuntimeError
      | Some b =>
          collate_fn stack batch
          = Yield (mkCollated b (map (padded m) labels)
                     (map (fun it : Item Img => snd (fst it)) batch)
                     (map (fun it : Item Img => snd it) batch)
                     (map (fun l => [Z.of_nat (length l)]) labels))
      end
  end.
Proof.
  intros labels m. destruct batch as [|it rest]; [reflexivity|].
  unfold collate_fn.
  destruct (stack (map (fun it0 : Item Img => fst (fst (fst it0)))
                       (it :: rest))) as [b|]; cbn [obind]; [|reflexivity].
  fold labels. fold m.
  rewrite (@fill_loop labels m) by
    (first [intros l Hl; apply list_max_bound;
            apply (in_map (fun l0 => length l0)); exact Hl
           | apply le_n]).
  cbn [obind]. rewrite firstn_all, Nat.sub_diag. cbn [repeat].
  rewrite !app_nil_r, map_map. reflexivity.
Qed.

(** The padding can be undone: the first [labels_len[i]] rows of entry
    [i] are the label array it was built from, and all entries have the
    same number of rows. *)
Lemma padded_round_trip (m : nat) (l : list LabelRow) :
  (length l <= m)%nat ->
  firstn (length l) (padded m l) = l /\ length (padded m l) = m.
Proof.
  intros H. split.
  - rewrite firstn_app, Nat.sub_diag, firstn_all. cbn [firstn].
    apply app_nil_r.
  - rewrite length_app, repeat_length. lia.
Qed.

End CollateFacts.

(** ** MotLoss.__init__ *)

(** X18.  [MotLoss.__init__] builds the classifier first: a negative
    [reid_dim] or [nID] raises [RuntimeError] there.  For positive
    [reid_dim] and [nID] it succeeds exactly when the self-supervised
    loss, if self-supervised training is on, is one of the three supported
    names and [nID] is at least 2, and every failure is a [ValueError]:
    with [nID = 1] (no identity in the data) [math.log] refuses its
    argument.  The embedding scale [sqrt(2) * log(nID - 1)] of the module
    it returns is 0 for [nID = 2], so that a single identity scales every
    embedding to zero, and positive for any larger [nID]. *)
Theorem loss_init_iff (o : MotLoss.Opt) (states : list string) :
  ((MotLoss.reid_dim o < 0 \/ MotLoss.nID o < 0)%Z ->
   MotLoss.init o states = Raise Py.RuntimeError) /\
  ((0 < MotLoss.reid_dim o)%Z -> (0 < MotLoss.nID o)%Z ->
   ((exists m, MotLoss.init o states = Ok m) <->
    ((MotLoss.unsup o = true ->
      MotLoss.unsup_loss o = "nt_xent"%string \/
      MotLoss.unsup_loss o = "triplet_all"%string \/
      MotLoss.unsup_loss o = "triplet_hard"%string) /\
     (2 <= MotLoss.nID o)%Z)) /\
   (is_ok (MotLoss.init o states) = false ->
    MotLoss.init o states = Raise ValueError)) /\
  (forall m, MotLoss.init o states = Ok m ->
             (2 <= MotLoss.nID o)%Z /\
             (MotLoss.nID o = 2%Z -> MotLoss.emb_scale m = 0%R) /\
             ((2 < MotLoss.nID o)%Z -> (0 < MotLoss.emb_scale m)%R)).
Proof.
  split; [|split].
  - apply init_negative.
  - intros Hr Hn.
    assert (Hr' : (0 <= MotLoss.reid_dim o)%Z) by lia.
    assert (Hn' : (0 <= MotLoss.nID o)%Z) by lia.
    rewrite (@init_past_linear o states Hr' Hn').
    split; [split|].
    + intros [m H]. split.
      * rewrite <- (@init_past_linear o states Hr' Hn') in H.
        apply (@init_inv o states m H).
      * destruct (_ && _); [discriminate|].
        destruct (Z.leb_spec (MotLoss.nID o - 1) 0); [discriminate | lia].
    + intros [Hu Hid]. unfold MotLoss.make_self_sup.
      assert (E : (MotLoss.nID o - 1 <=? 0)%Z = false)
        by (apply Z.leb_gt; lia).
      destruct (MotLoss.unsup o).
      * destruct (Hu eq_refl) as [F|[F|F]]; rewrite F; cbn; rewrite E; eauto.
      * cbn [andb]. rewrite E. eauto.
    + destruct (_ && _); [reflexivity|].
      destruct (MotLoss.nID o - 1 <=? 0)%Z; [reflexivity | discriminate].
  - intros m H.
    destruct (@init_dims o states m H) as [Hr Hn].
    split; [exact Hn|].
    rewrite (@init_past_linear o states Hr ltac:(lia)) in H.
    destruct (_ && _); [discriminate|].
    destruct (MotLoss.nID o - 1 <=? 0)%Z; [discriminate|].
    injection H as <-. cbn [MotLoss.emb_scale].
    split.
    + intros ->. change (IZR (2 - 1)) with 1%R. rewrite ln_1. lra.
    + intros Hn2.
      assert (H1 : (1 < IZR (MotLoss.nID o - 1))%R) by (apply IZR_lt; lia).
      assert (Hl : (0 < ln (IZR (MotLoss.nID o - 1)))%R).
      { rewrite <- ln_1. apply ln_increasing; lra. }
      assert (Hs : (0 < sqrt 2)%R) by (apply sqrt_lt_R0; lra).
      now apply Rmult_lt_0_compat.
Qed.

(** ** LoadVideo *)

Lemma skipn_cons_nth {A : Type} (l : list A) (k : nat) (x : A) :
  nth_error l k = Some x -> skipn k l = x :: skipn (S k) l.
Proof.
  revert k. induction l as [|a l IH]; intros [|k] H; try discriminate.
  - injection H as ->. reflexivity.
  - cbn [skipn]. now apply IH.
Qed.

Section LoadVideoFacts.

Import LoadVideo.

Variable Image : Type.
Variable image_hw : Image -> Z * Z.
Variable resize : Image -> Z * Z -> Image.

(** [cv2.resize] to a positive size gives an image of that size. *)
Hypothesis resize_shape :
  forall img w h, (0 < w)%Z -> (0 < h)%Z ->
                  image_hw (resize img (w, h)) = (h, w).

Local Abbreviation next' := (next image_hw resize).
Local Abbreviation advance' := (advance image_hw resize).

Local Abbreviation rest_of c k :=
  (mkCapture (fps c) (frame_width c) (frame_height c) (frame_count c)
             (skipn k (stream c))).

(** While frames are delivered, [k] calls have consumed [k] frames and
    left the counter at [k - 1]. *)
Lemma video_advance_state (c : Capture Image) (img_size : Z * Z) (k : nat) :
  (k <= length (stream c))%nat ->
  (Z.of_nat k <= vn (init c img_size))%Z ->
  advance' k (iter (init c img_size))
  = mk (rest_of c k) (frame_rate (init c img_size)) (vw (init c img_size))
       (vh (init c img_size)) (vn (init c img_size))
       (fst img_size) (snd img_size) (Z.of_nat k - 1) 1920 1080.
Proof.
  induction k as [|k IH]; intros Hk Hn.
  - cbn [advance skipn]. unfold iter, init. cbn. now destruct c.
  - cbn [advance]. rewrite IH by lia. unfold next, len. cbv zeta.
    cbn [count vn cap frame_rate vw vh width height w h].
    replace (Z.of_nat k - 1 + 1)%Z with (Z.of_nat k) by lia.
    destruct (Z.eqb_spec (Z.of_nat k) (vn (init c img_size))) as [E|_]; [lia|].
    destruct (nth_error (stream c) k) as [f|] eqn:Ef;
      [|apply nth_error_None in Ef; lia].
    unfold read. cbn [stream fps frame_width frame_height frame_count].
    rewrite (skipn_cons_nth _ _ Ef). cbn [fst].
    f_equal. lia.
Qed.

(** X19.  Iterating over a [LoadVideo] whose capture announces [vn]
    frames: while frames keep coming, call number [k < vn] of [__next__]
    returns, for a configured size with positive width and height, the
    frame number [k], the frame resized to 1920 by 1080 whatever the size
    of the video, and an array of the configured [(3, height, width)]; for
    a configured size with a component that is not positive it raises
    [cv2.error].  Call number [vn] raises [StopIteration]; and if the
    stream ends before [vn] frames, the call that finds no frame raises
    [AssertionError] instead. *)
Theorem load_video_iteration (c : Capture Image) (img_size : Z * Z)
    (k : nat) :
  (k <= length (stream c))%nat ->
  (Z.of_nat k <= vn (init c img_size))%Z ->
  let r := snd (next' (advance' k (iter (init c img_size)))) in
  (Z.of_nat k = vn (init c img_size) -> r = Throw StopIteration) /\
  ((Z.of_nat k < vn (init c img_size))%Z ->
   match nth_error (stream c) k with
   | Some f =>
       ((0 < fst img_size)%Z -> (0 < snd img_size)%Z ->
        r = Yield (Z.of_nat k, (3, snd img_size, fst img_size)%Z,
                   resize f (1920, 1080)%Z)) /\
       ((fst img_size <= 0 \/ snd img_size <= 0)%Z ->
        r = Throw (Builtin Cv2Error))
   | None => r = Throw AssertionError
   end).
Proof.
  intros Hk Hn r. subst r.
  rewrite (video_advance_state c img_size Hk Hn).
  unfold next, len. cbv zeta.
  cbn [count vn cap frame_rate vw vh width height w h].
  replace (Z.of_nat k - 1 + 1)%Z with (Z.of_nat k) by lia.
  split.
  - intros E. rewrite E, Z.eqb_refl. reflexivity.
  - intros Hlt.
    destruct (Z.eqb_spec (Z.of_nat k) (vn (init c img_size))) as [E|_]; [lia|].
    unfold read. cbn [stream].
    destruct (nth_error (stream c) k) as [f|] eqn:Ef.
    + rewrite (skipn_cons_nth _ _ Ef). cbn [snd].
      rewrite resize_shape by lia. split.
      * intros Pw Ph.
        destruct (@letterbox_shape 1080 1920 (snd img_size) (fst img_size))
          as (ratio & dw & dh & ->); [lia | lia | lia | lia | lia | lia |].
        reflexivity.
      * intros Hbad.
        rewrite (@letterbox_refused 1080 1920 (snd img_size) (fst img_size))
          by lia.
        reflexivity.
    + apply nth_error_None in Ef. rewrite skipn_all2 by exact Ef.
      reflexivity.
Qed.

End LoadVideoFacts.

(** X19 at a capture that announces three frames and holds two: the
    second call returns frame 1 at the configured size, the third finds no
    frame. *)
Lemma load_video_iteration_witness :
  snd (LoadVideo.next LoaderSamples.image_hw LoaderSamples.resize
         (LoadVideo.advance LoaderSamples.image_hw LoaderSamples.resize 1
            (LoadVideo.iter
               (LoadVideo.init LoaderSamples.short_video (1088, 608)%Z))))
  = Yield (1%Z, (3, 608, 1088)%Z, (1080, 1920)%Z) /\
  snd (LoadVideo.next LoaderSamples.image_hw LoaderSamples.resize
         (LoadVideo.advance LoaderSamples.image_hw LoaderSamples.resize 2
            (LoadVideo.iter
               (LoadVideo.init LoaderSamples.short_video (1088, 608)%Z))))
  = Throw AssertionError.
Proof.
  pose proof (@load_video_iteration LoaderSamples.Image LoaderSamples.image_hw
                LoaderSamples.resize (fun img w h _ _ => eq_refl)
                LoaderSamples.short_video (1088, 608)%Z) as T.
  split.
  - destruct (T 1%nat) as [_ H]; [simpl; lia | vm_compute; discriminate |].
    apply H; reflexivity.
  - destruct (T 2%nat) as [_ H]; [simpl; lia | vm_compute; discriminate |].
    apply H. reflexivity.
Defined.
